(** * m2arm scanner: a shallow embedding of [cli/internal/scanner/scanner.go]

    The development follows the Go source function by function.  Library
    calls ([strings], [path/filepath], [regexp], [bufio], [os]) are given
    executable models restricted to what the scanner uses; each model says
    what it leaves out.  The file system is a tree read at the project
    root; the order in which a [range] visits a Go map is an input of the
    function that runs the loop. *)

From Stdlib Require Import List String Ascii Bool ZArith Lia Arith.
From Stdlib Require Import Permutation Sorted.
From Stdlib Require Import Numbers.DecimalString.
Import ListNotations.

Set Warnings "-register-all".

Open Scope string_scope.
Open Scope list_scope.

(** ** Go's [strings] package, on byte strings *)

Module Strings.

Definition ascii_in (lo hi : nat) (c : ascii) : bool :=
  (lo <=? nat_of_ascii c)%nat && (nat_of_ascii c <=? hi)%nat.

(** The white space of [unicode.IsSpace] in one byte: tab, line feed,
    vertical tab, form feed, carriage return and space. *)
Definition asciiSpace (c : ascii) : bool :=
  ascii_in 9 13 c || (nat_of_ascii c =? 32)%nat.

(** The third byte of the three-byte white-space runes that start with
    the bytes 226 128: U+2000 to U+200A, U+2028, U+2029 and U+202F. *)
Definition generalSpaceTail (n : nat) : bool :=
  ((128 <=? n) && (n <=? 138) || (n =? 168) || (n =? 169) || (n =? 175))%nat.

(** [spaceWidth s]: the number of bytes of the rune at the head of [s]
    when [unicode.IsSpace] holds of it, and 0 otherwise.  Strings are byte
    strings in UTF-8; besides the six one-byte runes the white-space runes
    are U+0085 and U+00A0 (two bytes, first byte 194), U+1680, U+2000 to
    U+200A, U+2028, U+2029, U+202F, U+205F and U+3000 (three bytes). *)
Definition spaceWidth (s : string) : nat :=
  match s with
  | EmptyString => 0
  | String c s1 =>
      if asciiSpace c then 1
      else
        match s1 with
        | EmptyString => 0
        | String c1 s2 =>
            let n := nat_of_ascii c in
            let n1 := nat_of_ascii c1 in
            if (n =? 194)%nat then
              if ((n1 =? 133) || (n1 =? 160))%nat then 2 else 0
            else
              match s2 with
              | EmptyString => 0
              | String c2 _ =>
                  let n2 := nat_of_ascii c2 in
                  if ((n =? 225) && (n1 =? 154) && (n2 =? 128))%nat then 3
                  else if ((n =? 226) && (n1 =? 128))%nat && generalSpaceTail n2
                       then 3
                  else if ((n =? 226) && (n1 =? 129) && (n2 =? 159))%nat then 3
                  else if ((n =? 227) && (n1 =? 128) && (n2 =? 128))%nat then 3
                  else 0
              end
        end
  end.

Definition lowerChar (c : ascii) : ascii :=
  if ascii_in 65 90 c then ascii_of_nat (nat_of_ascii c + 32) else c.

(** [strings.ToLower], ASCII letters. *)
Fixpoint ToLower (s : string) : string :=
  match s with
  | EmptyString => EmptyString
  | String c s' => String (lowerChar c) (ToLower s')
  end.

(** [strings.HasPrefix s p]. *)
Definition HasPrefix (s p : string) : bool := String.prefix p s.

(** [strings.Contains s sub]. *)
Fixpoint Contains (s sub : string) : bool :=
  String.prefix sub s ||
  match s with
  | EmptyString => false
  | String _ s' => Contains s' sub
  end.

(** Dropping the white-space runes at the head of a string; [skip] counts
    the bytes of the current rune still to be dropped. *)
Fixpoint TrimLeftFrom (skip : nat) (s : string) : string :=
  match s with
  | EmptyString => EmptyString
  | String _ s' =>
      match skip with
      | S k => TrimLeftFrom k s'
      | O =>
          match spaceWidth s with
          | O => s
          | S w => TrimLeftFrom w s'
          end
      end
  end.

Definition TrimLeft (s : string) : string := TrimLeftFrom 0 s.

(** The string is made of white-space runes only. *)
Fixpoint allSpaceFrom (skip : nat) (s : string) : bool :=
  match s with
  | EmptyString => (skip =? 0)%nat
  | String _ s' =>
      match skip with
      | S k => allSpaceFrom k s'
      | O =>
          match spaceWidth s with
          | O => false
          | S w => allSpaceFrom w s'
          end
      end
  end.

(** Dropping the white-space runes at the end of a string: what is kept
    ends where the rest is white space only. *)
Fixpoint TrimRight (s : string) : string :=
  match s with
  | EmptyString => EmptyString
  | String c s' =>
      if allSpaceFrom 0 s then EmptyString else String c (TrimRight s')
  end.

(** [strings.TrimSpace]: leading and trailing white space, as defined by
    Unicode, removed. *)
Definition TrimSpace (s : string) : string := TrimRight (TrimLeft s).

(** [strings.Split s sep] for a non-empty [sep]: the pieces between the
    non-overlapping occurrences of [sep], found left to right.  [skip]
    counts the bytes of a separator still to be dropped, [acc] is the
    piece being collected. *)
Fixpoint SplitFrom (sep : string) (skip : nat) (acc : string) (s : string)
  : list string :=
  match s with
  | EmptyString => [acc]
  | String c s' =>
      match skip with
      | S k => SplitFrom sep k acc s'
      | O =>
          if String.prefix sep s
          then acc :: SplitFrom sep (String.length sep - 1) EmptyString s'
          else SplitFrom sep 0 (acc ++ String c EmptyString) s'
      end
  end.

Definition Split (s sep : string) : list string := SplitFrom sep 0 EmptyString s.

(** [strings.Fields]: the maximal runs of bytes between white-space
    runes.  [skip] counts the bytes of a white-space rune still to be
    dropped, [acc] is the field being collected. *)
Fixpoint FieldsFrom (skip : nat) (acc : string) (s : string) : list string :=
  match s with
  | EmptyString => match acc with EmptyString => [] | _ => [acc] end
  | String c s' =>
      match skip with
      | S k => FieldsFrom k acc s'
      | O =>
          match spaceWidth s with
          | S w =>
              match acc with
              | EmptyString => FieldsFrom w EmptyString s'
              | _ => acc :: FieldsFrom w EmptyString s'
              end
          | O => FieldsFrom 0 (acc ++ String c EmptyString) s'
          end
      end
  end.

Definition Fields (s : string) : list string := FieldsFrom 0 EmptyString s.

End Strings.

(** ** [path/filepath] on relative paths

    A path below the project root is kept as the list of its components;
    [filepath.Join p name] appends a component and
    [filepath.Rel projectPath p] prints the components with the separator. *)

Module Filepath.

Definition path := list string.

Definition Join (p : path) (name : string) : path := p ++ [name].

Fixpoint joinSep (p : path) : string :=
  match p with
  | [] => EmptyString
  | [x] => x
  | x :: rest => x ++ "/" ++ joinSep rest
  end.

(** [filepath.Rel projectPath p]: ["."] for the root itself. *)
Definition Rel (p : path) : string :=
  match p with
  | [] => "."
  | _ => joinSep p
  end.

Definition hasDotOrSep (s : string) : bool :=
  Strings.Contains s "." || Strings.Contains s "/".

(** [filepath.Ext]: the suffix from the last dot of the last element. *)
Fixpoint Ext (s : string) : string :=
  match s with
  | EmptyString => EmptyString
  | String c s' =>
      if hasDotOrSep s' then Ext s'
      else if Ascii.eqb c "."%char then s
      else EmptyString
  end.

End Filepath.

(** ** A model of the [regexp] syntax used by the rule table

    The expressions of the table are sequences of single-character atoms
    (a literal, an escaped literal, [.], [\s], [\w], [\d]), each optionally
    followed by a star or a plus.  [Compile] accepts exactly this fragment
    and rejects the rest; [FindString] is leftmost-first search with greedy
    repetition, as in Go. *)

Module Regexp.

Inductive cclass : Type :=
| CChar (a : ascii)
| CAny
| CSpace
| CWord
| CDigit.

Inductive quant : Type := One | Star | Plus.

Definition Regexp := list (cclass * quant).

Definition isDigit (c : ascii) : bool := Strings.ascii_in 48 57 c.

Definition isWord (c : ascii) : bool :=
  isDigit c || Strings.ascii_in 65 90 c || Strings.ascii_in 97 122 c
  || Ascii.eqb c "_"%char.

(** The Perl class [\s]: tab, line feed, form feed, carriage return, space. *)
Definition isPerlSpace (c : ascii) : bool :=
  let n := nat_of_ascii c in
  (n =? 9)%nat || (n =? 10)%nat || (n =? 12)%nat || (n =? 13)%nat || (n =? 32)%nat.

Definition accepts (k : cclass) (c : ascii) : bool :=
  match k with
  | CChar a => Ascii.eqb a c
  | CAny => negb (nat_of_ascii c =? 10)%nat
  | CSpace => isPerlSpace c
  | CWord => isWord c
  | CDigit => isDigit c
  end.

Definition escapeClass (c : ascii) : option cclass :=
  if Ascii.eqb c "s"%char then Some CSpace
  else if Ascii.eqb c "w"%char then Some CWord
  else if Ascii.eqb c "d"%char then Some CDigit
  else if isWord c then None
  else Some (CChar c).

Definition isMeta (c : ascii) : bool :=
  existsb (Ascii.eqb c)
    ["("%char; ")"%char; "["%char; "]"%char; "|"%char; "?"%char; "^"%char; "$"%char].

Definition startsWithDigit (s : string) : bool :=
  match s with
  | String d _ => isDigit d
  | EmptyString => false
  end.

(** [esc]: the previous byte was a backslash; [quantified]: the last atom
    already carries a repetition; [acc]: the atoms read so far, reversed. *)
Fixpoint parse (s : string) (esc quantified : bool) (acc : Regexp)
  : option Regexp :=
  match s with
  | EmptyString => if esc then None else Some (rev acc)
  | String c s' =>
      if esc then
        match escapeClass c with
        | Some k => parse s' false false ((k, One) :: acc)
        | None => None
        end
      else if Ascii.eqb c "\"%char then parse s' true quantified acc
      else if Ascii.eqb c "*"%char || Ascii.eqb c "+"%char then
        match acc with
        | (k, One) :: acc' =>
            if quantified then None
            else parse s' false true
                   ((k, if Ascii.eqb c "*"%char then Star else Plus) :: acc')
        | _ => None
        end
      else if isMeta c then None
      else if Ascii.eqb c "{"%char && startsWithDigit s' then None
      else if Ascii.eqb c "."%char then parse s' false false ((CAny, One) :: acc)
      else parse s' false false ((CChar c, One) :: acc)
  end.

(** [regexp.Compile]; [None] is a compile error. *)
Definition Compile (pattern : string) : option Regexp :=
  parse pattern false false [].

(** The match starting at the head of the text that a backtracking
    matcher finds first. *)
Fixpoint matchHere (r : Regexp) : string -> option string :=
  match r with
  | [] => fun _ => Some EmptyString
  | (k, q) :: r' =>
      let rest := matchHere r' in
      let star :=
        fix star (s : string) : option string :=
          match s with
          | String a s' =>
              if accepts k a then
                match star s' with
                | Some m => Some (String a m)
                | None => rest s
                end
              else rest s
          | EmptyString => rest EmptyString
          end in
      match q with
      | Star => star
      | One => fun s =>
          match s with
          | String a s' =>
              if accepts k a then option_map (String a) (rest s') else None
          | EmptyString => None
          end
      | Plus => fun s =>
          match s with
          | String a s' =>
              if accepts k a then option_map (String a) (star s') else None
          | EmptyString => None
          end
      end
  end.

(** [FindString] of a compiled expression: the text of the leftmost match,
    the empty string when there is none. *)
Fixpoint FindString (r : Regexp) (s : string) : string :=
  match matchHere r s with
  | Some m => m
  | None =>
      match s with
      | EmptyString => EmptyString
      | String _ s' => FindString r s'
      end
  end.

End Regexp.

(** ** [sdk/types.go]: the report *)

Module Sdk.

Record Issue : Type := {
  File : string;
  Line : Z;
  Category : string;
  Pattern : string;
  MatchedText : string;
  Severity : string;
  Suggestion : string
}.

Record Dependency : Type := {
  Name : string;
  Version : string;
  Type_ : string;
  ARMCompatible : string
}.

(** The fields [File], [System] and [NeedsReview] of [sdk.BuildSystem]. *)
Record BuildSystem : Type := {
  bsFile : string;
  System : string;
  NeedsReview : bool
}.

(** [ScanTime] is the clock reading, an opaque number here.  The counts are
    Go [int]s; they are bounded by slice lengths, so no wrap-around can
    occur and they are kept as unbounded integers. *)
Record ScanResults : Type := {
  TotalFiles : Z;
  ScannedFiles : Z;
  Issues : list Issue;
  Dependencies : list Dependency;
  BuildSystems : list BuildSystem;
  Recommendations : list string;
  ScanTime : Z
}.

End Sdk.

(** ** The file system seen through [os], [bufio] and [filepath.Walk] *)

Module Os.

Import Filepath.

Inductive error : Type :=
| ErrNotExist
| ErrPermission
| ErrNotDir
| ErrRead.

(** What a regular file holds for a reader: [Unopenable] when [os.Open]
    is refused; otherwise the lines a [bufio.Scanner] yields before it
    stops and whether [scanner.Err()] is then non-nil (an I/O error or a
    line longer than the scanner's buffer). *)
Inductive content : Type :=
| Unopenable
| Text (lines : list string) (readErr : bool).

(** A directory lists its entries in the order [filepath.Walk] visits them
    (lexical).  [Locked] is a directory whose listing cannot be read. *)
Inductive node : Type :=
| Regular (name : string) (data : content)
| Dir (name : string) (entries : list node)
| Locked (name : string).

Record FileInfo : Type := { fiName : string; fiIsDir : bool }.

Definition nodeName (n : node) : string :=
  match n with
  | Regular name _ => name
  | Dir name _ => name
  | Locked name => name
  end.

Definition nodeIsDir (n : node) : bool :=
  match n with
  | Regular _ _ => false
  | _ => true
  end.

Definition Lstat (n : node) : FileInfo :=
  {| fiName := nodeName n; fiIsDir := nodeIsDir n |}.

Fixpoint find (name : string) (es : list node) : option node :=
  match es with
  | [] => None
  | e :: es' => if String.eqb (nodeName e) name then Some e else find name es'
  end.

(** Resolving a path from the root: the node, or the error of the failing
    system call. *)
Fixpoint resolve (p : path) (n : node) : node + error :=
  match p with
  | [] => inl n
  | x :: p' =>
      match n with
      | Dir _ es =>
          match find x es with
          | Some c => resolve p' c
          | None => inr ErrNotExist
          end
      | Regular _ _ => inr ErrNotDir
      | Locked _ => inr ErrPermission
      end
  end.

Definition resolveFrom (root : option node) (p : path) : node + error :=
  match root with
  | None => inr ErrNotExist
  | Some n => resolve p n
  end.

(** [os.Stat]: [None] on success. *)
Definition Stat (root : option node) (p : path) : option error :=
  match resolveFrom root p with
  | inl _ => None
  | inr e => Some e
  end.

Definition IsNotExist (err : option error) : bool :=
  match err with
  | Some ErrNotExist => true
  | _ => false
  end.

(** [os.Open] followed by reading every line with a [bufio.Scanner]: the
    error of [os.Open], or the lines and whether [scanner.Err()] is
    non-nil.  Opening a directory succeeds and the first read fails. *)
Inductive opened : Type :=
| OpenErr (e : error)
| Lines (lines : list string) (readErr : bool).

Definition Open (root : option node) (p : path) : opened :=
  match resolveFrom root p with
  | inl (Regular _ Unopenable) => OpenErr ErrPermission
  | inl (Regular _ (Text lines readErr)) => Lines lines readErr
  | inl (Dir _ _) => Lines [] true
  | inl (Locked _) => OpenErr ErrPermission
  | inr e => OpenErr e
  end.

Definition errOfRead (readErr : bool) : option error :=
  if readErr then Some ErrRead else None.

(** The meta characters of [filepath.Glob] (on Unix, where the backslash
    escapes). *)
Definition hasMeta (path : string) : bool :=
  Strings.Contains path "*" || Strings.Contains path "?"
  || Strings.Contains path "[" || Strings.Contains path "\".

(** [filepath.Glob] of the project path joined with a file name, each
    match given relative to the project path; [None] is the error of a
    malformed pattern.  Without meta characters the only possible match is
    the path itself, when [Lstat] succeeds on it.  With meta characters in
    the project path the pattern may be malformed, and what it matches
    depends on the directories around the project directory: that answer
    is taken from [around], which is part of the file system the run
    sees. *)
Definition Glob (projectPath : string)
    (around : string -> option (list string))
    (root : option node) (name : string) : option (list string) :=
  if hasMeta projectPath || hasMeta name then around name
  else
    match resolveFrom root (Join [] name) with
    | inl _ => Some [Rel (Join [] name)]
    | inr _ => Some []
    end.

(** What a [WalkFunc] returns: [nil], [filepath.SkipDir] or an error. *)
Inductive walkRet : Type :=
| WalkNil
| WalkSkipDir
| WalkErr (e : error).

Section Walk.

Context {St : Type}.

(** The callback, as a state transformer over what its closure mutates. *)
Variable walkFn : path -> FileInfo -> option error -> St -> St * walkRet.

(** The loop of [walk] over the entries of a directory, given what
    walking one entry does. *)
Definition walkEntries (walkEntry : path -> node -> St -> St * walkRet)
    (p : path) : list node -> St -> St * walkRet :=
  fix each (es : list node) (st : St) : St * walkRet :=
    match es with
    | [] => (st, WalkNil)
    | e :: es' =>
        match walkEntry (Join p (nodeName e)) e st with
        | (st2, WalkNil) => each es' st2
        | (st2, WalkSkipDir) =>
            if nodeIsDir e then each es' st2 else (st2, WalkSkipDir)
        | (st2, WalkErr err) => (st2, WalkErr err)
        end
    end.

Fixpoint walk (p : path) (n : node) (st : St) : St * walkRet :=
  match n with
  | Regular _ _ => walkFn p (Lstat n) None st
  | Locked _ => walkFn p (Lstat n) (Some ErrPermission) st
  | Dir _ es =>
      match walkFn p (Lstat n) None st with
      | (st1, WalkNil) => walkEntries walk p es st1
      | r => r
      end
  end.

Definition errOf (r : walkRet) : option error :=
  match r with
  | WalkErr e => Some e
  | _ => None
  end.

(** [filepath.Walk projectPath walkFn].  When the root cannot be
    [Lstat]ed the callback is called once with the error (and no file
    information: the record passed is a placeholder that a callback
    testing the error first never reads). *)
Definition Walk (root : option node) (st : St) : St * option error :=
  match root with
  | None =>
      let '(st1, r) :=
        walkFn [] {| fiName := EmptyString; fiIsDir := false |}
               (Some ErrNotExist) st in
      (st1, errOf r)
  | Some n =>
      let '(st1, r) := walk [] n st in
      (st1, errOf r)
  end.

End Walk.

End Os.

(** ** [scanner.go] *)

Module Scanner.

Import Sdk Os Filepath.

(** Go maps with string keys, as their entries.  A [range] over a map
    visits the keys in an order the language leaves unspecified and that
    may change from one loop to the next; each such loop below takes the
    order it is run with as a list of keys. *)
Fixpoint mapGet {V : Type} (m : list (string * V)) (k : string) : option V :=
  match m with
  | [] => None
  | (k', v) :: m' => if String.eqb k' k then Some v else mapGet m' k
  end.

Fixpoint mapSet {V : Type} (m : list (string * V)) (k : string) (v : V)
  : list (string * V) :=
  match m with
  | [] => [(k, v)]
  | (k', v') :: m' =>
      if String.eqb k' k then (k, v) :: m' else (k', v') :: mapSet m' k v
  end.

Definition mapKeys {V : Type} (m : list (string * V)) : list string :=
  map fst m.

(** [m[k]] on a [map[string]bool]: false for an absent key. *)
Definition mapTest (m : list (string * bool)) (k : string) : bool :=
  match mapGet m k with
  | Some b => b
  | None => false
  end.

Record Scanner : Type := {
  projectPath : string;
  config : list (string * bool);
  patterns : list (string * list string);
  extensions : list (string * bool)
}.

Definition New (projectPath : string) (config : list (string * bool)) : Scanner :=
  {| projectPath := projectPath;
     config := config;
     patterns :=
       [ ("inline_assembly",
          [ "__asm__\s*\(";
            "asm\s*\(";
            "_asm\s*{" ]);
         ("x86_intrinsics",
          [ "#include\s*<.*mmintrin\.h.*>";
            "#include\s*<.*xmmintrin\.h.*>";
            "#include\s*<.*emmintrin\.h.*>";
            "#include\s*<.*pmmintrin\.h.*>";
            "#include\s*<.*immintrin\.h.*>";
            "_mm_\w+";
            "_mm\d+_\w+" ]);
         ("architecture_checks",
          [ "#ifdef\s+_M_X64";
            "#ifdef\s+__x86_64__";
            "#ifdef\s+_M_IX86";
            "#ifdef\s+__i386__" ]);
         ("platform_specific",
          [ "GetSystemInfo";
            "IsWow64Process";
            "SYSTEM_INFO" ]) ];
     extensions :=
       [ (".c", true); (".cpp", true); (".cc", true); (".cxx", true);
         (".h", true); (".hpp", true); (".hxx", true); (".py", true);
         (".go", true); (".rs", true); (".java", true); (".cs", true);
         (".js", true); (".ts", true); (".jsx", true); (".tsx", true) ] |}.

Definition skippedDir (name : string) : bool :=
  String.eqb name ".git" || String.eqb name "__pycache__"
  || String.eqb name "node_modules" || String.eqb name ".venv"
  || String.eqb name "venv" || String.eqb name "build"
  || String.eqb name "dist" || String.eqb name ".tox"
  || String.eqb name ".pytest_cache".

(** The callback of [getSourceFiles]; its state is the slice [files].
    [filepath.Ext path] is the extension of the last element, which is the
    name of the entry visited. *)
Definition sourceFileFn (s : Scanner)
    (p : path) (info : FileInfo) (err : option error) (files : list path)
  : list path * walkRet :=
  match err with
  | Some e => (files, WalkErr e)
  | None =>
      if fiIsDir info then
        if skippedDir (fiName info) then (files, WalkSkipDir)
        else (files, WalkNil)
      else
        let ext := Strings.ToLower (Ext (fiName info)) in
        if mapTest (extensions s) ext then (files ++ [p], WalkNil)
        else (files, WalkNil)
  end.

Definition getSourceFiles (s : Scanner) (root : option node)
  : list path * option error :=
  Walk (sourceFileFn s) root [].

Definition getSeverity (category : string) : string :=
  let severityMap :=
    [ ("inline_assembly", "high");
      ("x86_intrinsics", "high");
      ("architecture_checks", "medium");
      ("platform_specific", "medium") ] in
  match mapGet severityMap category with
  | Some severity => severity
  | None => "low"
  end.

Definition getSuggestion (category matchedText : string) : string :=
  let suggestions :=
    [ ("inline_assembly", "Replace with portable C/C++ code or use ARM NEON intrinsics");
      ("x86_intrinsics", "Replace with ARM NEON equivalents or portable alternatives");
      ("architecture_checks", "Add ARM architecture checks or use runtime detection");
      ("platform_specific", "Use cross-platform alternatives or add ARM-specific implementations") ] in
  match mapGet suggestions category with
  | Some suggestion => suggestion
  | None => "Review for ARM compatibility"
  end.

(** The body of the innermost loop of [scanFile]: one expression of one
    category against one line. *)
Definition scanPattern (filePath : path) (lineNum : Z) (line : string)
    (category pattern : string) : list Issue :=
  match Regexp.Compile pattern with
  | None => []
  | Some regex =>
      let match_ := Regexp.FindString regex line in
      if String.eqb match_ EmptyString then []
      else
        [ {| File := Rel filePath;
             Line := lineNum;
             Category := category;
             Pattern := pattern;
             MatchedText := match_;
             Severity := getSeverity category;
             Suggestion := getSuggestion category match_ |} ]
  end.

(** [for _, pattern := range patterns]. *)
Definition scanCategory (filePath : path) (lineNum : Z) (line : string)
    (category : string) (pats : list string) : list Issue :=
  flat_map (scanPattern filePath lineNum line category) pats.

(** [for category, patterns := range s.patterns], run in the order [keys]. *)
Definition scanLine (s : Scanner) (keys : list string)
    (filePath : path) (lineNum : Z) (line : string) : list Issue :=
  flat_map
    (fun category =>
       match mapGet (patterns s) category with
       | Some pats => scanCategory filePath lineNum line category pats
       | None => []
       end)
    keys.

(** The order of the category loop at each line of each file. *)
Definition lineOrder := path -> Z -> list string.

(** [for scanner.Scan()]: [lineNum] is the counter before the line. *)
Fixpoint scanLines (s : Scanner) (ord : lineOrder) (filePath : path)
    (lineNum : Z) (lines : list string) : list Issue :=
  match lines with
  | [] => []
  | line :: rest =>
      let lineNum := (lineNum + 1)%Z in
      scanLine s (ord filePath lineNum) filePath lineNum line
      ++ scanLines s ord filePath lineNum rest
  end.

Definition scanFile (s : Scanner) (root : option node) (ord : lineOrder)
    (filePath : path) : list Issue * option error :=
  match Open root filePath with
  | OpenErr err => ([], Some err)
  | Lines lines readErr =>
      (scanLines s ord filePath 0 lines, errOfRead readErr)
  end.

Definition buildPatterns : list (string * string) :=
  [ ("CMakeLists.txt", "cmake");
    ("Makefile", "make");
    ("build.gradle", "gradle");
    ("pom.xml", "maven");
    ("package.json", "npm");
    ("Cargo.toml", "cargo");
    ("go.mod", "go_modules") ].

Definition mkBuildSystem (system : string) (p : path) : BuildSystem :=
  {| bsFile := Rel p; System := system; NeedsReview := true |}.

(** The entry appended for a match of [filepath.Glob], whose relative path
    is already a string. *)
Definition globBuildSystem (system : string) (relPath : string) : BuildSystem :=
  {| bsFile := relPath; System := system; NeedsReview := true |}.

(** The callback of the walk in [scanBuildSystems]; its state is the slice
    [buildSystems]. *)
Definition buildSystemFn (pattern system : string)
    (p : path) (info : FileInfo) (err : option error)
    (buildSystems : list BuildSystem) : list BuildSystem * walkRet :=
  match err with
  | Some e => (buildSystems, WalkErr e)
  | None =>
      if negb (fiIsDir info) && String.eqb (fiName info) pattern
      then (buildSystems ++ [mkBuildSystem system p], WalkNil)
      else (buildSystems, WalkNil)
  end.

(** One round of [for pattern, system := range buildPatterns]: when
    [filepath.Glob] fails the round ends at once ([continue]); otherwise
    its matches are appended, then those of the walk, whose error is
    dropped. *)
Definition scanBuildPattern (s : Scanner)
    (around : string -> option (list string)) (root : option node)
    (buildSystems : list BuildSystem) (pattern : string)
  : list BuildSystem :=
  match mapGet buildPatterns pattern with
  | None => buildSystems
  | Some system =>
      match Glob (projectPath s) around root pattern with
      | None => buildSystems
      | Some matches =>
          let buildSystems :=
            fold_left (fun bs m => bs ++ [globBuildSystem system m])
                      matches buildSystems in
          fst (Walk (buildSystemFn pattern system) root buildSystems)
      end
  end.

Definition scanBuildSystems (s : Scanner)
    (around : string -> option (list string)) (root : option node)
    (keys : list string) : list BuildSystem * option error :=
  (fold_left (scanBuildPattern s around root) keys [], None).

Definition scanNpmDependencies (root : option node)
  : list Dependency * option error :=
  let packageJsonPath := Join [] "package.json" in
  let err := Stat root packageJsonPath in
  if IsNotExist err then ([], err)
  else
    ([ {| Name := "npm-dependencies";
          Version := "detected";
          Type_ := "npm";
          ARMCompatible := "unknown" |} ], None).

(** The body of the line loop of [scanPythonDependencies]. *)
Definition pythonLine (dependencies : list Dependency) (text : string)
  : list Dependency :=
  let line := Strings.TrimSpace text in
  if String.eqb line EmptyString || Strings.HasPrefix line "#" then dependencies
  else
    let '(name, version) :=
      if Strings.Contains line "==" then
        let parts := Strings.Split line "==" in
        (Strings.TrimSpace (nth 0 parts EmptyString),
         if (1 <? List.length parts)%nat
         then Strings.TrimSpace (nth 1 parts EmptyString)
         else EmptyString)
      else if Strings.Contains line ">=" then
        let parts := Strings.Split line ">=" in
        (Strings.TrimSpace (nth 0 parts EmptyString),
         if (1 <? List.length parts)%nat
         then (">=" ++ Strings.TrimSpace (nth 1 parts EmptyString))%string
         else EmptyString)
      else (line, "*") in
    dependencies ++
      [ {| Name := name;
           Version := version;
           Type_ := "python";
           ARMCompatible := "unknown" |} ].

Definition scanPythonDependencies (root : option node)
  : list Dependency * option error :=
  let requirementsPath := Join [] "requirements.txt" in
  match Open root requirementsPath with
  | OpenErr err => ([], Some err)
  | Lines lines readErr =>
      (fold_left pythonLine lines [], errOfRead readErr)
  end.

Definition scanCargoDependencies (root : option node)
  : list Dependency * option error :=
  let cargoTomlPath := Join [] "Cargo.toml" in
  let err := Stat root cargoTomlPath in
  if IsNotExist err then ([], err)
  else
    ([ {| Name := "cargo-dependencies";
          Version := "detected";
          Type_ := "cargo";
          ARMCompatible := "unknown" |} ], None).

(** The body of the line loop of [scanGoDependencies]; the state is
    [inRequireBlock] and the slice [dependencies]. *)
Definition goLine (st : bool * list Dependency) (text : string)
  : bool * list Dependency :=
  let '(inRequireBlock, dependencies) := st in
  let line := Strings.TrimSpace text in
  if Strings.HasPrefix line "require (" then (true, dependencies)
  else if inRequireBlock && String.eqb line ")" then (false, dependencies)
  else if inRequireBlock && negb (String.eqb line EmptyString)
          && negb (Strings.HasPrefix line "//") then
    let parts := Strings.Fields line in
    if (2 <=? List.length parts)%nat then
      (inRequireBlock,
       dependencies ++
         [ {| Name := nth 0 parts EmptyString;
              Version := nth 1 parts EmptyString;
              Type_ := "go";
              ARMCompatible := "unknown" |} ])
    else (inRequireBlock, dependencies)
  else (inRequireBlock, dependencies).

Definition scanGoDependencies (root : option node)
  : list Dependency * option error :=
  let goModPath := Join [] "go.mod" in
  match Open root goModPath with
  | OpenErr err => ([], Some err)
  | Lines lines readErr =>
      (snd (fold_left goLine lines (false, [])), errOfRead readErr)
  end.

(** [if deps, err := f(); err == nil { dependencies = append(...) }]. *)
Definition appendIfOk (dependencies : list Dependency)
    (r : list Dependency * option error) : list Dependency :=
  match r with
  | (deps, None) => dependencies ++ deps
  | (_, Some _) => dependencies
  end.

Definition scanDependencies (root : option node)
  : list Dependency * option error :=
  let dependencies := [] in
  let dependencies := appendIfOk dependencies (scanNpmDependencies root) in
  let dependencies := appendIfOk dependencies (scanPythonDependencies root) in
  let dependencies := appendIfOk dependencies (scanCargoDependencies root) in
  let dependencies := appendIfOk dependencies (scanGoDependencies root) in
  (dependencies, None).

(** [fmt.Sprintf] of the verb [%d]. *)
Definition itoa (n : Z) : string := NilEmpty.string_of_int (Z.to_int n).

Definition len {A : Type} (l : list A) : Z := Z.of_nat (List.length l).

Definition msgClean : string := "âœ… No obvious x86-specific code detected".
Definition msgFound (n : Z) : string := ("ðŸ” Found " ++ itoa n ++ " potential compatibility issues")%string.
Definition msgHigh (n : Z) : string := ("âš ï¸  " ++ itoa n ++ " high-severity issues require immediate attention")%string.
Definition msgCMake : string := "ðŸ“‹ CMake detected - review CMakeLists.txt for architecture-specific settings".
Definition msgMake : string := "ðŸ“‹ Makefile detected - review for architecture-specific compiler flags".
Definition msgDeps (n : Z) : string := ("ðŸ“¦ " ++ itoa n ++ " dependencies found - verify ARM compatibility")%string.

Definition generateRecommendations (results : ScanResults) : list string :=
  let recommendations := [] in
  let issueCount := len (Issues results) in
  let highSeverityCount :=
    fold_left
      (fun n issue =>
         if String.eqb (Severity issue) "high" then (n + 1)%Z else n)
      (Issues results) 0%Z in
  let recommendations :=
    if (issueCount =? 0)%Z then recommendations ++ [msgClean]
    else
      let recommendations := recommendations ++ [msgFound issueCount] in
      if (0 <? highSeverityCount)%Z
      then recommendations ++ [msgHigh highSeverityCount]
      else recommendations in
  let buildSystemTypes :=
    fold_left (fun m bs => mapSet m (System bs) true)
              (BuildSystems results) [] in
  let recommendations :=
    if mapTest buildSystemTypes "cmake"
    then recommendations ++ [msgCMake] else recommendations in
  let recommendations :=
    if mapTest buildSystemTypes "make"
    then recommendations ++ [msgMake] else recommendations in
  let depCount := len (Dependencies results) in
  if (0 <? depCount)%Z
  then recommendations ++ [msgDeps depCount]
  else recommendations.

Definition isVerbose (s : Scanner) : bool := mapTest (config s) "verbose".

(** The three [fmt.Errorf] wrappers of [Scan]. *)
Inductive scanError : Type :=
| FailedToGetSourceFiles (e : error)
| FailedToScanBuildSystems (e : error)
| FailedToScanDependencies (e : error).

(** What one run takes from its surroundings besides the tree and the
    clock: the orders in which it visits its maps, and what
    [filepath.Glob] answers for a project path with meta characters. *)
Record mapOrders : Type := {
  categoryOrder : lineOrder;
  buildPatternOrder : list string;
  globAround : string -> option (list string)
}.

(** The body of [for _, file := range files]; the state is
    [results.Issues] and [results.ScannedFiles].  The warning printed in
    verbose mode goes to standard error and is not part of the result. *)
Definition scanOne (s : Scanner) (root : option node) (ord : lineOrder)
    (st : list Issue * Z) (file : path) : list Issue * Z :=
  match scanFile s root ord file with
  | (_, Some _) => st
  | (issues, None) => (fst st ++ issues, (snd st + 1)%Z)
  end.

Definition setRecommendations (results : ScanResults)
    (recommendations : list string) : ScanResults :=
  {| TotalFiles := TotalFiles results;
     ScannedFiles := ScannedFiles results;
     Issues := Issues results;
     Dependencies := Dependencies results;
     BuildSystems := BuildSystems results;
     Recommendations := recommendations;
     ScanTime := ScanTime results |}.

(** [Scan]: the report, or the error returned with a nil report. *)
Definition Scan (s : Scanner) (root : option node) (ord : mapOrders)
    (now : Z) : ScanResults + scanError :=
  match getSourceFiles s root with
  | (_, Some err) => inr (FailedToGetSourceFiles err)
  | (files, None) =>
      let '(issues, scanned) :=
        fold_left (scanOne s root (categoryOrder ord)) files ([], 0%Z) in
      match scanBuildSystems s (globAround ord) root (buildPatternOrder ord) with
      | (_, Some err) => inr (FailedToScanBuildSystems err)
      | (buildSystems, None) =>
          match scanDependencies root with
          | (_, Some err) => inr (FailedToScanDependencies err)
          | (dependencies, None) =>
              let results :=
                {| TotalFiles := len files;
                   ScannedFiles := scanned;
                   Issues := issues;
                   Dependencies := dependencies;
                   BuildSystems := buildSystems;
                   Recommendations := [];
                   ScanTime := now |} in
              inl (setRecommendations results
                     (generateRecommendations results))
          end
      end
  end.

End Scanner.

(** ** [cmd/scan.go]: what the renderers compute from a report *)

Module Cmd.

Import Sdk Scanner.

(** [outputTable]: a file path longer than 40 bytes is shown as three dots
    and its last 37 bytes. *)
Definition displayFile (file : string) : string :=
  if (40 <? String.length file)%nat
  then ("..." ++ substring (String.length file - 37) 37 file)%string
  else file.

(** [outputTable]: a matched text longer than 30 bytes is shown as its
    first 27 bytes and three dots. *)
Definition displayMatchedText (matchedText : string) : string :=
  if (30 <? String.length matchedText)%nat
  then (substring 0 27 matchedText ++ "...")%string
  else matchedText.

(** [m[k]] on a [map[string]int]: zero for an absent key. *)
Definition mapCount (m : list (string * Z)) (k : string) : Z :=
  match mapGet m k with
  | Some n => n
  | None => 0%Z
  end.

(** [outputSummary]: the map [categories] after
    [for _, issue := range results.Issues { categories[issue.Category]++ }]. *)
Definition countCategories (issues : list Issue) : list (string * Z) :=
  fold_left
    (fun categories issue =>
       mapSet categories (Category issue)
              (mapCount categories (Category issue) + 1)%Z)
    issues [].

End Cmd.

(** ** Vocabulary of the statements, and sample inputs *)

Module Spec.

Import Sdk Os Filepath Scanner.

(** [scanFile] returned a nil error for the file. *)
Definition scanned (s : Scanner) (root : option node) (ord : lineOrder)
    (file : path) : bool :=
  match snd (scanFile s root ord file) with
  | None => true
  | Some _ => false
  end.

(** The scanner of the command line, and one order for every map loop:
    the order in which the tables are written. *)
Definition scanner0 : Scanner :=
  New "/proj" [("recursive", true); ("verbose", false)].

(** A project directory whose name has a meta character of
    [filepath.Glob], unclosed. *)
Definition scannerBracket : Scanner :=
  New "/proj[" [("recursive", true); ("verbose", false)].

Definition writtenOrder : mapOrders :=
  {| categoryOrder := fun _ _ => mapKeys (patterns scanner0);
     buildPatternOrder := mapKeys buildPatterns;
     globAround := fun _ => Some [] |}.

(** A tree with a file whose read fails after a line that matches, and a
    file that cannot be opened. *)
Definition treeUnreadable : option node :=
  Some (Dir "proj"
          [ Regular "broken.c" (Text ["x = _mm_add_ps(a, b);"] true);
            Regular "closed.h" Unopenable;
            Regular "good.c" (Text ["int main(void) {"; "  asm(x);"; "}"] false) ]).

(** The expression compiles and finds a non-empty match in the line. *)
Definition matchesLine (line pattern : string) : bool :=
  match Regexp.Compile pattern with
  | Some regex => negb (String.eqb (Regexp.FindString regex line) EmptyString)
  | None => false
  end.

(** The issues of a category on a line. *)
Definition issuesAt (c : string) (n : Z) (issues : list Issue) : list Issue :=
  filter (fun i => String.eqb (Category i) c && Z.eqb (Line i) n) issues.

(** Every loop over the categories runs in an order that visits each key
    of the table once. *)
Definition validLineOrder (s : Scanner) (ord : lineOrder) : Prop :=
  forall file n, Permutation (ord file n) (mapKeys (patterns s)).

(** A file that includes an SSE header. *)
Definition treeIncludes : option node :=
  Some (Dir "proj"
          [ Regular "simd.c"
              (Text ["#include <xmmintrin.h>"; "int f(void);"] false) ]).

Definition isHigh (i : Issue) : bool := String.eqb (Severity i) "high".

Definition hasSystem (system : string) (bs : list BuildSystem) : bool :=
  existsb (fun b => String.eqb (System b) system) bs.

(** The build-system types present in a report, each once. *)
Definition distinctSystems (bs : list BuildSystem) : list string :=
  nodup string_dec (map System bs).

(** The number of recommendations when every distinct build-system type
    gets a message of its own. *)
Definition messagesPerSystem (r : ScanResults) : nat :=
  (1 + (if existsb isHigh (Issues r) then 1 else 0)
   + List.length (distinctSystems (BuildSystems r))
   + (match Dependencies r with [] => 0 | _ :: _ => 1 end))%nat.

(** A tree whose only build descriptor is a Maven one, in a subdirectory. *)
Definition treeMaven : option node :=
  Some (Dir "proj"
          [ Dir "service" [ Regular "pom.xml" (Text ["<project/>"] false) ] ]).

Fixpoint allChars (f : ascii -> bool) (s : string) : bool :=
  match s with
  | EmptyString => true
  | String c s' => f c && allChars f s'
  end.

Definition headNotEq (s : string) : bool :=
  match s with
  | String d _ => negb (Ascii.eqb d "="%char)
  | EmptyString => true
  end.

(** No byte of the string is [=]. *)
Definition noEq (s : string) : bool :=
  allChars (fun c => negb (Ascii.eqb c "="%char)) s.

(** A printable ASCII byte other than the space. *)
Definition graphic (c : ascii) : bool := Strings.ascii_in 33 126 c.

(** A word: printable ASCII without space. *)
Definition word (s : string) : bool := allChars graphic s.

(** A name or version: a word without [=]. *)
Definition token (s : string) : bool :=
  allChars (fun c => graphic c && negb (Ascii.eqb c "="%char)) s.

Definition rune1 (a : nat) : string := String (ascii_of_nat a) EmptyString.

Definition rune2 (a b : nat) : string := String (ascii_of_nat a) (rune1 b).

Definition rune3 (a b c : nat) : string := String (ascii_of_nat a) (rune2 b c).

(** The white-space runes of Unicode, each as its bytes in UTF-8: U+0009
    to U+000D and U+0020; U+0085 and U+00A0; U+1680; U+2000 to U+200A,
    U+2028, U+2029 and U+202F; U+205F; U+3000. *)
Definition spaceRunes : list string :=
  Eval cbv in
    map rune1 [9; 10; 11; 12; 13; 32]
    ++ [rune2 194 133; rune2 194 160; rune3 225 154 128]
    ++ map (rune3 226 128)
         [128; 129; 130; 131; 132; 133; 134; 135; 136; 137; 138; 168; 169; 175]
    ++ [rune3 226 129 159; rune3 227 128 128].

(** White space: white-space runes one after the other. *)
Inductive white : string -> Prop :=
| white_nil : white EmptyString
| white_rune (r w : string) :
    In r spaceRunes -> white w -> white (r ++ w).

(** The string starts with a white-space rune. *)
Definition runeLed (s : string) : Prop :=
  exists r z, In r spaceRunes /\ s = (r ++ z)%string.

(** A byte that is no one-byte white space and starts no longer
    white-space rune. *)
Definition startsNoSpace (c : ascii) : bool :=
  negb (Strings.asciiSpace c)
  && negb (existsb (Nat.eqb (nat_of_ascii c)) [194; 225; 226; 227]%nat).

(** The no-break space U+00A0 and the em space U+2003. *)
Definition nbsp : string := Eval cbv in rune2 194 160.

Definition emsp : string := Eval cbv in rune3 226 128 131.

Definition tab : string := Eval cbv in rune1 9.

Definition pythonDep (name version : string) : Dependency :=
  {| Name := name; Version := version;
     Type_ := "python"; ARMCompatible := "unknown" |}.

Definition treeNumpy : option node :=
  Some (Dir "proj" [ Regular "requirements.txt" (Text ["numpy==1.21.0"] false) ]).

(** A manifest with a comment, blank lines and white space of several
    kinds around the declarations. *)
Definition requirementsLines : list string :=
  [ "# pinned for the build";
    "";
    ("  numpy == 1.21.0" ++ tab)%string;
    (nbsp ++ emsp)%string;
    (tab ++ "# optional")%string;
    (nbsp ++ "flask>=2.0")%string;
    ("requests" ++ emsp)%string ].

Definition treeRequirements : option node :=
  Some (Dir "proj" [ Regular "requirements.txt" (Text requirementsLines false) ]).

(** An entry of the root directory without what lies below it. *)
Definition prune (n : node) : node :=
  match n with
  | Dir name _ => Dir name []
  | _ => n
  end.

Definition manifestNames : list string :=
  ["package.json"; "requirements.txt"; "Cargo.toml"; "go.mod"].

(** Manifests of the four ecosystems, all in a subdirectory. *)
Definition treeNestedManifests : list node :=
  [ Dir "vendor"
      [ Regular "Cargo.toml" (Text ["[dependencies]"] false);
        Regular "go.mod" (Text ["require ("; "example.com/m v1.0.0"; ")"] false);
        Regular "package.json" (Text ["{}"] false);
        Regular "requirements.txt" (Text ["numpy==1.21.0"] false) ] ].

(** Induction on a tree, with the property available for every entry of
    a directory. *)
Fixpoint node_nested_ind (P : node -> Prop)
    (HR : forall name data, P (Regular name data))
    (HD : forall name es, Forall P es -> P (Dir name es))
    (HL : forall name, P (Locked name))
    (n : node) : P n :=
  match n with
  | Regular name data => HR name data
  | Dir name es =>
      HD name es
         ((fix all (es : list node) : Forall P es :=
             match es with
             | [] => Forall_nil P
             | e :: es' =>
                 Forall_cons e (node_nested_ind P HR HD HL e) (all es')
             end) es)
  | Locked name => HL name
  end.

(** Walking the node with the callback appends to the slice it is given. *)
Definition appends {X : Type}
    (fn : path -> FileInfo -> option error -> list X -> list X * walkRet)
    (n : node) : Prop :=
  forall p acc,
    walk fn p n acc = (acc ++ fst (walk fn p n []), snd (walk fn p n [])).

(** What one round of the loop of [scanBuildSystems] appends. *)
Definition descriptorsFor (s : Scanner)
    (around : string -> option (list string)) (root : option node)
    (pattern : string) : list BuildSystem :=
  scanBuildPattern s around root [] pattern.

(** The tree of the specification's example: a CMake descriptor at the
    root and one in a subdirectory. *)
Definition treeCMake : option node :=
  Some (Dir "proj"
          [ Regular "CMakeLists.txt" (Text ["project(demo)"] false);
            Dir "sub" [ Regular "CMakeLists.txt" (Text [] false) ] ]).

(** A tree whose only source file lies in a subdirectory. *)
Definition treeNested : option node :=
  Some (Dir "proj"
          [ Dir "sub"
              [ Regular "deep.c" (Text ["x = _mm_add_ps(a, b);"] false) ] ]).

(** The scanner [runScan] builds from the flags of the command line. *)
Definition scannerWith (recursive verbose : bool) : Scanner :=
  New "/proj" [("recursive", recursive); ("verbose", verbose)].

(** The files [filepath.Walk] reaches from a node at path [p] when
    nothing stops it: the regular files with a supported extension, in
    the order of the entries, nothing below a directory with a skipped
    name. *)
Fixpoint sourceFilesOf (s : Scanner) (p : path) (n : node) : list path :=
  match n with
  | Regular name _ =>
      if mapTest (extensions s) (Strings.ToLower (Ext name)) then [p] else []
  | Dir name es =>
      if skippedDir name then []
      else flat_map (fun e => sourceFilesOf s (Join p (nodeName e)) e) es
  | Locked _ => []
  end.

(** No unreadable directory outside the directories with a skipped name. *)
Fixpoint walkable (n : node) : bool :=
  match n with
  | Regular _ _ => true
  | Dir name es => skippedDir name || forallb walkable es
  | Locked _ => false
  end.

(** What the callback of [getSourceFiles] returns on a readable node. *)
Definition walkResult (n : node) : walkRet :=
  if nodeIsDir n && skippedDir (nodeName n) then WalkSkipDir else WalkNil.

(** An enumerated path: not the root, a supported extension on its last
    component, no skipped name among the directories above it. *)
Definition sourcePath (s : Scanner) (p : path) : Prop :=
  p <> []
  /\ mapTest (extensions s) (Strings.ToLower (Ext (last p EmptyString))) = true
  /\ Forall (fun x => skippedDir x = false) (removelast p).

(** The regular files of a given name, at any depth, in walk order. *)
Fixpoint filesNamed (pattern : string) (p : path) (n : node) : list path :=
  match n with
  | Regular name _ => if String.eqb name pattern then [p] else []
  | Dir _ es => flat_map (fun e => filesNamed pattern (Join p (nodeName e)) e) es
  | Locked _ => []
  end.

(** No unreadable directory anywhere. *)
Fixpoint readable (n : node) : bool :=
  match n with
  | Regular _ _ => true
  | Dir _ es => forallb readable es
  | Locked _ => false
  end.

(** The repetition of [matchHere], and one step of it, as functions of
    what matches the rest of the expression. *)
Definition starFrom (k : Regexp.cclass) (rest : string -> option string)
  : string -> option string :=
  fix star (s : string) : option string :=
    match s with
    | String a s' =>
        if Regexp.accepts k a then
          match star s' with
          | Some m => Some (String a m)
          | None => rest s
          end
        else rest s
    | EmptyString => rest EmptyString
    end.

Definition matchStep (k : Regexp.cclass) (q : Regexp.quant)
    (rest : string -> option string) : string -> option string :=
  match q with
  | Regexp.Star => starFrom k rest
  | Regexp.One => fun s =>
      match s with
      | String a s' =>
          if Regexp.accepts k a then option_map (String a) (rest s') else None
      | EmptyString => None
      end
  | Regexp.Plus => fun s =>
      match s with
      | String a s' =>
          if Regexp.accepts k a
          then option_map (String a) (starFrom k rest s') else None
      | EmptyString => None
      end
  end.

(** A matcher that returns only prefixes of the text it is given. *)
Definition prefixOnly (f : string -> option string) : Prop :=
  forall s m, f s = Some m -> String.prefix m s = true.

(** The expression that matches a text literally. *)
Fixpoint literal (s : string) : Regexp.Regexp :=
  match s with
  | EmptyString => []
  | String c s' => (Regexp.CChar c, Regexp.One) :: literal s'
  end.

Definition goDep (name version : string) : Dependency :=
  {| Name := name; Version := version;
     Type_ := "go"; ARMCompatible := "unknown" |}.

(** The dependency that stands for a manifest whose content is not
    examined. *)
Definition sentinel (ecosystem : string) : Dependency :=
  {| Name := ecosystem ++ "-dependencies"; Version := "detected";
     Type_ := ecosystem; ARMCompatible := "unknown" |}.

(** [os.Stat] of the file of that name at the root gives no error, or an
    error other than that the file does not exist. *)
Definition present (root : option node) (name : string) : bool :=
  negb (IsNotExist (Stat root (Join [] name))).

(** The lines of the file of that name at the root, when it opens and is
    read to its end without error; no line otherwise. *)
Definition linesOf (root : option node) (name : string) : list string :=
  match Open root (Join [] name) with
  | Lines lines false => lines
  | _ => []
  end.

(** The line opens a require block: white space, then [require (], then
    anything. *)
Definition opensBlock (text : string) : Prop :=
  exists w rest, white w /\ text = (w ++ "require (" ++ rest)%string.

(** The string is empty or starts with a byte outside the printable
    range. *)
Definition boundary (s : string) : bool :=
  match s with
  | EmptyString => true
  | String c _ => negb (graphic c)
  end.

(** What [scanDependencies] keeps of the result of one ecosystem. *)
Definition kept (r : list Dependency * option error) : list Dependency :=
  match snd r with
  | None => fst r
  | Some _ => []
  end.

(** A dependency of an ecosystem, with the compatibility left open. *)
Definition ofEcosystem (t : string) (d : Dependency) : Prop :=
  Type_ d = t /\ ARMCompatible d = "unknown".

(** Both parsed manifests break off after a line that declares something. *)
Definition treeBrokenManifests : option node :=
  Some (Dir "proj"
          [ Regular "go.mod"
              (Text ["require ("; "example.com/m v1.0.0"] true);
            Regular "requirements.txt" (Text ["numpy==1.21.0"] true) ]).

(** A [go.mod] with single-line requirements only. *)
Definition treeGoSingleLine : option node :=
  Some (Dir "proj"
          [ Regular "go.mod"
              (Text ["module example.com/app"; "";
                     "require example.com/m v1.0.0"] false) ]).

(** A directory with a skipped name that holds a source file, a source
    file with an upper-case extension, and a file that is no source. *)
Definition treePruned : node :=
  Dir "proj"
    [ Regular "MAIN.CPP" (Text ["int main() {}"] false);
      Dir "node_modules" [ Locked "cache"; Regular "dep.js" (Text [] false) ];
      Regular "notes.txt" (Text ["asm(x)"] false);
      Dir "src" [ Regular "util.h" (Text [] false) ] ].

(** An unreadable directory next to a source file. *)
Definition treeLocked : node :=
  Dir "proj" [ Locked ".git"; Regular "a.c" (Text [] false) ].

(** Build descriptors at the root and inside a directory that the file
    enumeration skips. *)
Definition treeVendored : node :=
  Dir "proj"
    [ Regular "Makefile" (Text [] false);
      Dir "node_modules" [ Dir "lib" [ Regular "Makefile" (Text [] false) ] ] ].

(** An issue as [scanFile] builds it for a file: the relative path of the
    file, a non-empty matched text, an expression of the table under the
    issue's category, severity and suggestion looked up from the category. *)
Definition issueOfTable (s : Scanner) (file : path) (i : Issue) : Prop :=
  File i = Rel file
  /\ MatchedText i <> EmptyString
  /\ Severity i = getSeverity (Category i)
  /\ Suggestion i = getSuggestion (Category i) (MatchedText i)
  /\ exists pats,
       mapGet (patterns s) (Category i) = Some pats /\ In (Pattern i) pats.

(** An issue reported on the line it numbers: the expression matches that
    line and the matched text occurs in it. *)
Definition issueOfLine (lines : list string) (start : Z) (i : Issue) : Prop :=
  exists line,
    (start < Line i)%Z
    /\ nth_error lines (Z.to_nat (Line i - start - 1)) = Some line
    /\ matchesLine line (Pattern i) = true
    /\ Strings.Contains line (MatchedText i) = true.

(** The number of issues of a category. *)
Definition issuesOfCategory (c : string) (issues : list Issue) : Z :=
  len (filter (fun i => String.eqb (Category i) c) issues).

(** The issue [scanPattern] builds when an expression matches. *)
Definition issueFor (file : path) (n : Z) (category pattern match_ : string)
  : Issue :=
  {| File := Rel file;
     Line := n;
     Category := category;
     Pattern := pattern;
     MatchedText := match_;
     Severity := getSeverity category;
     Suggestion := getSuggestion category match_ |}.

(** A project kept in a directory called [build]. *)
Definition treeBuildRoot : node :=
  Dir "build" [ Regular "main.c" (Text ["asm(x);"] false) ].

(** A single source file given as the path to scan. *)
Definition treeSingleFile : node :=
  Regular "main.c" (Text ["int x;"; "asm(x);"] false).

(** The orders of a run visit each key of their table once. *)
Definition validOrders (s : Scanner) (o : mapOrders) : Prop :=
  validLineOrder s (categoryOrder o)
  /\ Permutation (buildPatternOrder o) (mapKeys buildPatterns).

(** Where an issue was found. *)
Definition issuePlace (i : Issue) : string * Z := (File i, Line i).

(** The file opens and is read to its end without error. *)
Definition readsCleanly (root : option node) (file : path) : bool :=
  match Open root file with
  | Lines _ false => true
  | _ => false
  end.

(** The lines of a file with their numbers, counted from [start + 1]. *)
Fixpoint numbered (start : Z) (lines : list string) : list (Z * string) :=
  match lines with
  | [] => []
  | line :: rest => ((start + 1)%Z, line) :: numbered (start + 1) rest
  end.

(** The issues of a tree in the order of the report: the enumerated files
    in enumeration order, those that read cleanly; in a file the lines in
    increasing order; on a line the categories in the order [ord] gives
    for that line; in a category the expressions in the order of the
    table. *)
Definition issuesInOrder (s : Scanner) (root : option node) (ord : lineOrder)
  : list Issue :=
  flat_map
    (fun file =>
       match Open root file with
       | Lines lines false =>
           flat_map
             (fun nl =>
                flat_map
                  (fun category =>
                     match mapGet (patterns s) category with
                     | Some pats =>
                         scanCategory file (fst nl) (snd nl) category pats
                     | None => []
                     end)
                  (ord file (fst nl)))
             (numbered 0 lines)
       | _ => []
       end)
    (fst (getSourceFiles s root)).

(** The build systems of a tree in the order of the report: the file
    names in the order [keys], for each name what its round appends. *)
Definition buildSystemsInOrder (s : Scanner)
    (around : string -> option (list string)) (root : option node)
    (keys : list string) : list BuildSystem :=
  flat_map (descriptorsFor s around root) keys.

(** Two runs see the same file system around the project path. *)
Definition sameSurroundings (o1 o2 : mapOrders) : Prop :=
  forall name, globAround o1 name = globAround o2 name.

(** Two reports that differ at most in the order of the categories on one
    line, in the order of the file names of the build systems, and in the
    time: same counts, dependencies and recommendations; the same places
    in the same order; for each category the same issues in the same
    order; for each system the same build systems in the same order. *)
Definition sameUpToMapOrder (r1 r2 : ScanResults) : Prop :=
  TotalFiles r1 = TotalFiles r2
  /\ ScannedFiles r1 = ScannedFiles r2
  /\ Permutation (Issues r1) (Issues r2)
  /\ map issuePlace (Issues r1) = map issuePlace (Issues r2)
  /\ (forall c,
        filter (fun i => String.eqb (Category i) c) (Issues r1)
        = filter (fun i => String.eqb (Category i) c) (Issues r2))
  /\ Dependencies r1 = Dependencies r2
  /\ Permutation (BuildSystems r1) (BuildSystems r2)
  /\ (forall system,
        filter (fun b => String.eqb (System b) system) (BuildSystems r1)
        = filter (fun b => String.eqb (System b) system) (BuildSystems r2))
  /\ Recommendations r1 = Recommendations r2.

(** A line on which two categories match. *)
Definition treeTwoCategories : option node :=
  Some (Dir "proj"
          [ Regular "mix.c" (Text ["asm(x); _mm_pause();"] false) ]).

(** The written order of the categories, started one key later. *)
Definition rotatedOrder : mapOrders :=
  {| categoryOrder := fun _ _ =>
       ["x86_intrinsics"; "architecture_checks"; "platform_specific";
        "inline_assembly"];
     buildPatternOrder := mapKeys buildPatterns;
     globAround := fun _ => Some [] |}.

End Spec.

Import Sdk Os Filepath Scanner Spec.

(** ** The category loop of [scanFile] *)

Section ListFacts.

Context {A B : Type}.

Lemma filter_flat_map (f : B -> bool) (g : A -> list B) (l : list A) :
  filter f (flat_map g l) = flat_map (fun x => filter f (g x)) l.
Proof.
  induction l as [|x l IH]; simpl; [reflexivity|].
  rewrite filter_app, IH. reflexivity.
Qed.

Lemma filter_none (f : B -> bool) (l : list B) :
  Forall (fun x => f x = false) l -> filter f l = [].
Proof.
  induction 1 as [|x l Hx _ IH]; simpl; [reflexivity|].
  rewrite Hx. exact IH.
Qed.

Lemma filter_all (f : B -> bool) (l : list B) :
  Forall (fun x => f x = true) l -> filter f l = l.
Proof.
  induction 1 as [|x l Hx _ IH]; simpl; [reflexivity|].
  rewrite Hx, IH. reflexivity.
Qed.

Lemma flat_map_nil (g : A -> list B) (l : list A) :
  (forall x, In x l -> g x = []) -> flat_map g l = [].
Proof.
  induction l as [|x l IH]; simpl; intros H; [reflexivity|].
  rewrite (H x (or_introl eq_refl)), IH; auto.
Qed.

(** A loop in which a single key produces something. *)
Lemma flat_map_single (g : A -> list B) (c : A) (l : list A) :
  NoDup l -> In c l -> (forall k, In k l -> k <> c -> g k = []) ->
  flat_map g l = g c.
Proof.
  induction 1 as [|x l Hx Hnd IH]; simpl; intros Hin Hg; [contradiction|].
  destruct Hin as [->|Hin].
  - rewrite flat_map_nil, app_nil_r; [reflexivity|].
    intros k Hk. apply Hg; [auto|]. intros ->. contradiction.
  - rewrite (Hg x (or_introl eq_refl)); [|intros ->; contradiction].
    simpl. apply IH; auto.
Qed.

End ListFacts.

Section CategoryLoop.

Lemma scanCategory_fields file n line c pats :
  Forall (fun i => Category i = c /\ Line i = n /\ File i = Rel file)
         (scanCategory file n line c pats).
Proof.
  unfold scanCategory.
  induction pats as [|pat pats IH]; simpl; [constructor|].
  apply Forall_app. split; [|exact IH].
  unfold scanPattern. destruct (Regexp.Compile pat); [|constructor].
  destruct (String.eqb _ _); repeat constructor.
Qed.

Lemma scanCategory_patterns file n line c pats :
  map Pattern (scanCategory file n line c pats)
  = filter (matchesLine line) pats.
Proof.
  unfold scanCategory.
  induction pats as [|pat pats IH]; simpl; [reflexivity|].
  rewrite map_app, IH. unfold scanPattern, matchesLine.
  destruct (Regexp.Compile pat); [|reflexivity].
  destruct (String.eqb _ _); reflexivity.
Qed.

Lemma mapGet_In {V : Type} (m : list (string * V)) k v :
  mapGet m k = Some v -> In k (mapKeys m).
Proof.
  induction m as [|[k' v'] m IH]; simpl; [discriminate|].
  destruct (String.eqb k' k) eqn:E.
  - apply String.eqb_eq in E. auto.
  - auto.
Qed.

Lemma scanLine_fields s keys file n line :
  Forall (fun i => Line i = n /\ File i = Rel file)
         (scanLine s keys file n line).
Proof.
  unfold scanLine.
  induction keys as [|k keys IH]; simpl; [constructor|].
  apply Forall_app. split; [|exact IH].
  destruct (mapGet (patterns s) k); [|constructor].
  eapply Forall_impl; [|apply scanCategory_fields]. simpl. tauto.
Qed.

(** On one line, the issues of a category are those of its own loop. *)
Lemma issuesAt_scanLine s keys file n line c pats :
  NoDup keys -> In c keys -> mapGet (patterns s) c = Some pats ->
  issuesAt c n (scanLine s keys file n line)
  = scanCategory file n line c pats.
Proof.
  intros Hnd Hin Hget. unfold issuesAt, scanLine.
  rewrite filter_flat_map.
  rewrite (flat_map_single _ c keys Hnd Hin).
  - rewrite Hget. apply filter_all.
    eapply Forall_impl; [|apply scanCategory_fields].
    simpl. intros i (-> & -> & _).
    rewrite String.eqb_refl, Z.eqb_refl. reflexivity.
  - intros k _ Hk. destruct (mapGet (patterns s) k); [|reflexivity].
    apply filter_none.
    eapply Forall_impl; [|apply scanCategory_fields].
    simpl. intros i (-> & _ & _).
    apply String.eqb_neq in Hk. rewrite Hk. reflexivity.
Qed.

Lemma issuesAt_other_line c n l (issues : list Issue) :
  Forall (fun i => Line i = l) issues -> l <> n -> issuesAt c n issues = [].
Proof.
  intros H Hl. apply filter_none.
  eapply Forall_impl; [|exact H]. simpl. intros i ->.
  apply Z.eqb_neq in Hl. rewrite Hl. apply andb_false_r.
Qed.

Lemma scanLines_after s ord file start lines :
  Forall (fun i => (start < Line i)%Z) (scanLines s ord file start lines).
Proof.
  revert start. induction lines as [|l lines IH]; intros start; simpl;
    [constructor|].
  apply Forall_app. split.
  - eapply Forall_impl; [|apply scanLine_fields]. simpl. intros i [-> _]. lia.
  - eapply Forall_impl; [|apply IH]. simpl. intros i. lia.
Qed.

Lemma issuesAt_other_line_gt l c n (issues : list Issue) :
  Forall (fun i => (l < Line i)%Z) issues -> (n <= l)%Z ->
  issuesAt c n issues = [].
Proof.
  intros H Hl. apply filter_none.
  eapply Forall_impl; [|exact H]. simpl. intros i Hi.
  replace (Line i =? n)%Z with false; [apply andb_false_r|].
  symmetry. apply Z.eqb_neq. lia.
Qed.

Lemma issuesAt_scanLines s ord file c pats n line lines :
  NoDup (mapKeys (patterns s)) -> validLineOrder s ord ->
  mapGet (patterns s) c = Some pats ->
  forall start,
    (start < n)%Z ->
    nth_error lines (Z.to_nat (n - start - 1)) = Some line ->
    issuesAt c n (scanLines s ord file start lines)
    = scanCategory file n line c pats.
Proof.
  intros Hnd Hord Hget.
  induction lines as [|l lines IH]; intros start Hlt Hnth.
  - destruct (Z.to_nat (n - start - 1)); discriminate.
  - simpl. unfold issuesAt at 1. rewrite filter_app.
    fold (issuesAt c n (scanLine s (ord file (start + 1)%Z) file (start + 1) l)).
    fold (issuesAt c n (scanLines s ord file (start + 1) lines)).
    destruct (Z.eq_dec n (start + 1)) as [->|Hne].
    + replace (start + 1 - start - 1)%Z with 0%Z in Hnth by lia.
      simpl in Hnth. injection Hnth as ->.
      rewrite (issuesAt_scanLine _ _ _ _ _ _ pats).
      * rewrite (issuesAt_other_line_gt (start + 1)%Z);
          [apply app_nil_r | apply scanLines_after | lia].
      * eapply Permutation_NoDup; [apply Permutation_sym, Hord|exact Hnd].
      * eapply Permutation_in; [apply Permutation_sym, Hord|].
        eapply mapGet_In; eassumption.
      * exact Hget.
    + rewrite (issuesAt_other_line c n (start + 1)); [|
        eapply Forall_impl; [|apply scanLine_fields]; simpl; tauto | auto].
      simpl. apply IH; [lia|].
      replace (Z.to_nat (n - start - 1)) with (S (Z.to_nat (n - (start + 1) - 1)))
        in Hnth by lia.
      exact Hnth.
Qed.

End CategoryLoop.
(** ** The file loop of [Scan] *)

Section FileLoop.

Variables (s : Scanner) (root : option node) (ord : lineOrder).

Lemma scanOne_scanned (st : list Issue * Z) (file : path) :
  scanned s root ord file = true ->
  scanOne s root ord st file
  = (fst st ++ fst (scanFile s root ord file), (snd st + 1)%Z).
Proof.
  unfold scanned, scanOne.
  destruct (scanFile s root ord file) as [issues [e|]]; simpl; congruence.
Qed.

Lemma scanOne_skipped (st : list Issue * Z) (file : path) :
  scanned s root ord file = false -> scanOne s root ord st file = st.
Proof.
  unfold scanned, scanOne.
  destruct (scanFile s root ord file) as [issues [e|]]; simpl; congruence.
Qed.

Lemma fold_scanOne (files : list path) :
  forall st,
    fold_left (scanOne s root ord) files st
    = (fst st
         ++ flat_map (fun f => fst (scanFile s root ord f))
              (filter (scanned s root ord) files),
       (snd st + len (filter (scanned s root ord) files))%Z).
Proof.
  induction files as [|f files IH]; intros [issues n]; simpl.
  - rewrite app_nil_r. unfold len. simpl. f_equal. lia.
  - destruct (scanned s root ord f) eqn:E.
    + rewrite (scanOne_scanned _ _ E), IH. simpl.
      rewrite <- app_assoc. f_equal. unfold len. simpl List.length. lia.
    + rewrite (scanOne_skipped _ _ E), IH. reflexivity.
Qed.

End FileLoop.

Section ScanShape.

(** [Scan] fails exactly when the enumeration of the files fails. *)
Lemma Scan_inr s root ord now e :
  Scan s root ord now = inr e ->
  exists err, snd (getSourceFiles s root) = Some err
              /\ e = FailedToGetSourceFiles err.
Proof.
  unfold Scan.
  destruct (getSourceFiles s root) as [files [err|]].
  - intros H. inversion H. exists err. split; reflexivity.
  - destruct (fold_left _ files _) as [issues n]. simpl. discriminate.
Qed.

Lemma Scan_inl s root ord now r :
  Scan s root ord now = inl r ->
  let files := fst (getSourceFiles s root) in
  let ok := filter (scanned s root (categoryOrder ord)) files in
  snd (getSourceFiles s root) = None
  /\ TotalFiles r = len files
  /\ ScannedFiles r = len ok
  /\ Issues r = flat_map (fun f => fst (scanFile s root (categoryOrder ord) f)) ok
  /\ BuildSystems r
     = fst (scanBuildSystems s (globAround ord) root (buildPatternOrder ord))
  /\ Dependencies r = fst (scanDependencies root)
  /\ ScanTime r = now
  /\ Recommendations r = generateRecommendations r.
Proof.
  unfold Scan.
  destruct (getSourceFiles s root) as [files [err|]]; [discriminate|].
  rewrite fold_scanOne. simpl.
  intros H. inversion H. subst r. simpl. repeat split; try reflexivity.
Qed.

End ScanShape.

(** A file is counted as scanned exactly when it opens and is read to its
    end without error. *)
Lemma scanned_readsCleanly s root ord file :
  scanned s root ord file = readsCleanly root file.
Proof.
  unfold scanned, readsCleanly, scanFile.
  destruct (Open root file) as [e|lines [|]]; reflexivity.
Qed.

Lemma filter_length_lt {A : Type} (f : A -> bool) (x : A) (l : list A) :
  In x l -> f x = false -> (List.length (filter f l) < List.length l)%nat.
Proof.
  induction l as [|y l IH]; simpl; [tauto|].
  intros [->|Hin] Hx.
  - rewrite Hx. pose proof (filter_length_le f l). lia.
  - specialize (IH Hin Hx). destruct (f y); simpl; lia.
Qed.

(** C7.  A scan returns a report whenever the enumeration of the files
    succeeds, whatever happens when the files are opened and read.  In the
    report [TotalFiles] counts every enumerated file and [ScannedFiles]
    counts the enumerated files that the file system lets the scanner open
    and read to the end: a file whose open fails, or whose read fails after
    any number of lines, is not counted.  So [0 <= ScannedFiles <=
    TotalFiles], and the inequality is strict as soon as one enumerated file
    cannot be opened or read. *)
Theorem Scan_counts_files (s : Scanner) (root : option node)
    (ord : mapOrders) (now : Z) :
  match Scan s root ord now with
  | inl r =>
      let files := fst (getSourceFiles s root) in
      snd (getSourceFiles s root) = None
      /\ TotalFiles r = len files
      /\ ScannedFiles r = len (filter (readsCleanly root) files)
      /\ (0 <= ScannedFiles r <= TotalFiles r)%Z
      /\ (forall f e, In f files -> Open root f = OpenErr e ->
            (ScannedFiles r < TotalFiles r)%Z)
      /\ (forall f lines, In f files -> Open root f = Lines lines true ->
            (ScannedFiles r < TotalFiles r)%Z)
      /\ ((forall f, In f files -> exists lines, Open root f = Lines lines false) ->
            ScannedFiles r = TotalFiles r)
  | inr e =>
      exists err, snd (getSourceFiles s root) = Some err
                  /\ e = FailedToGetSourceFiles err
  end.
Proof.
  destruct (Scan s root ord now) as [r|e] eqn:E.
  - destruct (Scan_inl _ _ _ _ _ E) as (Hnone & Htot & Hsc & _).
    cbv zeta in *.
    rewrite (filter_ext _ _ (scanned_readsCleanly s root (categoryOrder ord)))
      in Hsc.
    rewrite Htot, Hsc. unfold len.
    split; [assumption|]. split; [reflexivity|]. split; [reflexivity|].
    split; [|split; [|split]].
    + split; [lia|]. apply inj_le, filter_length_le.
    + intros f e Hin Hopen. apply inj_lt.
      apply (filter_length_lt _ f); [assumption|].
      unfold readsCleanly. rewrite Hopen. reflexivity.
    + intros f lines Hin Hopen. apply inj_lt.
      apply (filter_length_lt _ f); [assumption|].
      unfold readsCleanly. rewrite Hopen. reflexivity.
    + intros Hall. f_equal. f_equal.
      apply forallb_filter_id. apply forallb_forall. intros f Hin.
      destruct (Hall f Hin) as [lines Hopen].
      unfold readsCleanly. rewrite Hopen. reflexivity.
  - exact (Scan_inr _ _ _ _ _ E).
Qed.

(** Of three enumerated files, one whose read fails after its first line
    and one that cannot be opened, one is counted as scanned. *)
Lemma Scan_counts_files_witness :
  exists r, Scan scanner0 treeUnreadable writtenOrder 0 = inl r
            /\ fst (getSourceFiles scanner0 treeUnreadable)
               = [["broken.c"]; ["closed.h"]; ["good.c"]]
            /\ Open treeUnreadable ["broken.c"]
               = Lines ["x = _mm_add_ps(a, b);"] true
            /\ Open treeUnreadable ["closed.h"] = OpenErr ErrPermission
            /\ TotalFiles r = 3%Z
            /\ ScannedFiles r = 1%Z
            /\ (ScannedFiles r < TotalFiles r)%Z.
Proof.
  pose proof (Scan_counts_files scanner0 treeUnreadable writtenOrder 0) as H.
  destruct (Scan scanner0 treeUnreadable writtenOrder 0) as [r|e] eqn:E;
    [|vm_compute in E; discriminate E].
  exists r. cbv zeta in H.
  destruct H as (_ & Htot & Hsc & _ & Herr & _).
  split; [reflexivity|]. split; [reflexivity|].
  split; [reflexivity|]. split; [reflexivity|].
  split; [|split].
  - rewrite Htot. reflexivity.
  - rewrite Hsc. reflexivity.
  - apply (Herr ["closed.h"] ErrPermission); [|reflexivity].
    vm_compute. right. left. reflexivity.
Defined.

(** C8.  When the root path does not exist the scan returns the error of
    the file enumeration, wrapping the not-exist error, and no report. *)
Theorem Scan_missing_root (s : Scanner) (ord : mapOrders) (now : Z) :
  getSourceFiles s None = ([], Some ErrNotExist)
  /\ Scan s None ord now = inr (FailedToGetSourceFiles ErrNotExist)
  /\ forall r, Scan s None ord now <> inl r.
Proof.
  split; [reflexivity|].
  split; [reflexivity|].
  intros r H. discriminate H.
Qed.

(** C9.  The issues of a report are those of the files whose scan returned
    no error, in enumeration order: a file whose open or read failed
    contributes nothing, whatever was collected before the failure, and is
    not counted in [ScannedFiles]. *)
Theorem Scan_drops_failed_files (s : Scanner) (root : option node)
    (ord : mapOrders) (now : Z) (r : ScanResults) :
  Scan s root ord now = inl r ->
  let ok := filter (scanned s root (categoryOrder ord))
                   (fst (getSourceFiles s root)) in
  Issues r = flat_map (fun f => fst (scanFile s root (categoryOrder ord) f)) ok
  /\ ScannedFiles r = len ok
  /\ forall f e, snd (scanFile s root (categoryOrder ord) f) = Some e ->
                 ~ In f ok.
Proof.
  intros E. destruct (Scan_inl _ _ _ _ _ E) as (_ & _ & Hsc & His & _).
  cbv zeta. repeat split; try assumption.
  intros f e Hf Hin. apply filter_In in Hin. destruct Hin as [_ Hin].
  unfold scanned in Hin. rewrite Hf in Hin. discriminate.
Qed.

Lemma Scan_drops_failed_files_witness :
  exists r, Scan scanner0 treeUnreadable writtenOrder 0 = inl r
            /\ fst (scanFile scanner0 treeUnreadable (categoryOrder writtenOrder) ["broken.c"]) <> []
            /\ map File (Issues r) = ["good.c"]
            /\ ScannedFiles r = 1%Z.
Proof.
  eexists. split; [reflexivity|].
  pose proof (Scan_drops_failed_files scanner0 treeUnreadable writtenOrder 0 _ eq_refl)
    as (His & Hsc & _).
  split; [discriminate|]. split.
  - rewrite His. reflexivity.
  - rewrite Hsc. reflexivity.
Defined.


(** C1, as stated, fails: on the line [#include <xmmintrin.h>] the first and
    the second expression of the category [x86_intrinsics] both match, and
    the category reports two issues on that line. *)
Lemma first_match_wins_fails :
  ~ (forall c n,
        (List.length
           (issuesAt c n
              (fst (scanFile scanner0 treeIncludes
                      (categoryOrder writtenOrder) ["simd.c"]))) <= 1)%nat).
Proof.
  intros H. specialize (H "x86_intrinsics" 1%Z).
  vm_compute in H. lia.
Qed.

(** C1, amended.  For every file that opens, every line of it and every
    category of the table, the issues of that category on that line are
    those of the category's own loop: one issue for each expression of the
    category that finds a match in the line, in the order of the
    expressions, every expression being tried; categories do not interfere
    with each other. *)
Theorem scanFile_reports_every_match
    (s : Scanner) (root : option node) (ord : lineOrder) (file : path)
    (lines : list string) (readErr : bool)
    (c : string) (pats : list string) (n : Z) (line : string) :
  NoDup (mapKeys (patterns s)) ->
  validLineOrder s ord ->
  Open root file = Lines lines readErr ->
  mapGet (patterns s) c = Some pats ->
  (1 <= n)%Z ->
  nth_error lines (Z.to_nat (n - 1)) = Some line ->
  let found := issuesAt c n (fst (scanFile s root ord file)) in
  found = scanCategory file n line c pats
  /\ map Pattern found = filter (matchesLine line) pats
  /\ List.length found = List.length (filter (matchesLine line) pats).
Proof.
  intros Hnd Hord Hopen Hget Hn Hnth. cbv zeta.
  unfold scanFile. rewrite Hopen. simpl fst.
  rewrite (issuesAt_scanLines s ord file c pats n line lines Hnd Hord Hget 0%Z);
    [|lia|replace (n - 0 - 1)%Z with (n - 1)%Z by lia; exact Hnth].
  split; [reflexivity|].
  split; [apply scanCategory_patterns|].
  rewrite <- (scanCategory_patterns file n line c pats). symmetry. apply length_map.
Qed.

Lemma New_patterns_NoDup projectPath config :
  NoDup (mapKeys (patterns (New projectPath config))).
Proof.
  simpl. repeat constructor; simpl; intuition discriminate.
Qed.

Lemma writtenOrder_valid : validLineOrder scanner0 (categoryOrder writtenOrder).
Proof. intros file n. apply Permutation_refl. Qed.

Lemma scanFile_reports_every_match_witness :
  let found :=
    issuesAt "x86_intrinsics" 1
      (fst (scanFile scanner0 treeIncludes (categoryOrder writtenOrder) ["simd.c"])) in
  map Pattern found
  = ["#include\s*<.*mmintrin\.h.*>"; "#include\s*<.*xmmintrin\.h.*>"].
Proof.
  pose proof
    (scanFile_reports_every_match scanner0 treeIncludes
       (categoryOrder writtenOrder) ["simd.c"]
       ["#include <xmmintrin.h>"; "int f(void);"] false
       "x86_intrinsics"
       [ "#include\s*<.*mmintrin\.h.*>";
         "#include\s*<.*xmmintrin\.h.*>";
         "#include\s*<.*emmintrin\.h.*>";
         "#include\s*<.*pmmintrin\.h.*>";
         "#include\s*<.*immintrin\.h.*>";
         "_mm_\w+";
         "_mm\d+_\w+" ]
       1%Z "#include <xmmintrin.h>"
       (New_patterns_NoDup _ _) writtenOrder_valid
       eq_refl eq_refl (Z.le_refl 1) eq_refl) as (_ & H & _).
  cbv zeta. rewrite H. reflexivity.
Defined.

(** ** [generateRecommendations] *)

Section Recommendations.

Lemma mapGet_mapSet {V : Type} (m : list (string * V)) k' k (v : V) :
  mapGet (mapSet m k' v) k = if String.eqb k' k then Some v else mapGet m k.
Proof.
  induction m as [|[k0 v0] m IH]; simpl; [reflexivity|].
  destruct (String.eqb k0 k') eqn:E0; simpl.
  - apply String.eqb_eq in E0. subst k0.
    destruct (String.eqb k' k); reflexivity.
  - destruct (String.eqb k0 k) eqn:E1.
    + apply String.eqb_eq in E1. subst k0.
      rewrite String.eqb_sym, E0. reflexivity.
    + exact IH.
Qed.

Lemma buildSystemTypes_test (bs : list BuildSystem) (k : string) :
  forall m,
    mapTest (fold_left (fun m b => mapSet m (System b) true) bs m) k
    = mapTest m k || hasSystem k bs.
Proof.
  induction bs as [|b bs IH]; intros m; simpl.
  - rewrite orb_false_r. reflexivity.
  - rewrite IH. unfold mapTest at 1. rewrite mapGet_mapSet.
    fold (mapTest m k).
    destruct (String.eqb (System b) k); simpl.
    + rewrite orb_true_r. reflexivity.
    + reflexivity.
Qed.

Lemma highSeverityCount_filter (issues : list Issue) :
  forall a,
    fold_left (fun n i => if String.eqb (Severity i) "high" then (n + 1)%Z else n)
              issues a
    = (a + len (filter isHigh issues))%Z.
Proof.
  induction issues as [|i issues IH]; intros a; simpl.
  - unfold len. simpl. lia.
  - rewrite IH. unfold isHigh at 2.
    destruct (String.eqb (Severity i) "high"); [|reflexivity].
    unfold len. simpl List.length. lia.
Qed.

Lemma len_filter_pos {A : Type} (f : A -> bool) (l : list A) :
  (0 <? len (filter f l))%Z = existsb f l.
Proof.
  induction l as [|x l IH]; simpl; [reflexivity|].
  destruct (f x); simpl; [|exact IH].
  unfold len. simpl List.length. apply Z.ltb_lt. lia.
Qed.

End Recommendations.

(** C5, as stated, fails: the report of a tree whose only build descriptor
    is [service/pom.xml] has the build-system type [maven] and a single
    recommendation, the clean-scan message. *)
Lemma message_per_build_system_fails :
  exists r,
    Scan scanner0 treeMaven writtenOrder 0 = inl r
    /\ distinctSystems (BuildSystems r) = ["maven"]
    /\ Recommendations r = [msgClean]
    /\ List.length (Recommendations r) <> messagesPerSystem r.
Proof.
  eexists. split; [reflexivity|].
  split; [reflexivity|]. split; [reflexivity|].
  vm_compute. discriminate.
Qed.

(** C5, amended.  The recommendations are, in this order: the clean-scan
    message when there is no issue, otherwise the message with the number of
    issues followed, exactly when some issue has severity high, by the
    message with the number of such issues; the CMake message exactly when a
    build system of type [cmake] is present; the Makefile message exactly
    when one of type [make] is present; and the message with the number of
    dependencies exactly when there is one.  Other build-system types have
    no message. *)
Theorem generateRecommendations_messages (r : ScanResults) :
  generateRecommendations r
  = match Issues r with
    | [] => [msgClean]
    | _ :: _ =>
        msgFound (len (Issues r))
        :: (if existsb isHigh (Issues r)
            then [msgHigh (len (filter isHigh (Issues r)))] else [])
    end
    ++ (if hasSystem "cmake" (BuildSystems r) then [msgCMake] else [])
    ++ (if hasSystem "make" (BuildSystems r) then [msgMake] else [])
    ++ match Dependencies r with
       | [] => []
       | _ :: _ => [msgDeps (len (Dependencies r))]
       end.
Proof.
  unfold generateRecommendations.
  rewrite highSeverityCount_filter, Z.add_0_l, len_filter_pos.
  rewrite !buildSystemTypes_test. simpl mapTest. rewrite !orb_false_l.
  assert (Hdeps :
    forall l : list string,
      (if (0 <? len (Dependencies r))%Z
       then l ++ [msgDeps (len (Dependencies r))] else l)
      = l ++ match Dependencies r with
             | [] => []
             | _ :: _ => [msgDeps (len (Dependencies r))]
             end).
  { intros l. destruct (Dependencies r); simpl.
    - rewrite app_nil_r. reflexivity.
    - reflexivity. }
  rewrite Hdeps.
  destruct (Issues r) as [|i issues] eqn:Ei.
  - simpl. destruct (hasSystem "cmake" _), (hasSystem "make" _); reflexivity.
  - replace (len (i :: issues) =? 0)%Z with false
      by (symmetry; apply Z.eqb_neq; unfold len; simpl List.length; lia).
    destruct (existsb isHigh (i :: issues)),
      (hasSystem "cmake" _), (hasSystem "make" _); reflexivity.
Qed.


(** ** White space and words *)

Section Bytes.

Lemma allChars_app f s t :
  allChars f (s ++ t) = allChars f s && allChars f t.
Proof.
  induction s as [|c s IH]; simpl; [reflexivity|].
  rewrite IH, andb_assoc. reflexivity.
Qed.

Lemma allChars_impl (f g : ascii -> bool) s :
  (forall c, f c = true -> g c = true) ->
  allChars f s = true -> allChars g s = true.
Proof.
  intros Hfg. induction s as [|c s IH]; simpl; [reflexivity|].
  intros H. apply andb_prop in H. destruct H as [Hc Hs].
  rewrite (Hfg c Hc), (IH Hs). reflexivity.
Qed.

Lemma append_assoc_char acc c s :
  ((acc ++ String c EmptyString) ++ s)%string = (acc ++ String c s)%string.
Proof. induction acc as [|x acc IH]; simpl; congruence. Qed.

Lemma append_empty_r s : (s ++ EmptyString)%string = s.
Proof. induction s as [|x s IH]; simpl; congruence. Qed.

Lemma append_assoc (s t u : string) :
  ((s ++ t) ++ u)%string = (s ++ t ++ u)%string.
Proof. induction s as [|x s IH]; simpl; congruence. Qed.

Lemma length_app (s t : string) :
  String.length (s ++ t) = (String.length s + String.length t)%nat.
Proof. induction s as [|x s IH]; simpl; congruence. Qed.

Lemma prefix_cons x s1 y s2 :
  String.prefix (String x s1) (String y s2)
  = Ascii.eqb x y && String.prefix s1 s2.
Proof.
  change (String.prefix (String x s1) (String y s2))
    with (if ascii_dec x y then String.prefix s1 s2 else false).
  destruct (ascii_dec x y) as [->|H].
  - rewrite Ascii.eqb_refl. reflexivity.
  - apply Ascii.eqb_neq in H. rewrite H. reflexivity.
Qed.

Lemma prefix_empty s : String.prefix EmptyString s = true.
Proof. destruct s; reflexivity. Qed.

Lemma prefix_split p : forall s,
  String.prefix p s = true -> exists rest, s = (p ++ rest)%string.
Proof.
  induction p as [|x p IH]; intros s H.
  - exists s. reflexivity.
  - destruct s as [|y s]; [discriminate H|].
    rewrite prefix_cons in H. apply andb_prop in H. destruct H as [Hx Hp].
    apply Ascii.eqb_eq in Hx. subst y.
    destruct (IH s Hp) as [rest ->]. exists rest. reflexivity.
Qed.

Lemma prefix_app p rest : String.prefix p (p ++ rest) = true.
Proof.
  induction p as [|x p IH]; [apply prefix_empty|].
  change (String x p ++ rest)%string with (String x (p ++ rest)).
  rewrite prefix_cons, Ascii.eqb_refl. exact IH.
Qed.

Lemma byte_of_nat c n : nat_of_ascii c = n -> c = ascii_of_nat n.
Proof. intros <-. symmetry. apply ascii_nat_embedding. Qed.

Lemma graphic_range c :
  graphic c = true -> (33 <= nat_of_ascii c <= 126)%nat.
Proof.
  unfold graphic, Strings.ascii_in. intros H.
  apply andb_prop in H. destruct H as [H1 H2].
  apply Nat.leb_le in H1, H2. lia.
Qed.

Lemma spaceWidth_startsNoSpace c s :
  startsNoSpace c = true -> Strings.spaceWidth (String c s) = 0%nat.
Proof.
  unfold startsNoSpace. intros H.
  apply andb_prop in H. destruct H as [H1 H2].
  apply negb_true_iff in H1, H2. simpl in H2.
  rewrite orb_false_r in H2.
  apply orb_false_elim in H2. destruct H2 as [E1 H2].
  apply orb_false_elim in H2. destruct H2 as [E2 H2].
  apply orb_false_elim in H2. destruct H2 as [E3 E4].
  unfold Strings.spaceWidth. rewrite H1.
  destruct s as [|c1 [|c2 s2]]; [reflexivity| |]; cbv zeta; rewrite E1.
  - reflexivity.
  - rewrite E2, E3, E4. reflexivity.
Qed.

Lemma graphic_startsNoSpace c : graphic c = true -> startsNoSpace c = true.
Proof.
  intros H. apply graphic_range in H.
  unfold startsNoSpace, Strings.asciiSpace, Strings.ascii_in.
  cbn [existsb].
  repeat match goal with
         | |- context [(?a <=? ?b)%nat] =>
             let E := fresh in destruct (Nat.leb_spec a b) as [E|E]
         | |- context [(?a =? ?b)%nat] =>
             let E := fresh in destruct (Nat.eqb_spec a b) as [E|E]
         end; try reflexivity; lia.
Qed.

Lemma spaceWidth_graphic c s :
  graphic c = true -> Strings.spaceWidth (String c s) = 0%nat.
Proof. intros H. apply spaceWidth_startsNoSpace, graphic_startsNoSpace, H. Qed.

Lemma TrimLeftFrom_cons c s :
  Strings.TrimLeftFrom 0 (String c s)
  = match Strings.spaceWidth (String c s) with
    | O => String c s
    | S w => Strings.TrimLeftFrom w s
    end.
Proof. reflexivity. Qed.

Lemma allSpaceFrom_cons c s :
  Strings.allSpaceFrom 0 (String c s)
  = match Strings.spaceWidth (String c s) with
    | O => false
    | S w => Strings.allSpaceFrom w s
    end.
Proof. reflexivity. Qed.

Lemma TrimRight_cons c s :
  Strings.TrimRight (String c s)
  = if Strings.allSpaceFrom 0 (String c s) then EmptyString
    else String c (Strings.TrimRight s).
Proof. reflexivity. Qed.

Lemma FieldsFrom_cons acc c s :
  Strings.FieldsFrom 0 acc (String c s)
  = match Strings.spaceWidth (String c s) with
    | S w =>
        match acc with
        | EmptyString => Strings.FieldsFrom w EmptyString s
        | _ => acc :: Strings.FieldsFrom w EmptyString s
        end
    | O => Strings.FieldsFrom 0 (acc ++ String c EmptyString) s
    end.
Proof. reflexivity. Qed.

Lemma TrimRight_startsNoSpace c s :
  startsNoSpace c = true ->
  Strings.TrimRight (String c s) = String c (Strings.TrimRight s).
Proof.
  intros H.
  rewrite TrimRight_cons, allSpaceFrom_cons, spaceWidth_startsNoSpace by exact H.
  reflexivity.
Qed.

End Bytes.

Section Runes.

Local Ltac each_rune H :=
  unfold spaceRunes in H;
  repeat (destruct H as [<-|H]; [|]); [..|destruct H].

(** Every byte of a white-space rune is outside the printable range. *)
Lemma rune_bytes r :
  In r spaceRunes -> allChars (fun c => negb (graphic c)) r = true.
Proof. intros H. each_rune H; reflexivity. Qed.

Lemma rune_nonempty r : In r spaceRunes -> r <> EmptyString.
Proof. intros H. each_rune H; discriminate. Qed.

(** The width the scanner's white-space test finds at the head of a
    string that starts with a rune of the list is the length of the
    rune. *)
Lemma spaceWidth_rune r z :
  In r spaceRunes -> Strings.spaceWidth (r ++ z) = String.length r.
Proof.
  intros H. each_rune H; try reflexivity; destruct z; reflexivity.
Qed.

Lemma TrimLeftFrom_rune r z :
  In r spaceRunes ->
  Strings.TrimLeftFrom 0 (r ++ z) = Strings.TrimLeftFrom 0 z.
Proof.
  intros H. each_rune H; try reflexivity; destruct z; reflexivity.
Qed.

Lemma allSpaceFrom_rune r z :
  In r spaceRunes ->
  Strings.allSpaceFrom 0 (r ++ z) = Strings.allSpaceFrom 0 z.
Proof.
  intros H. each_rune H; try reflexivity; destruct z; reflexivity.
Qed.

Lemma FieldsFrom_rune r z acc :
  In r spaceRunes ->
  Strings.FieldsFrom 0 acc (r ++ z)
  = match acc with
    | EmptyString => Strings.FieldsFrom 0 EmptyString z
    | _ => acc :: Strings.FieldsFrom 0 EmptyString z
    end.
Proof.
  intros H.
  each_rune H; destruct acc; try reflexivity; destruct z; reflexivity.
Qed.

Lemma TrimRight_rune r z :
  In r spaceRunes ->
  Strings.TrimRight (r ++ z)
  = if Strings.allSpaceFrom 0 z then EmptyString
    else (r ++ Strings.TrimRight z)%string.
Proof.
  intros H. pose proof (allSpaceFrom_rune r z H) as Hall.
  each_rune H;
    cbn [append] in *; rewrite TrimRight_cons, Hall;
    destruct (Strings.allSpaceFrom 0 z); try reflexivity;
    repeat rewrite TrimRight_startsNoSpace by reflexivity;
    reflexivity.
Qed.

(** Conversely, where the white-space test finds a width the string
    starts with a rune of the list, of that length. *)
Lemma spaceWidth_inv s w :
  Strings.spaceWidth s = S w ->
  exists r z, In r spaceRunes /\ s = (r ++ z)%string
              /\ String.length r = S w.
Proof.
  destruct s as [|c s1]; [discriminate|].
  unfold Strings.spaceWidth.
  destruct (Strings.asciiSpace c) eqn:Ha.
  { intros Hw. exists (String c EmptyString), s1.
    split; [|split; [reflexivity|simpl; congruence]].
    unfold Strings.asciiSpace, Strings.ascii_in in Ha.
    assert (Hn : (nat_of_ascii c = 9 \/ nat_of_ascii c = 10
                  \/ nat_of_ascii c = 11 \/ nat_of_ascii c = 12
                  \/ nat_of_ascii c = 13 \/ nat_of_ascii c = 32)%nat).
    { apply orb_prop in Ha. destruct Ha as [Ha|Ha].
      - apply andb_prop in Ha. destruct Ha as [H1 H2].
        apply Nat.leb_le in H1, H2. lia.
      - apply Nat.eqb_eq in Ha. lia. }
    repeat (destruct Hn as [Hn|Hn]);
      apply byte_of_nat in Hn; subst c; vm_compute; tauto. }
  destruct s1 as [|c1 s2]; [discriminate|]. cbv zeta.
  destruct (Nat.eqb_spec (nat_of_ascii c) 194) as [E|E].
  { apply byte_of_nat in E. subst c.
    destruct (_ || _) eqn:H1; [|discriminate]. intros Hw.
    exists (String (ascii_of_nat 194) (String c1 EmptyString)), s2.
    split; [|split; [reflexivity|simpl; congruence]].
    apply orb_prop in H1.
    destruct H1 as [H1|H1]; apply Nat.eqb_eq, byte_of_nat in H1; subst c1;
      vm_compute; tauto. }
  destruct s2 as [|c2 s3]; [discriminate|].
  assert (Hthree :
    forall a b d : nat,
      nat_of_ascii c = a -> nat_of_ascii c1 = b -> nat_of_ascii c2 = d ->
      In (rune3 a b d) spaceRunes ->
      S w = 3%nat ->
      exists r z, In r spaceRunes
                  /\ String c (String c1 (String c2 s3)) = (r ++ z)%string
                  /\ String.length r = S w).
  { intros a b d Hc Hc1 Hc2 Hin Hw.
    apply byte_of_nat in Hc, Hc1, Hc2. subst c c1 c2.
    exists (rune3 a b d), s3.
    split; [exact Hin|]. split; [reflexivity|]. rewrite Hw. reflexivity. }
  destruct ((nat_of_ascii c =? 225)%nat && _ && _) eqn:H1.
  { intros Hw.
    apply andb_prop in H1. destruct H1 as [H1 H3].
    apply andb_prop in H1. destruct H1 as [H1 H2].
    apply Nat.eqb_eq in H1, H2, H3.
    apply (Hthree _ _ _ H1 H2 H3); [vm_compute; tauto|congruence]. }
  destruct ((nat_of_ascii c =? 226)%nat && _ && _) eqn:H2.
  { intros Hw.
    apply andb_prop in H2. destruct H2 as [H2 H4].
    apply andb_prop in H2. destruct H2 as [H2 H3].
    apply Nat.eqb_eq in H2, H3.
    unfold Strings.generalSpaceTail in H4.
    assert (Hn : (nat_of_ascii c2 = 128 \/ nat_of_ascii c2 = 129
                  \/ nat_of_ascii c2 = 130 \/ nat_of_ascii c2 = 131
                  \/ nat_of_ascii c2 = 132 \/ nat_of_ascii c2 = 133
                  \/ nat_of_ascii c2 = 134 \/ nat_of_ascii c2 = 135
                  \/ nat_of_ascii c2 = 136 \/ nat_of_ascii c2 = 137
                  \/ nat_of_ascii c2 = 138 \/ nat_of_ascii c2 = 168
                  \/ nat_of_ascii c2 = 169 \/ nat_of_ascii c2 = 175)%nat).
    { repeat match type of H4 with
             | (_ || _) = true =>
                 apply orb_prop in H4; destruct H4 as [H4|H4]
             end.
      - apply andb_prop in H4. destruct H4 as [H4 H5].
        apply Nat.leb_le in H4, H5. lia.
      - apply Nat.eqb_eq in H4. lia.
      - apply Nat.eqb_eq in H4. lia.
      - apply Nat.eqb_eq in H4. lia. }
    repeat (destruct Hn as [Hn|Hn]);
      (apply (Hthree _ _ _ H2 H3 Hn); [vm_compute; tauto|congruence]). }
  destruct ((nat_of_ascii c =? 226)%nat && (nat_of_ascii c1 =? 129)%nat && _)
    eqn:H3.
  { intros Hw.
    apply andb_prop in H3. destruct H3 as [H3 H5].
    apply andb_prop in H3. destruct H3 as [H3 H4].
    apply Nat.eqb_eq in H3, H4, H5.
    apply (Hthree _ _ _ H3 H4 H5); [vm_compute; tauto|congruence]. }
  destruct ((nat_of_ascii c =? 227)%nat && _ && _) eqn:H4; [|discriminate].
  intros Hw.
  apply andb_prop in H4. destruct H4 as [H4 H6].
  apply andb_prop in H4. destruct H4 as [H4 H5].
  apply Nat.eqb_eq in H4, H5, H6.
  apply (Hthree _ _ _ H4 H5 H6); [vm_compute; tauto|congruence].
Qed.

End Runes.

Section White.

Lemma white_app w1 w2 : white w1 -> white w2 -> white (w1 ++ w2).
Proof.
  induction 1 as [|r w Hr Hw IH]; intros H2; [exact H2|].
  rewrite append_assoc. apply white_rune; auto.
Qed.

Lemma white_bytes w :
  white w -> allChars (fun c => negb (graphic c)) w = true.
Proof.
  induction 1 as [|r w Hr Hw IH]; [reflexivity|].
  rewrite allChars_app, (rune_bytes r Hr), IH. reflexivity.
Qed.

Lemma TrimLeftFrom_white w z :
  white w -> Strings.TrimLeftFrom 0 (w ++ z) = Strings.TrimLeftFrom 0 z.
Proof.
  induction 1 as [|r w Hr Hw IH]; [reflexivity|].
  rewrite append_assoc, TrimLeftFrom_rune by exact Hr. exact IH.
Qed.

Lemma allSpaceFrom_white w z :
  white w -> Strings.allSpaceFrom 0 (w ++ z) = Strings.allSpaceFrom 0 z.
Proof.
  induction 1 as [|r w Hr Hw IH]; [reflexivity|].
  rewrite append_assoc, allSpaceFrom_rune by exact Hr. exact IH.
Qed.

Lemma FieldsFrom_white w z :
  white w ->
  Strings.FieldsFrom 0 EmptyString (w ++ z)
  = Strings.FieldsFrom 0 EmptyString z.
Proof.
  induction 1 as [|r w Hr Hw IH]; [reflexivity|].
  rewrite append_assoc, FieldsFrom_rune by exact Hr. exact IH.
Qed.

Lemma TrimRight_white w z :
  white w -> Strings.allSpaceFrom 0 z = false ->
  Strings.TrimRight (w ++ z) = (w ++ Strings.TrimRight z)%string.
Proof.
  intros Hw Hz. induction Hw as [|r w Hr Hw IH]; [reflexivity|].
  rewrite !append_assoc, TrimRight_rune by exact Hr.
  rewrite (allSpaceFrom_white w z Hw), Hz, IH. reflexivity.
Qed.

Lemma TrimRight_all s :
  Strings.allSpaceFrom 0 s = true -> Strings.TrimRight s = EmptyString.
Proof.
  destruct s as [|c s]; [reflexivity|]. intros H.
  rewrite TrimRight_cons, H. reflexivity.
Qed.

Lemma allSpaceFrom_only_white w :
  white w -> Strings.allSpaceFrom 0 w = true.
Proof.
  intros Hw.
  rewrite <- (append_empty_r w), allSpaceFrom_white by exact Hw. reflexivity.
Qed.

Lemma TrimRight_only_white w : white w -> Strings.TrimRight w = EmptyString.
Proof. intros Hw. apply TrimRight_all, allSpaceFrom_only_white, Hw. Qed.

Lemma TrimLeft_graphic c s :
  graphic c = true -> Strings.TrimLeftFrom 0 (String c s) = String c s.
Proof.
  intros H. rewrite TrimLeftFrom_cons, spaceWidth_graphic by exact H.
  reflexivity.
Qed.

Lemma allSpaceFrom_graphic c s :
  graphic c = true -> Strings.allSpaceFrom 0 (String c s) = false.
Proof.
  intros H. rewrite allSpaceFrom_cons, spaceWidth_graphic by exact H.
  reflexivity.
Qed.

Lemma word_cons c g :
  word (String c g) = true -> graphic c = true /\ word g = true.
Proof. unfold word. simpl. intros H. apply andb_prop in H. exact H. Qed.

Lemma TrimRight_word g z :
  word g = true ->
  Strings.TrimRight (g ++ z) = (g ++ Strings.TrimRight z)%string.
Proof.
  induction g as [|c g IH]; intros H; [reflexivity|].
  apply word_cons in H. destruct H as [Hc Hg].
  change (String c g ++ z)%string with (String c (g ++ z)).
  rewrite TrimRight_startsNoSpace by (apply graphic_startsNoSpace, Hc).
  rewrite (IH Hg). reflexivity.
Qed.

Lemma FieldsFrom_word g : forall acc z,
  word g = true ->
  Strings.FieldsFrom 0 acc (g ++ z) = Strings.FieldsFrom 0 (acc ++ g) z.
Proof.
  induction g as [|c g IH]; intros acc z H.
  - rewrite append_empty_r. reflexivity.
  - apply word_cons in H. destruct H as [Hc Hg].
    change (String c g ++ z)%string with (String c (g ++ z)).
    rewrite FieldsFrom_cons, spaceWidth_graphic by exact Hc.
    rewrite (IH _ _ Hg), append_assoc_char. reflexivity.
Qed.

(** A string is its leading white space followed by what [TrimLeft]
    keeps, and what is kept does not start with white space. *)
Lemma TrimLeft_split_len n : forall s,
  (String.length s <= n)%nat ->
  exists w, white w /\ s = (w ++ Strings.TrimLeftFrom 0 s)%string
            /\ Strings.spaceWidth (Strings.TrimLeftFrom 0 s) = 0%nat.
Proof.
  induction n as [|n IH]; intros s Hlen.
  - destruct s; [|simpl in Hlen; lia].
    exists EmptyString. repeat split. constructor.
  - destruct (Strings.spaceWidth s) as [|k] eqn:Hw.
    + exists EmptyString. split; [constructor|].
      destruct s as [|c s]; [repeat split|].
      rewrite TrimLeftFrom_cons, Hw. split; [reflexivity|exact Hw].
    + destruct (spaceWidth_inv s k Hw) as (r & z & Hr & -> & Hk).
      rewrite TrimLeftFrom_rune by exact Hr.
      destruct (IH z) as (w & Hwhite & Hz & H0).
      { rewrite length_app in Hlen. lia. }
      exists (r ++ w)%string. split; [apply white_rune; assumption|].
      split; [|exact H0].
      rewrite append_assoc, <- Hz. reflexivity.
Qed.

Lemma TrimLeft_split s :
  exists w, white w /\ s = (w ++ Strings.TrimLeft s)%string
            /\ Strings.spaceWidth (Strings.TrimLeft s) = 0%nat.
Proof. apply (TrimLeft_split_len (String.length s)). lia. Qed.

(** What [TrimRight] keeps is a prefix of the string. *)
Lemma prefix_TrimRight p : forall s,
  String.prefix p (Strings.TrimRight s) = true -> String.prefix p s = true.
Proof.
  induction p as [|x p IH]; intros s H; [apply prefix_empty|].
  destruct s as [|c s]; [discriminate H|].
  rewrite TrimRight_cons in H.
  destruct (Strings.allSpaceFrom 0 (String c s)); [discriminate H|].
  rewrite prefix_cons in *. apply andb_prop in H. destruct H as [-> H].
  rewrite (IH s H). reflexivity.
Qed.

(** A line whose trimmed text starts with [p] is white space, then [p],
    then the rest. *)
Lemma HasPrefix_TrimSpace text p :
  Strings.HasPrefix (Strings.TrimSpace text) p = true ->
  exists w rest, white w /\ text = (w ++ p ++ rest)%string.
Proof.
  unfold Strings.HasPrefix, Strings.TrimSpace. intros H.
  apply prefix_TrimRight, prefix_split in H. destruct H as [rest H].
  destruct (TrimLeft_split text) as (w & Hw & Htext & _).
  exists w, rest. split; [exact Hw|]. rewrite <- H. exact Htext.
Qed.

End White.

(** ** Splitting at [==] and [>=] *)

Section Separators.

Lemma noEq_head s : noEq s = true -> headNotEq s = true.
Proof.
  destruct s as [|c s]; simpl; [reflexivity|].
  intros H. apply andb_prop in H. tauto.
Qed.

Lemma noEq_cons c s :
  noEq (String c s) = true -> c <> "="%char /\ noEq s = true.
Proof.
  unfold noEq. simpl. intros H.
  apply andb_prop in H. destruct H as [H Hs].
  apply negb_true_iff, Ascii.eqb_neq in H. auto.
Qed.

Lemma noEq_app s t : noEq (s ++ t) = noEq s && noEq t.
Proof. apply allChars_app. Qed.

Lemma token_noEq s : token s = true -> noEq s = true.
Proof.
  apply allChars_impl. intros c H. apply andb_prop in H. tauto.
Qed.

Lemma token_word s : token s = true -> word s = true.
Proof.
  apply allChars_impl. intros c H. apply andb_prop in H. tauto.
Qed.

Lemma white_noEq w : white w -> noEq w = true.
Proof.
  intros H. apply white_bytes in H. revert H.
  apply allChars_impl. intros c H.
  apply negb_true_iff, Ascii.eqb_neq. intros ->. discriminate H.
Qed.

Lemma Contains_cons c s sub :
  Strings.Contains (String c s) sub
  = String.prefix sub (String c s) || Strings.Contains s sub.
Proof. reflexivity. Qed.

Lemma SplitFrom_cons sep acc c s :
  Strings.SplitFrom sep 0 acc (String c s)
  = if String.prefix sep (String c s)
    then acc :: Strings.SplitFrom sep (String.length sep - 1) EmptyString s
    else Strings.SplitFrom sep 0 (acc ++ String c EmptyString) s.
Proof. reflexivity. Qed.

Variable a : ascii.

Local Abbreviation sep := (String a (String "="%char EmptyString)).

Lemma prefix_sep_here rest : String.prefix sep (sep ++ rest) = true.
Proof.
  change (String a (String "="%char EmptyString) ++ rest)%string
    with (String a (String "="%char rest)).
  rewrite !prefix_cons, !Ascii.eqb_refl, prefix_empty. reflexivity.
Qed.

Lemma prefix_sep_head c tail :
  headNotEq tail = true -> String.prefix sep (String c tail) = false.
Proof.
  intros H. rewrite prefix_cons.
  destruct tail as [|d tail].
  - apply andb_false_r.
  - rewrite prefix_cons. simpl in H. apply negb_true_iff in H.
    rewrite (Ascii.eqb_sym "="%char d), H. apply andb_false_r.
Qed.

Lemma prefix_sep_other c tail :
  c <> a -> String.prefix sep (String c tail) = false.
Proof.
  intros H. rewrite prefix_cons.
  replace (Ascii.eqb a c) with false; [reflexivity|].
  symmetry. apply Ascii.eqb_neq. congruence.
Qed.

(** Inside a name without [=] no separator starts. *)
Lemma prefix_sep_inside c name rest :
  c <> "="%char -> noEq name = true ->
  String.prefix sep (String c (name ++ sep ++ rest)) = false.
Proof.
  intros Hc Hname.
  destruct (ascii_dec a "="%char) as [Ha|Ha].
  - apply prefix_sep_other. congruence.
  - apply prefix_sep_head.
    destruct name as [|d name]; simpl.
    + apply negb_true_iff, Ascii.eqb_neq. exact Ha.
    + apply noEq_cons in Hname. destruct Hname as (Hd & _).
      apply negb_true_iff, Ascii.eqb_neq. exact Hd.
Qed.

Lemma Contains_sep name rest :
  Strings.Contains (name ++ sep ++ rest) sep = true.
Proof.
  induction name as [|c name IH].
  - change (EmptyString ++ sep ++ rest)%string
      with (String a (String "="%char rest)).
    rewrite Contains_cons.
    change (String a (String "="%char rest)) with (sep ++ rest)%string.
    rewrite prefix_sep_here. reflexivity.
  - change (String c name ++ sep ++ rest)%string
      with (String c (name ++ sep ++ rest)).
    rewrite Contains_cons, IH. apply orb_true_r.
Qed.

Lemma Contains_noEq s : noEq s = true -> Strings.Contains s sep = false.
Proof.
  induction s as [|c s IH]; intros H.
  - reflexivity.
  - apply noEq_cons in H. destruct H as (_ & Hs).
    rewrite Contains_cons.
    rewrite prefix_sep_head by (apply noEq_head, Hs).
    rewrite (IH Hs). reflexivity.
Qed.

Lemma SplitFrom_noEq s :
  noEq s = true ->
  forall acc, Strings.SplitFrom sep 0 acc s = [(acc ++ s)%string].
Proof.
  induction s as [|c s IH]; intros H acc.
  - simpl. rewrite append_empty_r. reflexivity.
  - apply noEq_cons in H. destruct H as (_ & Hs).
    rewrite SplitFrom_cons.
    rewrite prefix_sep_head by (apply noEq_head, Hs).
    rewrite (IH Hs), append_assoc_char. reflexivity.
Qed.

(** Splitting a line made of a part without [=], the separator and
    another part without [=] gives the two parts. *)
Lemma SplitFrom_once name rest :
  noEq name = true -> noEq rest = true ->
  forall acc,
    Strings.SplitFrom sep 0 acc (name ++ sep ++ rest)
    = [(acc ++ name)%string; rest].
Proof.
  intros Hname Hrest.
  induction name as [|c name IH]; intros acc.
  - change (EmptyString ++ sep ++ rest)%string
      with (String a (String "="%char rest)).
    rewrite SplitFrom_cons.
    change (String a (String "="%char rest)) with (sep ++ rest)%string.
    rewrite prefix_sep_here. rewrite append_empty_r.
    change (Strings.SplitFrom sep (String.length sep - 1) EmptyString
              (String "="%char rest))
      with (Strings.SplitFrom sep 0 EmptyString rest).
    rewrite (SplitFrom_noEq rest Hrest). reflexivity.
  - apply noEq_cons in Hname. destruct Hname as (Hc & Hname).
    change (String c name ++ sep ++ rest)%string
      with (String c (name ++ sep ++ rest)).
    rewrite SplitFrom_cons, (prefix_sep_inside c name rest Hc Hname).
    rewrite (IH Hname), append_assoc_char. reflexivity.
Qed.

End Separators.

(** ** The line forms of [scanPythonDependencies] *)

Section PythonForms.

Lemma pythonLine_app deps text :
  pythonLine deps text = deps ++ pythonLine [] text.
Proof.
  unfold pythonLine.
  destruct (_ || _); [symmetry; apply app_nil_r|].
  destruct (Strings.Contains _ "=="); [reflexivity|].
  destruct (Strings.Contains _ ">="); reflexivity.
Qed.

Lemma fold_pythonLine lines :
  forall deps,
    fold_left pythonLine lines deps = deps ++ flat_map (pythonLine []) lines.
Proof.
  induction lines as [|l lines IH]; intros deps; simpl.
  - symmetry. apply app_nil_r.
  - rewrite IH, (pythonLine_app deps l), <- app_assoc. reflexivity.
Qed.

Lemma pythonLine_length text : (List.length (pythonLine [] text) <= 1)%nat.
Proof.
  unfold pythonLine.
  destruct (_ || _); [simpl; lia|].
  destruct (Strings.Contains _ "=="); [simpl; lia|].
  destruct (Strings.Contains _ ">="); simpl; lia.
Qed.

(** A line is skipped exactly when its trimmed text is empty or starts
    with [#]. *)
Lemma pythonLine_skipped text :
  pythonLine [] text = []
  <-> String.eqb (Strings.TrimSpace text) EmptyString
      || Strings.HasPrefix (Strings.TrimSpace text) "#" = true.
Proof.
  unfold pythonLine. destruct (_ || _).
  - split; reflexivity.
  - split; [|discriminate].
    destruct (Strings.Contains _ "=="); [discriminate|].
    destruct (Strings.Contains _ ">="); discriminate.
Qed.

Lemma TrimSpace_white w : white w -> Strings.TrimSpace w = EmptyString.
Proof.
  intros Hw. unfold Strings.TrimSpace, Strings.TrimLeft.
  rewrite <- (append_empty_r w), TrimLeftFrom_white by exact Hw.
  reflexivity.
Qed.

(** Trimming removes the white space around a word. *)
Lemma TrimSpace_word wa g wb :
  white wa -> word g = true -> white wb ->
  Strings.TrimSpace (wa ++ g ++ wb) = g.
Proof.
  intros Ha Hg Hb. destruct g as [|c g].
  - apply TrimSpace_white, white_app; assumption.
  - unfold Strings.TrimSpace, Strings.TrimLeft.
    rewrite TrimLeftFrom_white by exact Ha.
    pose proof (word_cons _ _ Hg) as [Hc _].
    change (String c g ++ wb)%string with (String c (g ++ wb)).
    rewrite TrimLeft_graphic by exact Hc.
    change (String c (g ++ wb)) with (String c g ++ wb)%string.
    rewrite TrimRight_word by exact Hg.
    rewrite TrimRight_only_white by exact Hb.
    apply append_empty_r.
Qed.

(** A blank line has only white space. *)
Lemma TrimSpace_empty text :
  Strings.TrimSpace text = EmptyString -> white text.
Proof.
  unfold Strings.TrimSpace. intros H.
  destruct (TrimLeft_split text) as (w & Hw & Htext & H0).
  destruct (Strings.TrimLeft text) as [|c t] eqn:E.
  - rewrite Htext, append_empty_r. exact Hw.
  - rewrite TrimRight_cons, allSpaceFrom_cons, H0 in H. discriminate H.
Qed.

Variables name version : string.
Hypothesis Hname : token name = true.
Hypothesis Hversion : token version = true.
Hypothesis Hnonempty : name <> EmptyString.
Hypothesis Hnocomment : Strings.HasPrefix name "#" = false.

Variables w1 w2 w3 w4 : string.
Hypothesis Hw1 : white w1.
Hypothesis Hw2 : white w2.
Hypothesis Hw3 : white w3.
Hypothesis Hw4 : white w4.

Lemma blank_line deps : pythonLine deps w1 = deps.
Proof.
  unfold pythonLine. rewrite (TrimSpace_white w1 Hw1). reflexivity.
Qed.

Lemma comment_line deps rest : pythonLine deps (w1 ++ "#" ++ rest) = deps.
Proof.
  unfold pythonLine, Strings.TrimSpace, Strings.TrimLeft.
  rewrite TrimLeftFrom_white by exact Hw1.
  change ("#" ++ rest)%string with (String "#"%char rest).
  rewrite TrimLeft_graphic by reflexivity.
  rewrite TrimRight_startsNoSpace by reflexivity.
  unfold Strings.HasPrefix. rewrite prefix_cons, prefix_empty.
  reflexivity.
Qed.

Lemma line_not_skipped rest :
  String.eqb (name ++ rest) EmptyString
  || Strings.HasPrefix (name ++ rest) "#" = false.
Proof.
  destruct name as [|c nm]; [congruence|].
  unfold Strings.HasPrefix in *.
  change (String c nm ++ rest)%string with (String c (nm ++ rest)).
  rewrite prefix_cons, prefix_empty in *.
  simpl String.eqb. rewrite andb_true_r in *. rewrite Hnocomment. reflexivity.
Qed.

(** What is left of the version and the white space around it once the
    end of the line is trimmed. *)
Local Abbreviation tail := (Strings.TrimRight (w3 ++ version ++ w4)).

Lemma tail_noEq : noEq tail = true.
Proof.
  destruct version as [|c v] eqn:E.
  - rewrite TrimRight_only_white by (apply white_app; assumption).
    reflexivity.
  - rewrite <- E in *.
    rewrite TrimRight_white, TrimRight_word, TrimRight_only_white;
      try assumption; try (apply token_word; assumption).
    + rewrite append_empty_r, noEq_app, (white_noEq w3 Hw3).
      apply token_noEq, Hversion.
    + rewrite E. apply allSpaceFrom_graphic.
      rewrite E in Hversion. apply token_word, word_cons in Hversion. tauto.
Qed.

Lemma tail_trimmed : Strings.TrimSpace tail = version.
Proof.
  destruct version as [|c v] eqn:E.
  - rewrite TrimRight_only_white by (apply white_app; assumption).
    reflexivity.
  - rewrite <- E in *.
    rewrite TrimRight_white, TrimRight_word, TrimRight_only_white;
      try assumption; try (apply token_word; assumption).
    + exact (TrimSpace_word w3 version EmptyString Hw3
               (token_word _ Hversion) white_nil).
    + rewrite E. apply allSpaceFrom_graphic.
      rewrite E in Hversion. apply token_word, word_cons in Hversion. tauto.
Qed.

(** The trimmed text of a line with a separator. *)
Lemma line_trimmed (a : ascii) :
  graphic a = true ->
  Strings.TrimSpace
    (w1 ++ name ++ w2 ++ String a (String "="%char EmptyString)
        ++ w3 ++ version ++ w4)
  = ((name ++ w2) ++ String a (String "="%char EmptyString) ++ tail)%string.
Proof.
  intros Ha. unfold Strings.TrimSpace, Strings.TrimLeft.
  rewrite TrimLeftFrom_white by exact Hw1.
  pose proof (token_word _ Hname) as Hword.
  destruct name as [|c nm] eqn:E; [congruence|]. rewrite <- E in *.
  assert (Hc : graphic c = true).
  { rewrite E in Hword. apply word_cons in Hword. tauto. }
  replace (Strings.TrimLeftFrom 0
             (name ++ w2 ++ String a (String "="%char EmptyString)
                   ++ w3 ++ version ++ w4))
    with (name ++ w2 ++ String a (String "="%char EmptyString)
               ++ w3 ++ version ++ w4)%string.
  2:{ rewrite E.
      change (String c nm ++ ?z)%string with (String c (nm ++ z)).
      symmetry. apply TrimLeft_graphic, Hc. }
  rewrite TrimRight_word by exact Hword.
  rewrite TrimRight_white;
    [|exact Hw2|apply allSpaceFrom_graphic, Ha].
  change (String a (String "="%char EmptyString) ++ w3 ++ version ++ w4)%string
    with (String a (String "="%char (w3 ++ version ++ w4))).
  rewrite TrimRight_startsNoSpace by (apply graphic_startsNoSpace, Ha).
  rewrite TrimRight_startsNoSpace by reflexivity.
  rewrite append_assoc. reflexivity.
Qed.

Lemma name_noEq : noEq (name ++ w2) = true.
Proof.
  rewrite noEq_app, (token_noEq _ Hname), (white_noEq _ Hw2). reflexivity.
Qed.

Lemma name_trimmed : Strings.TrimSpace (name ++ w2) = name.
Proof.
  apply (TrimSpace_word EmptyString name w2);
    [constructor|apply token_word, Hname|exact Hw2].
Qed.

Lemma exact_pin deps :
  pythonLine deps (w1 ++ name ++ w2 ++ "==" ++ w3 ++ version ++ w4)
  = deps ++ [pythonDep name version].
Proof.
  unfold pythonLine.
  rewrite (line_trimmed "="%char eq_refl).
  rewrite append_assoc, line_not_skipped, <- append_assoc.
  rewrite (Contains_sep "="%char (name ++ w2) tail).
  unfold Strings.Split.
  rewrite (SplitFrom_once "="%char (name ++ w2) tail name_noEq tail_noEq
             EmptyString).
  cbn [nth List.length Nat.ltb Nat.leb append].
  rewrite name_trimmed, tail_trimmed. reflexivity.
Qed.

Lemma no_double_eq n v :
  noEq n = true -> noEq v = true ->
  Strings.Contains (n ++ ">=" ++ v) "==" = false.
Proof.
  intros Hn Hv. induction n as [|c nm IH].
  - change (EmptyString ++ ">=" ++ v)%string
      with (String ">"%char (String "="%char v)).
    rewrite !Contains_cons, !prefix_cons.
    rewrite (Contains_noEq "="%char v Hv).
    destruct v as [|d v']; [reflexivity|].
    rewrite prefix_cons.
    apply noEq_cons in Hv. destruct Hv as (Hd & _).
    apply Ascii.eqb_neq in Hd. rewrite (Ascii.eqb_sym "="%char d), Hd.
    reflexivity.
  - apply noEq_cons in Hn. destruct Hn as (Hc & Hnm).
    change (String c nm ++ ">=" ++ v)%string
      with (String c (nm ++ ">=" ++ v)).
    rewrite Contains_cons, prefix_cons.
    apply Ascii.eqb_neq in Hc. rewrite (Ascii.eqb_sym "="%char c), Hc.
    simpl. apply IH. exact Hnm.
Qed.

Lemma lower_bound deps :
  pythonLine deps (w1 ++ name ++ w2 ++ ">=" ++ w3 ++ version ++ w4)
  = deps ++ [pythonDep name (">=" ++ version)].
Proof.
  unfold pythonLine.
  rewrite (line_trimmed ">"%char eq_refl).
  rewrite append_assoc, line_not_skipped, <- append_assoc.
  rewrite (no_double_eq (name ++ w2) tail name_noEq tail_noEq).
  rewrite (Contains_sep ">"%char (name ++ w2) tail).
  unfold Strings.Split.
  rewrite (SplitFrom_once ">"%char (name ++ w2) tail name_noEq tail_noEq
             EmptyString).
  cbn [nth List.length Nat.ltb Nat.leb append].
  rewrite name_trimmed, tail_trimmed. reflexivity.
Qed.

Lemma bare_name deps :
  pythonLine deps (w1 ++ name ++ w4) = deps ++ [pythonDep name "*"].
Proof.
  unfold pythonLine.
  rewrite (TrimSpace_word w1 name w4 Hw1 (token_word _ Hname) Hw4).
  pose proof (line_not_skipped EmptyString) as H.
  rewrite append_empty_r in H. rewrite H.
  rewrite (Contains_noEq "="%char name (token_noEq _ Hname)).
  rewrite (Contains_noEq ">"%char name (token_noEq _ Hname)).
  reflexivity.
Qed.

End PythonForms.

(** C6.  In [requirements.txt] the lines that yield no dependency are
    exactly the blank lines (white space only) and the comment lines (white
    space, then [#], then anything); every other line yields one dependency.
    For a name and a version that are words of printable characters without
    [=] (the name non-empty and not starting with [#]), with any white
    space, as Unicode defines it, before the name, around the operator and
    at the end of the line: the line [name==version] yields that name and version,
    the line [name>=version] yields the name and the version with its [>=]
    prefix, and the line [name] alone yields the version [*]; every
    dependency has type python and compatibility unknown.  A readable file
    yields the dependencies of its lines in order, and the single line
    [numpy==1.21.0] yields numpy at 1.21.0. *)
Theorem scanPythonDependencies_forms (name version w1 w2 w3 w4 : string) :
  token name = true ->
  token version = true ->
  name <> EmptyString ->
  Strings.HasPrefix name "#" = false ->
  white w1 -> white w2 -> white w3 -> white w4 ->
  (forall text,
      pythonLine [] text = []
      <-> (white text
           \/ exists w rest, white w /\ text = (w ++ "#" ++ rest)%string))
  /\ (forall deps text,
         white text
         \/ (exists w rest, white w /\ text = (w ++ "#" ++ rest)%string) ->
         pythonLine deps text = deps)
  /\ (forall text,
         pythonLine [] text = []
         \/ exists n v, pythonLine [] text = [pythonDep n v])
  /\ (forall deps,
         pythonLine deps (w1 ++ name ++ w2 ++ "==" ++ w3 ++ version ++ w4)
         = deps ++ [pythonDep name version])
  /\ (forall deps,
         pythonLine deps (w1 ++ name ++ w2 ++ ">=" ++ w3 ++ version ++ w4)
         = deps ++ [pythonDep name (">=" ++ version)])
  /\ (forall deps,
         pythonLine deps (w1 ++ name ++ w4) = deps ++ [pythonDep name "*"])
  /\ (forall root lines,
         Open root (Join [] "requirements.txt") = Lines lines false ->
         scanPythonDependencies root = (flat_map (pythonLine []) lines, None))
  /\ scanPythonDependencies treeNumpy = ([pythonDep "numpy" "1.21.0"], None)
  /\ scanPythonDependencies treeRequirements
     = ([pythonDep "numpy" "1.21.0"; pythonDep "flask" ">=2.0";
         pythonDep "requests" "*"], None).
Proof.
  intros Hname Hversion Hnonempty Hnocomment Hw1 Hw2 Hw3 Hw4.
  assert (Hskip : forall deps text,
    white text
    \/ (exists w rest, white w /\ text = (w ++ "#" ++ rest)%string) ->
    pythonLine deps text = deps).
  { intros deps text [Hw|(w & rest & Hw & ->)].
    - apply blank_line, Hw.
    - apply comment_line, Hw. }
  split.
  { intros text. split; [|apply Hskip].
    intros H. apply pythonLine_skipped in H.
    apply orb_prop in H. destruct H as [H|H].
    - left. apply TrimSpace_empty, String.eqb_eq, H.
    - right. apply HasPrefix_TrimSpace, H. }
  split; [exact Hskip|].
  split.
  { intros text. unfold pythonLine.
    destruct (_ || _); [left; reflexivity|right].
    destruct (Strings.Contains _ "=="); [eexists; eexists; reflexivity|].
    destruct (Strings.Contains _ ">="); eexists; eexists; reflexivity. }
  split; [intros; apply exact_pin; assumption|].
  split; [intros; apply lower_bound; assumption|].
  split; [intros; apply bare_name; assumption|].
  split; [|split; reflexivity].
  intros root lines Hopen.
  unfold scanPythonDependencies. rewrite Hopen, fold_pythonLine. reflexivity.
Qed.

(** The forms with a no-break space before the name, spaces around the
    operator and a tab at the end of the line; a line of a no-break space
    and an em space is blank; a comment after a tab is skipped. *)
Lemma scanPythonDependencies_forms_witness :
  pythonLine [] (nbsp ++ "numpy" ++ " " ++ "==" ++ " " ++ "1.21.0" ++ tab)
  = [pythonDep "numpy" "1.21.0"]
  /\ pythonLine [] (nbsp ++ "numpy" ++ " " ++ ">=" ++ " " ++ "1.21.0" ++ tab)
     = [pythonDep "numpy" ">=1.21.0"]
  /\ pythonLine [] (nbsp ++ "numpy" ++ tab) = [pythonDep "numpy" "*"]
  /\ pythonLine [] (nbsp ++ emsp) = []
  /\ pythonLine [] (tab ++ "# numpy==1.21.0") = []
  /\ pythonLine [] "numpy==1.21.0" = [pythonDep "numpy" "1.21.0"].
Proof.
  assert (Hrune : forall r w, In r spaceRunes -> white w -> white (r ++ w)).
  { intros r w Hr Hw. apply white_rune; assumption. }
  assert (Hnbsp : white nbsp).
  { apply (Hrune nbsp EmptyString); [vm_compute; tauto|constructor]. }
  assert (Hsp : white " ").
  { apply (Hrune " " EmptyString); [vm_compute; tauto|constructor]. }
  assert (Htab : white tab).
  { apply (Hrune tab EmptyString); [vm_compute; tauto|constructor]. }
  assert (Hblank : white (nbsp ++ emsp)).
  { apply (Hrune nbsp emsp); [vm_compute; tauto|].
    apply (Hrune emsp EmptyString); [vm_compute; tauto|constructor]. }
  destruct (scanPythonDependencies_forms "numpy" "1.21.0" nbsp " " " " tab
              eq_refl eq_refl ltac:(discriminate) eq_refl
              Hnbsp Hsp Hsp Htab)
    as (_ & Hskip & _ & H1 & H2 & H3 & _).
  destruct (scanPythonDependencies_forms "numpy" "1.21.0"
              EmptyString EmptyString EmptyString EmptyString
              eq_refl eq_refl ltac:(discriminate) eq_refl
              white_nil white_nil white_nil white_nil)
    as (_ & _ & _ & H4 & _).
  split; [exact (H1 [])|]. split; [exact (H2 [])|]. split; [exact (H3 [])|].
  split; [apply Hskip; left; exact Hblank|].
  split; [|exact (H4 [])].
  apply Hskip. right. exists tab, " numpy==1.21.0". split; [exact Htab|reflexivity].
Defined.

(** ** [scanDependencies] looks at the root directory only *)

Section RootManifests.

Lemma nodeName_prune n : nodeName (prune n) = nodeName n.
Proof. destruct n; reflexivity. Qed.

Lemma find_prune m es : find m (map prune es) = option_map prune (find m es).
Proof.
  induction es as [|e es IH]; simpl; [reflexivity|].
  rewrite nodeName_prune. destruct (String.eqb (nodeName e) m); auto.
Qed.

Lemma resolve_entry name es m :
  resolveFrom (Some (Dir name es)) (Join [] m)
  = match find m es with
    | Some c => inl c
    | None => inr ErrNotExist
    end.
Proof. simpl. destruct (find m es); reflexivity. Qed.

Variables (name name' : string) (es es' : list node).
Hypothesis Hsame : map prune es = map prune es'.

Lemma find_same m : option_map prune (find m es) = option_map prune (find m es').
Proof. rewrite <- !find_prune, Hsame. reflexivity. Qed.

Lemma Stat_same m :
  Stat (Some (Dir name es)) (Join [] m) = Stat (Some (Dir name' es')) (Join [] m).
Proof.
  unfold Stat. rewrite !resolve_entry.
  pose proof (find_same m) as H.
  destruct (find m es), (find m es'); simpl in H; congruence.
Qed.

Lemma Open_same m :
  Open (Some (Dir name es)) (Join [] m) = Open (Some (Dir name' es')) (Join [] m).
Proof.
  unfold Open. rewrite !resolve_entry.
  pose proof (find_same m) as H.
  destruct (find m es) as [c|], (find m es') as [c'|]; simpl in H;
    try discriminate; [|reflexivity].
  injection H as H.
  destruct c, c'; simpl in H; try discriminate; try reflexivity.
  injection H as _ ->. reflexivity.
Qed.

Lemma scanDependencies_same :
  scanDependencies (Some (Dir name es)) = scanDependencies (Some (Dir name' es')).
Proof.
  unfold scanDependencies, scanNpmDependencies, scanPythonDependencies,
    scanCargoDependencies, scanGoDependencies.
  cbv zeta.
  rewrite (Stat_same "package.json"), (Stat_same "Cargo.toml").
  rewrite (Open_same "requirements.txt"), (Open_same "go.mod").
  reflexivity.
Qed.

End RootManifests.

Section NoRootManifest.

Lemma scanDependencies_none name es :
  (forall m, In m manifestNames -> find m es = None) ->
  scanDependencies (Some (Dir name es)) = ([], None).
Proof.
  intros H.
  unfold scanDependencies, scanNpmDependencies, scanPythonDependencies,
    scanCargoDependencies, scanGoDependencies, Stat, Open.
  cbv zeta. rewrite !resolve_entry.
  rewrite (H "package.json"), (H "requirements.txt"),
    (H "Cargo.toml"), (H "go.mod"); simpl; auto 6.
Qed.

End NoRootManifest.

(** C10.  The dependencies of a project depend only on the entries of the
    root directory itself: two root directories whose entries agree once
    the contents of every subdirectory are forgotten give the same
    dependencies, and a root directory with no entry named [package.json],
    [requirements.txt], [Cargo.toml] or [go.mod] gives none, whatever
    manifests its subdirectories hold. *)
Theorem scanDependencies_root_only
    (name name' : string) (es es' : list node) :
  (map prune es = map prune es' ->
   scanDependencies (Some (Dir name es)) = scanDependencies (Some (Dir name' es')))
  /\ ((forall m, In m manifestNames -> find m es = None) ->
      scanDependencies (Some (Dir name es)) = ([], None)).
Proof.
  split.
  - apply scanDependencies_same.
  - apply scanDependencies_none.
Qed.

Lemma scanDependencies_root_only_witness :
  scanDependencies (Some (Dir "proj" treeNestedManifests))
  = scanDependencies (Some (Dir "proj" [Dir "vendor" []]))
  /\ scanDependencies (Some (Dir "proj" treeNestedManifests)) = ([], None).
Proof.
  destruct (scanDependencies_root_only "proj" "proj"
              treeNestedManifests [Dir "vendor" []]) as [H1 H2].
  split.
  - apply H1. reflexivity.
  - apply H2. intros m Hm. simpl in Hm.
    destruct Hm as [<-|[<-|[<-|[<-|[]]]]]; reflexivity.
Defined.

(** ** Walks whose callback only appends *)

Section WalkAppend.

Context {X : Type}.
Variable fn : path -> FileInfo -> option error -> list X -> list X * walkRet.
Hypothesis fn_app :
  forall p info err acc,
    fn p info err acc
    = (acc ++ fst (fn p info err []), snd (fn p info err [])).

Lemma walkEntries_app p es :
  Forall (appends fn) es ->
  forall acc,
    walkEntries (walk fn) p es acc
    = (acc ++ fst (walkEntries (walk fn) p es []),
       snd (walkEntries (walk fn) p es [])).
Proof.
  induction 1 as [|e es He _ IH]; intros acc.
  - simpl. rewrite app_nil_r. reflexivity.
  - simpl. rewrite (He (Join p (nodeName e)) acc).
    destruct (walk fn (Join p (nodeName e)) e []) as [a r].
    simpl fst. simpl snd. simpl app.
    destruct r.
    + rewrite (IH (acc ++ a)), (IH a). simpl. rewrite app_assoc. reflexivity.
    + destruct (nodeIsDir e); [|reflexivity].
      rewrite (IH (acc ++ a)), (IH a). simpl. rewrite app_assoc. reflexivity.
    + reflexivity.
Qed.

Lemma walk_app n : appends fn n.
Proof.
  induction n as [name data|name es IH|name] using node_nested_ind;
    intros p acc.
  - simpl. apply fn_app.
  - simpl. rewrite (fn_app p _ None acc).
    destruct (fn p (Lstat (Dir name es)) None []) as [a r].
    simpl fst. simpl snd. simpl app.
    destruct r; try reflexivity.
    rewrite (walkEntries_app p es IH (acc ++ a)), (walkEntries_app p es IH a).
    simpl. rewrite app_assoc. reflexivity.
  - simpl. apply fn_app.
Qed.

Lemma Walk_app root acc :
  fst (Walk fn root acc) = acc ++ fst (Walk fn root []).
Proof.
  unfold Walk. destruct root as [n|].
  - rewrite (walk_app n [] acc).
    destruct (walk fn [] n []). reflexivity.
  - rewrite (fn_app [] _ _ acc).
    destruct (fn [] _ _ []). reflexivity.
Qed.

End WalkAppend.

(** ** [scanBuildSystems] *)

Section BuildSystems.

Lemma buildSystemFn_app pattern system p info err acc :
  buildSystemFn pattern system p info err acc
  = (acc ++ fst (buildSystemFn pattern system p info err []),
     snd (buildSystemFn pattern system p info err [])).
Proof.
  unfold buildSystemFn. destruct err.
  - simpl. rewrite app_nil_r. reflexivity.
  - destruct (_ && _); simpl; [reflexivity|].
    rewrite app_nil_r. reflexivity.
Qed.

Lemma fold_left_append {A B : Type} (g : A -> B) (l : list A) :
  forall acc,
    fold_left (fun bs m => bs ++ [g m]) l acc = acc ++ map g l.
Proof.
  induction l as [|x l IH]; intros acc; simpl.
  - symmetry. apply app_nil_r.
  - rewrite IH, <- app_assoc. reflexivity.
Qed.

Variables (s : Scanner) (around : string -> option (list string)).

(** What the round of one file name appends: the matches of the glob,
    then the files of that name met by the walk; nothing when the glob
    fails. *)
Lemma descriptorsFor_eq root pattern :
  descriptorsFor s around root pattern
  = match mapGet buildPatterns pattern with
    | Some system =>
        match Glob (projectPath s) around root pattern with
        | Some matches =>
            map (globBuildSystem system) matches
            ++ fst (Walk (buildSystemFn pattern system) root [])
        | None => []
        end
    | None => []
    end.
Proof.
  unfold descriptorsFor, scanBuildPattern.
  destruct (mapGet buildPatterns pattern) as [system|]; [|reflexivity].
  destruct (Glob (projectPath s) around root pattern) as [matches|];
    [|reflexivity].
  cbv zeta. rewrite fold_left_append.
  apply (Walk_app _ (buildSystemFn_app pattern system)).
Qed.

Lemma scanBuildPattern_app root acc pattern :
  scanBuildPattern s around root acc pattern
  = acc ++ descriptorsFor s around root pattern.
Proof.
  rewrite descriptorsFor_eq. unfold scanBuildPattern.
  destruct (mapGet buildPatterns pattern) as [system|];
    [|symmetry; apply app_nil_r].
  destruct (Glob (projectPath s) around root pattern) as [matches|];
    [|symmetry; apply app_nil_r].
  cbv zeta.
  rewrite (Walk_app _ (buildSystemFn_app pattern system) root
             (fold_left _ _ acc)).
  rewrite fold_left_append, <- app_assoc. reflexivity.
Qed.

Lemma scanBuildSystems_flat_map root keys :
  fst (scanBuildSystems s around root keys)
  = flat_map (descriptorsFor s around root) keys.
Proof.
  unfold scanBuildSystems. simpl fst.
  enough (H : forall acc,
             fold_left (scanBuildPattern s around root) keys acc
             = acc ++ flat_map (descriptorsFor s around root) keys)
    by apply (H []).
  induction keys as [|k keys IH]; intros acc; simpl.
  - symmetry. apply app_nil_r.
  - rewrite IH, scanBuildPattern_app, <- app_assoc. reflexivity.
Qed.

(** Without meta characters in the project path and in the file name the
    glob is one [Lstat]. *)
Lemma Glob_plain root name :
  hasMeta (projectPath s) = false -> hasMeta name = false ->
  Glob (projectPath s) around root name
  = match resolveFrom root (Join [] name) with
    | inl _ => Some [Rel (Join [] name)]
    | inr _ => Some []
    end.
Proof. intros H1 H2. unfold Glob. rewrite H1, H2. reflexivity. Qed.

End BuildSystems.

(** C2.  On the tree with [CMakeLists.txt] at the root and in [sub], for a
    project path without meta characters and in whatever order the table of
    file names is visited, the build systems reported are three: the root
    descriptor once from the glob and once from the walk, then the nested
    one. *)
Theorem scanBuildSystems_root_descriptor_twice (s : Scanner)
    (around : string -> option (list string)) (keys : list string) :
  hasMeta (projectPath s) = false ->
  Permutation keys (mapKeys buildPatterns) ->
  fst (scanBuildSystems s around treeCMake keys)
  = [ mkBuildSystem "cmake" ["CMakeLists.txt"];
      mkBuildSystem "cmake" ["CMakeLists.txt"];
      mkBuildSystem "cmake" ["sub"; "CMakeLists.txt"] ].
Proof.
  intros Hmeta Hperm. rewrite scanBuildSystems_flat_map.
  assert (Hd : forall k, In k (mapKeys buildPatterns) ->
            descriptorsFor s around treeCMake k
            = if String.eqb k "CMakeLists.txt"
              then [ mkBuildSystem "cmake" ["CMakeLists.txt"];
                     mkBuildSystem "cmake" ["CMakeLists.txt"];
                     mkBuildSystem "cmake" ["sub"; "CMakeLists.txt"] ]
              else []).
  { intros k Hk. rewrite descriptorsFor_eq. simpl in Hk.
    destruct Hk as [<-|[<-|[<-|[<-|[<-|[<-|[<-|[]]]]]]]];
      (rewrite Glob_plain by (exact Hmeta || reflexivity)); reflexivity. }
  rewrite (flat_map_single _ "CMakeLists.txt" keys).
  - apply (Hd "CMakeLists.txt"). simpl. auto.
  - eapply Permutation_NoDup; [apply Permutation_sym, Hperm|].
    simpl. repeat constructor; simpl; intuition discriminate.
  - eapply Permutation_in; [apply Permutation_sym, Hperm|]. simpl. auto.
  - intros k Hk Hne.
    apply (Permutation_in _ Hperm) in Hk. rewrite (Hd k Hk).
    destruct (String.eqb_spec k "CMakeLists.txt"); [congruence|reflexivity].
Qed.

Lemma scanBuildSystems_root_descriptor_twice_witness :
  map bsFile
    (fst (scanBuildSystems scanner0 (fun _ => None) treeCMake
            (mapKeys buildPatterns)))
  = ["CMakeLists.txt"; "CMakeLists.txt"; "sub/CMakeLists.txt"].
Proof.
  rewrite (scanBuildSystems_root_descriptor_twice scanner0 (fun _ => None)
             (mapKeys buildPatterns) eq_refl (Permutation_refl _)).
  reflexivity.
Defined.

Section Config.

Variables (projectPath : string) (config config' : list (string * bool)).

Local Abbreviation s := (New projectPath config).
Local Abbreviation s' := (New projectPath config').

Lemma scanLines_config ord file lines :
  forall lineNum,
    scanLines s ord file lineNum lines = scanLines s' ord file lineNum lines.
Proof.
  induction lines as [|l lines IH]; intros lineNum; simpl; [reflexivity|].
  rewrite IH. reflexivity.
Qed.

Lemma scanOne_config root ord st file :
  scanOne s root ord st file = scanOne s' root ord st file.
Proof.
  unfold scanOne, scanFile. destruct (Open root file); [reflexivity|].
  rewrite scanLines_config. reflexivity.
Qed.

Lemma fold_scanOne_config root ord files :
  forall st,
    fold_left (scanOne s root ord) files st
    = fold_left (scanOne s' root ord) files st.
Proof.
  induction files as [|f files IH]; intros st; simpl; [reflexivity|].
  rewrite scanOne_config. apply IH.
Qed.

(** The configuration is not read by [Scan]. *)
Lemma Scan_config root ord now :
  Scan s root ord now = Scan s' root ord now.
Proof.
  unfold Scan.
  change (getSourceFiles s root) with (getSourceFiles s' root).
  destruct (getSourceFiles s' root) as [files [err|]]; [reflexivity|].
  rewrite fold_scanOne_config. reflexivity.
Qed.

End Config.

(** C3.  The file enumeration never reads the [recursive] entry of the
    configuration: a scan gives the same result whatever its value, and with
    [recursive] false the source file in a subdirectory is still counted
    and scanned. *)
Theorem Scan_ignores_recursive :
  (forall recursive verbose root ord now,
      Scan (scannerWith recursive verbose) root ord now
      = Scan (scannerWith true verbose) root ord now)
  /\ exists r,
       Scan (scannerWith false false) treeNested writtenOrder 0 = inl r
       /\ TotalFiles r = 1%Z
       /\ ScannedFiles r = 1%Z
       /\ map File (Issues r) = ["sub/deep.c"].
Proof.
  split.
  - intros recursive verbose root ord now. apply Scan_config.
  - eexists. split; [reflexivity|]. repeat split.
Qed.

(** ** The file enumeration, against its declarative reading *)

Section Enumeration.

Variable s : Scanner.

Lemma sourceFileFn_app p info err acc :
  sourceFileFn s p info err acc
  = (acc ++ fst (sourceFileFn s p info err []),
     snd (sourceFileFn s p info err [])).
Proof.
  unfold sourceFileFn. destruct err.
  - simpl. rewrite app_nil_r. reflexivity.
  - destruct (fiIsDir info).
    + destruct (skippedDir _); simpl; rewrite app_nil_r; reflexivity.
    + destruct (mapTest _ _); simpl; [reflexivity|].
      rewrite app_nil_r. reflexivity.
Qed.

Lemma walk_source_app p n acc :
  walk (sourceFileFn s) p n acc
  = (acc ++ fst (walk (sourceFileFn s) p n []),
     snd (walk (sourceFileFn s) p n [])).
Proof. apply (walk_app _ sourceFileFn_app). Qed.

(** On a walkable node the walk collects the declarative list. *)
Lemma walk_walkable n :
  forall p,
    walkable n = true ->
    walk (sourceFileFn s) p n [] = (sourceFilesOf s p n, walkResult n).
Proof.
  induction n as [name data|name es IH|name] using node_nested_ind;
    intros p Hw.
  - simpl. unfold sourceFileFn, walkResult. simpl.
    destruct (mapTest _ _); reflexivity.
  - simpl in Hw. simpl walk. unfold sourceFileFn at 1. simpl.
    unfold walkResult. simpl.
    destruct (skippedDir name) eqn:Es; [reflexivity|].
    simpl in Hw.
    enough (H : forall acc,
               walkEntries (walk (sourceFileFn s)) p es acc
               = (acc ++ flat_map
                           (fun e => sourceFilesOf s (Join p (nodeName e)) e) es,
                  WalkNil))
      by apply (H []).
    clear Es. induction IH as [|e es He _ IHes]; intros acc.
    + simpl. rewrite app_nil_r. reflexivity.
    + simpl in Hw. apply andb_prop in Hw. destruct Hw as [Hwe Hwes].
      simpl walkEntries. rewrite walk_source_app, (He _ Hwe).
      simpl fst. simpl snd. unfold walkResult.
      destruct (nodeIsDir e) eqn:Ed.
      * destruct (skippedDir (nodeName e)); simpl;
          rewrite (IHes Hwes), <- app_assoc; reflexivity.
      * simpl. rewrite (IHes Hwes), <- app_assoc. reflexivity.
  - discriminate.
Qed.

Lemma walk_walkable_continues n p acc :
  walkable n = true ->
  snd (walk (sourceFileFn s) p n acc) = WalkNil
  \/ (snd (walk (sourceFileFn s) p n acc) = WalkSkipDir /\ nodeIsDir n = true).
Proof.
  intros Hw. rewrite walk_source_app, (walk_walkable n p Hw). simpl.
  unfold walkResult. destruct (nodeIsDir n); simpl; [|auto].
  destruct (skippedDir _); auto.
Qed.

Lemma walk_Dir {St : Type}
    (fn : path -> FileInfo -> option error -> St -> St * walkRet)
    p name es st :
  walk fn p (Dir name es) st
  = match fn p (Lstat (Dir name es)) None st with
    | (st1, WalkNil) => walkEntries (walk fn) p es st1
    | r => r
    end.
Proof. reflexivity. Qed.

Lemma sourceFileFn_dir p name es acc :
  sourceFileFn s p (Lstat (Dir name es)) None acc
  = (acc, if skippedDir name then WalkSkipDir else WalkNil).
Proof. unfold sourceFileFn. simpl. destruct (skippedDir name); reflexivity. Qed.

(** An unreadable directory outside the skipped ones stops the walk. *)
Lemma walk_unwalkable n :
  forall p acc,
    walkable n = false ->
    snd (walk (sourceFileFn s) p n acc) = WalkErr ErrPermission.
Proof.
  induction n as [name data|name es IH|name] using node_nested_ind;
    intros p acc Hw.
  - discriminate.
  - simpl in Hw. apply orb_false_iff in Hw. destruct Hw as [Es Hw].
    rewrite walk_Dir, sourceFileFn_dir, Es.
    revert acc. induction IH as [|e es He _ IHes]; intros acc.
    + discriminate.
    + simpl in Hw. simpl walkEntries.
      destruct (walkable e) eqn:Hwe.
      * simpl in Hw.
        destruct (walk_walkable_continues e (Join p (nodeName e)) acc Hwe)
          as [Hr|[Hr Hd]];
          destruct (walk (sourceFileFn s) (Join p (nodeName e)) e acc)
            as [st r]; simpl in Hr; subst r.
        -- apply IHes. exact Hw.
        -- rewrite Hd. apply IHes. exact Hw.
      * specialize (He (Join p (nodeName e)) acc eq_refl).
        destruct (walk (sourceFileFn s) (Join p (nodeName e)) e acc)
          as [st r]. simpl in He. subst r. reflexivity.
  - reflexivity.
Qed.

Lemma sourceFilesOf_paths n :
  forall p',
    Forall (fun x => skippedDir x = false) p' ->
    Forall (sourcePath s) (sourceFilesOf s (p' ++ [nodeName n]) n).
Proof.
  induction n as [name data|name es IH|name] using node_nested_ind;
    intros p' Hp'.
  - simpl. destruct (mapTest _ _) eqn:E; constructor; [|constructor].
    unfold sourcePath. rewrite last_last, removelast_last.
    repeat split; try assumption. destruct p'; discriminate.
  - simpl. destruct (skippedDir name) eqn:Es; [constructor|].
    assert (Hp : Forall (fun x => skippedDir x = false) (p' ++ [name])).
    { apply Forall_app. split; [exact Hp'|]. constructor; [exact Es|constructor]. }
    induction IH as [|e es He _ IHes]; simpl; [constructor|].
    apply Forall_app. split; [|exact IHes].
    apply (He (p' ++ [name]) Hp).
  - constructor.
Qed.

Lemma sourceFilesOf_root_paths name es :
  Forall (sourcePath s) (sourceFilesOf s [] (Dir name es)).
Proof.
  simpl. destruct (skippedDir name); [constructor|].
  induction es as [|e es IH]; simpl; [constructor|].
  apply Forall_app. split; [|exact IH].
  apply (sourceFilesOf_paths e []). constructor.
Qed.

End Enumeration.

(** X1.  When no unreadable directory lies outside the directories with a
    skipped name, [getSourceFiles] succeeds and returns the regular files
    with a supported extension, in walk order, nothing below a directory
    with a skipped name. *)
Theorem getSourceFiles_walkable (s : Scanner) (n : node) :
  walkable n = true ->
  getSourceFiles s (Some n) = (sourceFilesOf s [] n, None).
Proof.
  intros Hw. unfold getSourceFiles, Walk.
  rewrite (walk_walkable s n [] Hw). unfold walkResult.
  destruct (nodeIsDir n && skippedDir (nodeName n)); reflexivity.
Qed.

Lemma getSourceFiles_walkable_witness :
  getSourceFiles scanner0 (Some treePruned)
  = ([["MAIN.CPP"]; ["src"; "util.h"]], None).
Proof.
  rewrite (getSourceFiles_walkable scanner0 treePruned eq_refl).
  reflexivity.
Defined.

(** X2.  When the enumeration of a root directory succeeds, every path it
    returns has a supported extension (compared in lower case) on its last
    component and no skipped name among the directories above it. *)
Theorem getSourceFiles_paths (s : Scanner) (name : string) (es : list node) :
  snd (getSourceFiles s (Some (Dir name es))) = None ->
  Forall (sourcePath s) (fst (getSourceFiles s (Some (Dir name es)))).
Proof.
  intros Hok. unfold getSourceFiles, Walk in *.
  destruct (walkable (Dir name es)) eqn:Hw.
  - rewrite (walk_walkable s _ [] Hw). simpl fst.
    apply sourceFilesOf_root_paths.
  - exfalso.
    pose proof (walk_unwalkable s (Dir name es) [] [] Hw) as He.
    destruct (walk (sourceFileFn s) [] (Dir name es) []) as [st r].
    simpl in He. subst r. discriminate.
Qed.

Lemma getSourceFiles_paths_witness :
  Forall (sourcePath scanner0)
         (fst (getSourceFiles scanner0 (Some treePruned))).
Proof.
  apply (getSourceFiles_paths scanner0 "proj"). reflexivity.
Defined.

(** X3.  An unreadable directory that the walk reaches makes the whole scan
    fail with the permission error and no report, also when the directory
    has a skipped name: the callback tests the error before the name. *)
Theorem Scan_unreadable_directory
    (s : Scanner) (n : node) (ord : mapOrders) (now : Z) :
  walkable n = false ->
  Scan s (Some n) ord now = inr (FailedToGetSourceFiles ErrPermission).
Proof.
  intros Hw. unfold Scan, getSourceFiles, Walk.
  pose proof (walk_unwalkable s n [] [] Hw) as He.
  destruct (walk (sourceFileFn s) [] n []) as [st r].
  simpl in He. subst r. reflexivity.
Qed.

Lemma Scan_unreadable_directory_witness :
  Scan scanner0 (Some treeLocked) writtenOrder 0
  = inr (FailedToGetSourceFiles ErrPermission).
Proof.
  apply Scan_unreadable_directory. reflexivity.
Defined.

(** ** Build-system detection, against its declarative reading *)

Section WalkForall.

Context {X : Type}.
Variable fn : path -> FileInfo -> option error -> list X -> list X * walkRet.
Variable Q : X -> Prop.
Hypothesis fn_keeps :
  forall p info err acc, Forall Q acc -> Forall Q (fst (fn p info err acc)).

Lemma walkEntries_Forall p es :
  Forall (fun n => forall p acc,
              Forall Q acc -> Forall Q (fst (walk fn p n acc))) es ->
  forall acc, Forall Q acc -> Forall Q (fst (walkEntries (walk fn) p es acc)).
Proof.
  induction 1 as [|e es He _ IH]; intros acc Hacc; simpl; [exact Hacc|].
  specialize (He (Join p (nodeName e)) acc Hacc).
  destruct (walk fn (Join p (nodeName e)) e acc) as [st r]. simpl in He.
  destruct r; [auto| |exact He].
  destruct (nodeIsDir e); [auto|exact He].
Qed.

Lemma walk_Forall n :
  forall p acc, Forall Q acc -> Forall Q (fst (walk fn p n acc)).
Proof.
  induction n as [name data|name es IH|name] using node_nested_ind;
    intros p acc Hacc.
  - simpl. apply fn_keeps, Hacc.
  - rewrite walk_Dir.
    pose proof (fn_keeps p (Lstat (Dir name es)) None acc Hacc) as H0.
    destruct (fn p (Lstat (Dir name es)) None acc) as [st r]. simpl in H0.
    destruct r; try exact H0.
    apply walkEntries_Forall; assumption.
  - simpl. apply fn_keeps, Hacc.
Qed.

Lemma Walk_Forall root acc :
  Forall Q acc -> Forall Q (fst (Walk fn root acc)).
Proof.
  intros Hacc. unfold Walk. destruct root as [n|].
  - pose proof (walk_Forall n [] acc Hacc) as H.
    destruct (walk fn [] n acc). exact H.
  - pose proof (fn_keeps [] {| fiName := EmptyString; fiIsDir := false |}
                  (Some ErrNotExist) acc Hacc) as H.
    destruct (fn [] _ _ acc). exact H.
Qed.

End WalkForall.

Section Descriptors.

Variables pattern system : string.

Lemma walk_readable n :
  forall p,
    readable n = true ->
    walk (buildSystemFn pattern system) p n []
    = (map (mkBuildSystem system) (filesNamed pattern p n), WalkNil).
Proof.
  induction n as [name data|name es IH|name] using node_nested_ind;
    intros p Hr.
  - simpl. unfold buildSystemFn. simpl.
    destruct (String.eqb name pattern); reflexivity.
  - rewrite walk_Dir.
    change (buildSystemFn pattern system p (Lstat (Dir name es)) None [])
      with (@nil BuildSystem, WalkNil).
    simpl in Hr. simpl filesNamed.
    enough (H : forall acc,
               walkEntries (walk (buildSystemFn pattern system)) p es acc
               = (acc ++ map (mkBuildSystem system)
                           (flat_map
                              (fun e => filesNamed pattern (Join p (nodeName e)) e)
                              es),
                  WalkNil))
      by apply (H []).
    induction IH as [|e es He _ IHes]; intros acc.
    + simpl. rewrite app_nil_r. reflexivity.
    + simpl in Hr. apply andb_prop in Hr. destruct Hr as [Hre Hres].
      simpl walkEntries.
      rewrite (walk_app _ (buildSystemFn_app pattern system) e),
        (He _ Hre).
      simpl fst. simpl snd.
      rewrite (IHes Hres). simpl flat_map.
      rewrite map_app, app_assoc. reflexivity.
  - discriminate.
Qed.

Lemma buildSystemFn_keeps (Q : BuildSystem -> Prop) :
  (forall p, Q (mkBuildSystem system p)) ->
  forall p info err acc,
    Forall Q acc -> Forall Q (fst (buildSystemFn pattern system p info err acc)).
Proof.
  intros HQ p info err acc Hacc. unfold buildSystemFn.
  destruct err; [exact Hacc|].
  destruct (_ && _); [|exact Hacc].
  simpl. apply Forall_app. split; [exact Hacc|]. constructor; [apply HQ|constructor].
Qed.

End Descriptors.

Section DescriptorFacts.

Variables (s : Scanner) (around : string -> option (list string)).

Lemma descriptorsFor_Forall (Q : BuildSystem -> Prop) root pattern :
  (forall system file,
      mapGet buildPatterns pattern = Some system ->
      Q {| bsFile := file; System := system; NeedsReview := true |}) ->
  Forall Q (descriptorsFor s around root pattern).
Proof.
  intros HQ. rewrite descriptorsFor_eq.
  destruct (mapGet buildPatterns pattern) as [system|]; [|constructor].
  destruct (Glob _ _ _ _) as [matches|]; [|constructor].
  apply Forall_app. split.
  - apply Forall_forall. intros b Hb. apply in_map_iff in Hb.
    destruct Hb as (m & <- & _). apply HQ. reflexivity.
  - apply Walk_Forall; [|constructor].
    apply buildSystemFn_keeps. intros p. apply HQ. reflexivity.
Qed.

(** The file names of the table have no meta character. *)
Lemma buildPatterns_plain pattern system :
  mapGet buildPatterns pattern = Some system -> hasMeta pattern = false.
Proof.
  intros H. apply mapGet_In in H. simpl in H.
  destruct H as [<-|[<-|[<-|[<-|[<-|[<-|[<-|[]]]]]]]]; reflexivity.
Qed.

(** No two file names of the table name the same system. *)
Lemma buildPatterns_injective x y system :
  mapGet buildPatterns x = Some system ->
  mapGet buildPatterns y = Some system -> x = y.
Proof.
  intros Hx Hy.
  pose proof (mapGet_In _ _ _ Hx) as Ix.
  pose proof (mapGet_In _ _ _ Hy) as Iy.
  simpl in Ix, Iy.
  destruct Ix as [<-|[<-|[<-|[<-|[<-|[<-|[<-|[]]]]]]]];
    destruct Iy as [<-|[<-|[<-|[<-|[<-|[<-|[<-|[]]]]]]]];
    try reflexivity; vm_compute in Hx, Hy; congruence.
Qed.

End DescriptorFacts.

(** X4.  In a tree without unreadable directories, the build systems found
    for a file name of the table are what the glob of the project path
    joined with that name matches, followed by every regular file of that
    name at any depth in walk order, the root level and the directories that
    the file enumeration skips included.  When the project path has no meta
    character the glob matches the root entry of that name, when there is
    one; when it has, the glob matches what the file system around the
    project directory gives, and when the pattern is malformed the name
    contributes nothing, the files met by the walk included. *)
Theorem scanBuildSystems_readable (s : Scanner)
    (around : string -> option (list string)) (n : node) (keys : list string) :
  readable n = true ->
  (hasMeta (projectPath s) = false ->
   fst (scanBuildSystems s around (Some n) keys)
   = flat_map
       (fun pattern =>
          match mapGet buildPatterns pattern with
          | Some system =>
              match resolveFrom (Some n) (Join [] pattern) with
              | inl _ => [mkBuildSystem system (Join [] pattern)]
              | inr _ => []
              end
              ++ map (mkBuildSystem system) (filesNamed pattern [] n)
          | None => []
          end)
       keys)
  /\ (hasMeta (projectPath s) = true ->
      fst (scanBuildSystems s around (Some n) keys)
      = flat_map
          (fun pattern =>
             match mapGet buildPatterns pattern with
             | Some system =>
                 match around pattern with
                 | Some matches =>
                     map (globBuildSystem system) matches
                     ++ map (mkBuildSystem system) (filesNamed pattern [] n)
                 | None => []
                 end
             | None => []
             end)
          keys).
Proof.
  intros Hr.
  assert (Hwalk : forall pattern system,
    fst (Walk (buildSystemFn pattern system) (Some n) [])
    = map (mkBuildSystem system) (filesNamed pattern [] n)).
  { intros pattern system. unfold Walk.
    rewrite (walk_readable pattern system n [] Hr). reflexivity. }
  split; intros Hmeta; rewrite scanBuildSystems_flat_map;
    apply flat_map_ext; intros pattern; rewrite descriptorsFor_eq;
    destruct (mapGet buildPatterns pattern) as [system|] eqn:Eget;
    try reflexivity.
  - rewrite Glob_plain
      by (exact Hmeta || exact (buildPatterns_plain _ _ Eget)).
    rewrite Hwalk.
    destruct (resolveFrom (Some n) (Join [] pattern)); reflexivity.
  - unfold Glob. rewrite Hmeta. cbn [orb].
    destruct (around pattern); [rewrite Hwalk|]; reflexivity.
Qed.

(** With the project at [/proj] the file [Makefile] of the root is found
    by the glob and by the walk, and the one below [node_modules] by the
    walk; with the project at [/proj[], a malformed pattern, nothing is
    reported. *)
Lemma scanBuildSystems_readable_witness :
  map bsFile
    (fst (scanBuildSystems scanner0 (fun _ => None) (Some treeVendored)
            ["Makefile"]))
  = ["Makefile"; "Makefile"; "node_modules/lib/Makefile"]
  /\ fst (scanBuildSystems scannerBracket (fun _ => None) (Some treeVendored)
            (mapKeys buildPatterns))
     = [].
Proof.
  destruct (scanBuildSystems_readable scanner0 (fun _ => None)
              treeVendored ["Makefile"] eq_refl) as [H1 _].
  destruct (scanBuildSystems_readable scannerBracket (fun _ => None)
              treeVendored (mapKeys buildPatterns) eq_refl) as [_ H2].
  split.
  - rewrite (H1 eq_refl). reflexivity.
  - rewrite (H2 eq_refl). reflexivity.
Defined.

(** X5.  Whatever the project path, the tree, the file system around it and
    the order of the table, every build system reported needs review and
    carries a system identifier of the table. *)
Theorem scanBuildSystems_entries (s : Scanner)
    (around : string -> option (list string)) (root : option node)
    (keys : list string) :
  Forall (fun b => NeedsReview b = true
                   /\ exists pattern,
                        mapGet buildPatterns pattern = Some (System b))
         (fst (scanBuildSystems s around root keys)).
Proof.
  rewrite scanBuildSystems_flat_map.
  induction keys as [|pattern keys IH]; simpl; [constructor|].
  apply Forall_app. split; [|exact IH].
  apply descriptorsFor_Forall. intros system file Eget.
  split; [reflexivity|]. exists pattern. exact Eget.
Qed.

(** ** Two runs over the same tree *)

Section Permutations.

Context {A B C : Type}.

Lemma Permutation_flat_map_keys (g : A -> list B) (l l' : list A) :
  Permutation l l' -> Permutation (flat_map g l) (flat_map g l').
Proof.
  induction 1 as [|x l l' _ IH|x y l|l l' l'' _ IH1 _ IH2]; simpl.
  - constructor.
  - apply Permutation_app_head, IH.
  - rewrite !app_assoc. apply Permutation_app_tail, Permutation_app_comm.
  - eapply Permutation_trans; eassumption.
Qed.

Lemma Permutation_flat_map_each (g g' : A -> list B) (l : list A) :
  (forall x, Permutation (g x) (g' x)) ->
  Permutation (flat_map g l) (flat_map g' l).
Proof.
  intros H. induction l as [|x l IH]; simpl; [constructor|].
  apply Permutation_app; auto.
Qed.

Lemma map_flat_map_each (h : B -> C) (g g' : A -> list B) (l : list A) :
  (forall x, map h (g x) = map h (g' x)) ->
  map h (flat_map g l) = map h (flat_map g' l).
Proof.
  intros H. induction l as [|x l IH]; simpl; [reflexivity|].
  rewrite !map_app, H, IH. reflexivity.
Qed.

Lemma map_constant (h : B -> C) (k : C) (l : list B) :
  Forall (fun x => h x = k) l -> map h l = repeat k (List.length l).
Proof.
  induction 1 as [|x l Hx _ IH]; simpl; [reflexivity|].
  rewrite Hx, IH. reflexivity.
Qed.

Lemma existsb_Permutation (f : A -> bool) (l l' : list A) :
  Permutation l l' -> existsb f l = existsb f l'.
Proof.
  induction 1 as [|x l l' _ IH|x y l|l l' l'' _ IH1 _ IH2]; simpl.
  - reflexivity.
  - rewrite IH. reflexivity.
  - destruct (f x), (f y); reflexivity.
  - congruence.
Qed.

Lemma filter_Permutation (f : A -> bool) (l l' : list A) :
  Permutation l l' -> Permutation (filter f l) (filter f l').
Proof.
  induction 1 as [|x l l' _ IH|x y l|l l' l'' _ IH1 _ IH2]; simpl.
  - constructor.
  - destruct (f x); [constructor|]; exact IH.
  - destruct (f x), (f y); try apply Permutation_refl. constructor.
  - eapply Permutation_trans; eassumption.
Qed.

(** A loop in which at most one key produces something gives the same
    list in whatever order the keys are visited. *)
Lemma flat_map_Permutation_eq (h : A -> list B) (l l' : list A) :
  (forall x y, h x <> [] -> h y <> [] -> x = y) ->
  Permutation l l' -> flat_map h l = flat_map h l'.
Proof.
  intros Hh.
  induction 1 as [|x l l' _ IH|x y l|l l' l'' _ IH1 _ IH2]; simpl.
  - reflexivity.
  - rewrite IH. reflexivity.
  - destruct (h x) as [|a hx] eqn:Ex; [reflexivity|].
    destruct (h y) as [|b hy] eqn:Ey; [reflexivity|].
    assert (x = y) by (apply Hh; congruence). subst y.
    rewrite Ex in Ey. inversion Ey. reflexivity.
  - congruence.
Qed.

Lemma filter_nonempty (f : B -> bool) (l : list B) :
  filter f l <> [] -> exists x, In x l /\ f x = true.
Proof.
  induction l as [|x l IH]; simpl; [congruence|].
  destruct (f x) eqn:E.
  - intros _. exists x. auto.
  - intros H. destruct (IH H) as (y & Hy & Hf). exists y. auto.
Qed.

Lemma flat_map_filter_if (p : A -> bool) (g : A -> list B) (l : list A) :
  flat_map g (filter p l) = flat_map (fun x => if p x then g x else []) l.
Proof.
  induction l as [|x l IH]; simpl; [reflexivity|].
  destruct (p x); simpl; rewrite IH; reflexivity.
Qed.

End Permutations.

Section TwoRuns.

Variables (s : Scanner) (root : option node) (o1 o2 : lineOrder).
Hypothesis Ho1 : validLineOrder s o1.
Hypothesis Ho2 : validLineOrder s o2.

Lemma scanLine_Permutation file n line :
  Permutation (scanLine s (o1 file n) file n line)
              (scanLine s (o2 file n) file n line).
Proof.
  unfold scanLine. apply Permutation_flat_map_keys.
  eapply Permutation_trans; [apply Ho1|apply Permutation_sym, Ho2].
Qed.

Lemma scanLine_places keys file n line :
  map issuePlace (scanLine s keys file n line)
  = repeat (Rel file, n) (List.length (scanLine s keys file n line)).
Proof.
  apply map_constant.
  eapply Forall_impl; [|apply scanLine_fields].
  simpl. intros i [Hl Hf]. unfold issuePlace. rewrite Hl, Hf. reflexivity.
Qed.

Lemma scanLines_Permutation file lines :
  forall lineNum,
    Permutation (scanLines s o1 file lineNum lines)
                (scanLines s o2 file lineNum lines)
    /\ map issuePlace (scanLines s o1 file lineNum lines)
       = map issuePlace (scanLines s o2 file lineNum lines).
Proof.
  induction lines as [|l lines IH]; intros lineNum; simpl.
  - split; [constructor|reflexivity].
  - destruct (IH (lineNum + 1)%Z) as [IHp IHm]. split.
    + apply Permutation_app; [apply scanLine_Permutation|exact IHp].
    + rewrite !map_app, IHm, !scanLine_places.
      rewrite (Permutation_length (scanLine_Permutation file (lineNum + 1) l)).
      reflexivity.
Qed.

(** For one category the issues of a line do not depend on the order of
    the categories. *)
Lemma scanLine_category c file n line :
  filter (fun i => String.eqb (Category i) c)
         (scanLine s (o1 file n) file n line)
  = filter (fun i => String.eqb (Category i) c)
           (scanLine s (o2 file n) file n line).
Proof.
  unfold scanLine. rewrite !filter_flat_map.
  apply flat_map_Permutation_eq.
  - assert (Hc : forall x,
      filter (fun i => String.eqb (Category i) c)
        match mapGet (patterns s) x with
        | Some pats => scanCategory file n line x pats
        | None => []
        end <> [] -> x = c).
    { intros x Hx. apply filter_nonempty in Hx.
      destruct Hx as (i & Hi & Hic). apply String.eqb_eq in Hic.
      destruct (mapGet (patterns s) x) as [pats|]; [|contradiction].
      pose proof (scanCategory_fields file n line x pats) as Hf.
      rewrite Forall_forall in Hf. destruct (Hf i Hi) as (Hx & _).
      congruence. }
    intros x y Hx Hy. rewrite (Hc x Hx), (Hc y Hy). reflexivity.
  - eapply Permutation_trans; [apply Ho1|apply Permutation_sym, Ho2].
Qed.

Lemma scanLines_category c file lines :
  forall lineNum,
    filter (fun i => String.eqb (Category i) c)
           (scanLines s o1 file lineNum lines)
    = filter (fun i => String.eqb (Category i) c)
             (scanLines s o2 file lineNum lines).
Proof.
  induction lines as [|l lines IH]; intros lineNum; simpl; [reflexivity|].
  rewrite !filter_app, scanLine_category, IH. reflexivity.
Qed.

Lemma scanFile_category c file :
  filter (fun i => String.eqb (Category i) c) (fst (scanFile s root o1 file))
  = filter (fun i => String.eqb (Category i) c)
           (fst (scanFile s root o2 file)).
Proof.
  unfold scanFile. destruct (Open root file); simpl; [reflexivity|].
  apply scanLines_category.
Qed.

Lemma scanFile_err_order file :
  snd (scanFile s root o1 file) = snd (scanFile s root o2 file).
Proof. unfold scanFile. destruct (Open root file); reflexivity. Qed.

Lemma scanned_order file : scanned s root o1 file = scanned s root o2 file.
Proof. unfold scanned. rewrite scanFile_err_order. reflexivity. Qed.

Lemma scanFile_Permutation file :
  Permutation (fst (scanFile s root o1 file)) (fst (scanFile s root o2 file))
  /\ map issuePlace (fst (scanFile s root o1 file))
     = map issuePlace (fst (scanFile s root o2 file)).
Proof.
  unfold scanFile. destruct (Open root file); simpl.
  - split; [constructor|reflexivity].
  - apply scanLines_Permutation.
Qed.

End TwoRuns.

Section ReportOrder.

Variables (s : Scanner) (root : option node).

(** The line loop, line by line with the line numbers. *)
Lemma scanLines_numbered ord file lines :
  forall lineNum,
    scanLines s ord file lineNum lines
    = flat_map
        (fun nl => scanLine s (ord file (fst nl)) file (fst nl) (snd nl))
        (numbered lineNum lines).
Proof.
  induction lines as [|l lines IH]; intros lineNum; simpl; [reflexivity|].
  rewrite IH. reflexivity.
Qed.

Lemma numbered_lines start lines :
  map snd (numbered start lines) = lines
  /\ map fst (numbered start lines)
     = map (fun k => (start + Z.of_nat k)%Z) (seq 1 (List.length lines)).
Proof.
  revert start. induction lines as [|l lines IH]; intros start; simpl.
  - split; reflexivity.
  - destruct (IH (start + 1)%Z) as [IH1 IH2]. split.
    + rewrite IH1. reflexivity.
    + rewrite IH2. cbn [seq map].
      rewrite <- (seq_shift (List.length lines) 1), map_map.
      f_equal; try lia. apply map_ext. intros k. lia.
Qed.

(** The issues of a report, in the order of the four nested loops. *)
Lemma Issues_inOrder ord now r :
  Scan s root ord now = inl r ->
  Issues r = issuesInOrder s root (categoryOrder ord).
Proof.
  intros E. destruct (Scan_inl _ _ _ _ _ E) as (_ & _ & _ & His & _).
  cbv zeta in His. rewrite His, flat_map_filter_if.
  unfold issuesInOrder. apply flat_map_ext. intros f.
  unfold scanned, scanFile.
  destruct (Open root f) as [e|lines [|]]; simpl; try reflexivity.
  rewrite scanLines_numbered. reflexivity.
Qed.

Lemma BuildSystems_inOrder ord now r :
  Scan s root ord now = inl r ->
  BuildSystems r
  = buildSystemsInOrder s (globAround ord) root (buildPatternOrder ord).
Proof.
  intros E. destruct (Scan_inl _ _ _ _ _ E) as (_ & _ & _ & _ & Hbs & _).
  rewrite Hbs. apply scanBuildSystems_flat_map.
Qed.

Lemma descriptorsFor_around a1 a2 pattern :
  (forall name, a1 name = a2 name) ->
  descriptorsFor s a1 root pattern = descriptorsFor s a2 root pattern.
Proof.
  intros H. rewrite !descriptorsFor_eq. unfold Glob. rewrite H.
  reflexivity.
Qed.

(** For one system the build systems reported do not depend on the order
    of the file names. *)
Lemma buildSystems_system around keys1 keys2 system :
  Permutation keys1 keys2 ->
  filter (fun b => String.eqb (System b) system)
         (flat_map (descriptorsFor s around root) keys1)
  = filter (fun b => String.eqb (System b) system)
           (flat_map (descriptorsFor s around root) keys2).
Proof.
  intros Hperm. rewrite !filter_flat_map.
  apply flat_map_Permutation_eq; [|exact Hperm].
  assert (Hc : forall x,
    filter (fun b => String.eqb (System b) system)
           (descriptorsFor s around root x) <> [] ->
    mapGet buildPatterns x = Some system).
  { intros x Hx. apply filter_nonempty in Hx.
    destruct Hx as (b & Hb & Hsys). apply String.eqb_eq in Hsys.
    pose proof (descriptorsFor_Forall s around
                  (fun b => mapGet buildPatterns x = Some (System b))
                  root x (fun _ _ H => H)) as Hf.
    rewrite Forall_forall in Hf. rewrite <- Hsys. apply Hf, Hb. }
  intros x y Hx Hy.
  exact (buildPatterns_injective x y system (Hc x Hx) (Hc y Hy)).
Qed.

End ReportOrder.

Section SameRecommendations.

Lemma generateRecommendations_Permutation r1 r2 :
  Permutation (Issues r1) (Issues r2) ->
  Permutation (BuildSystems r1) (BuildSystems r2) ->
  Dependencies r1 = Dependencies r2 ->
  generateRecommendations r1 = generateRecommendations r2.
Proof.
  intros Hi Hb Hd. unfold generateRecommendations.
  rewrite !highSeverityCount_filter, !buildSystemTypes_test.
  unfold hasSystem, len. rewrite Hd.
  rewrite (Permutation_length Hi).
  rewrite (Permutation_length (filter_Permutation isHigh _ _ Hi)).
  rewrite !(existsb_Permutation _ _ _ Hb). reflexivity.
Qed.

End SameRecommendations.

Lemma writtenOrder_validOrders : validOrders scanner0 writtenOrder.
Proof. split; [exact writtenOrder_valid|apply Permutation_refl]. Qed.

Lemma rotatedOrder_validOrders : validOrders scanner0 rotatedOrder.
Proof.
  split; [|apply Permutation_refl].
  intros file n. simpl.
  apply Permutation_sym.
  apply (Permutation_cons_append
           ["x86_intrinsics"; "architecture_checks"; "platform_specific"]
           "inline_assembly").
Qed.

(** C4, as stated, fails: on a tree with a line that matches two categories,
    two runs that visit the category table in different orders report the
    two issues of that line in different orders. *)
Lemma rescan_same_sequence_fails :
  ~ (forall o1 o2 now r1 r2,
        validOrders scanner0 o1 -> validOrders scanner0 o2 ->
        sameSurroundings o1 o2 ->
        Scan scanner0 treeTwoCategories o1 now = inl r1 ->
        Scan scanner0 treeTwoCategories o2 now = inl r2 ->
        Issues r1 = Issues r2).
Proof.
  intros H.
  specialize (H writtenOrder rotatedOrder 0%Z _ _
                writtenOrder_validOrders rotatedOrder_validOrders
                (fun _ => eq_refl) eq_refl eq_refl).
  vm_compute in H. discriminate.
Qed.

(** C4, amended.  Two scans of the same tree in the same surroundings, each
    visiting its maps in some order, both fail with the same error or both
    return a report.  In each report the issues come in the order of the
    four nested loops: the enumerated files that read cleanly in enumeration
    order, in a file the lines in increasing order, on a line the categories
    in the order of that run, in a category the expressions in the order of
    the table; the build systems come file name by file name in the order of
    that run.  The two reports have the same file counts, dependencies and
    recommendations; the same sequence of (file, line) places; for each
    category the same issues in the same order, and for each system the same
    build systems in the same order: they differ at most in how the
    categories are interleaved on one line and the systems in the list of
    build systems. *)
Theorem Scan_twice_same_up_to_map_order
    (s : Scanner) (root : option node) (o1 o2 : mapOrders) (t1 t2 : Z) :
  validOrders s o1 -> validOrders s o2 -> sameSurroundings o1 o2 ->
  match Scan s root o1 t1, Scan s root o2 t2 with
  | inl r1, inl r2 =>
      Issues r1 = issuesInOrder s root (categoryOrder o1)
      /\ Issues r2 = issuesInOrder s root (categoryOrder o2)
      /\ BuildSystems r1
         = buildSystemsInOrder s (globAround o1) root (buildPatternOrder o1)
      /\ BuildSystems r2
         = buildSystemsInOrder s (globAround o2) root (buildPatternOrder o2)
      /\ sameUpToMapOrder r1 r2
  | inr e1, inr e2 => e1 = e2
  | _, _ => False
  end.
Proof.
  intros [Hc1 Hb1] [Hc2 Hb2] Hsame.
  destruct (Scan s root o1 t1) as [r1|e1] eqn:E1,
           (Scan s root o2 t2) as [r2|e2] eqn:E2.
  - destruct (Scan_inl _ _ _ _ _ E1) as (_ & T1 & S1 & I1 & B1 & D1 & _ & R1).
    destruct (Scan_inl _ _ _ _ _ E2) as (_ & T2 & S2 & I2 & B2 & D2 & _ & R2).
    assert (Hok :
      filter (scanned s root (categoryOrder o1)) (fst (getSourceFiles s root))
      = filter (scanned s root (categoryOrder o2)) (fst (getSourceFiles s root))).
    { apply filter_ext. intros f. apply scanned_order. }
    assert (Hiss : Permutation (Issues r1) (Issues r2)).
    { rewrite I1, I2, Hok. apply Permutation_flat_map_each.
      intros f. apply (scanFile_Permutation s root _ _ Hc1 Hc2 f). }
    assert (Hperm : Permutation (buildPatternOrder o1) (buildPatternOrder o2)).
    { eapply Permutation_trans; [exact Hb1|apply Permutation_sym, Hb2]. }
    assert (Hbs2 : BuildSystems r2
                   = flat_map (descriptorsFor s (globAround o1) root)
                       (buildPatternOrder o2)).
    { rewrite B2, scanBuildSystems_flat_map. apply flat_map_ext.
      intros k. symmetry. apply descriptorsFor_around, Hsame. }
    assert (Hbs : Permutation (BuildSystems r1) (BuildSystems r2)).
    { rewrite Hbs2, B1, scanBuildSystems_flat_map.
      apply Permutation_flat_map_keys, Hperm. }
    assert (Hdeps : Dependencies r1 = Dependencies r2) by congruence.
    split; [exact (Issues_inOrder _ _ _ _ _ E1)|].
    split; [exact (Issues_inOrder _ _ _ _ _ E2)|].
    split; [exact (BuildSystems_inOrder _ _ _ _ _ E1)|].
    split; [exact (BuildSystems_inOrder _ _ _ _ _ E2)|].
    unfold sameUpToMapOrder.
    split; [congruence|].
    split; [rewrite S1, S2, Hok; reflexivity|].
    split; [exact Hiss|].
    split.
    { rewrite I1, I2, Hok. apply map_flat_map_each.
      intros f. apply (scanFile_Permutation s root _ _ Hc1 Hc2 f). }
    split.
    { intros c. rewrite I1, I2, Hok, !filter_flat_map.
      apply flat_map_ext. intros f.
      apply (scanFile_category s root _ _ Hc1 Hc2 c f). }
    split; [exact Hdeps|].
    split; [exact Hbs|].
    split.
    { intros system. rewrite Hbs2, B1, scanBuildSystems_flat_map.
      apply buildSystems_system, Hperm. }
    rewrite R1, R2.
    apply generateRecommendations_Permutation; assumption.
  - destruct (Scan_inl _ _ _ _ _ E1) as (N1 & _).
    destruct (Scan_inr _ _ _ _ _ E2) as (err & N2 & _). congruence.
  - destruct (Scan_inl _ _ _ _ _ E2) as (N1 & _).
    destruct (Scan_inr _ _ _ _ _ E1) as (err & N2 & _). congruence.
  - destruct (Scan_inr _ _ _ _ _ E1) as (err1 & N1 & ->).
    destruct (Scan_inr _ _ _ _ _ E2) as (err2 & N2 & ->). congruence.
Qed.

Lemma Scan_twice_same_up_to_map_order_witness :
  match Scan scanner0 treeTwoCategories writtenOrder 0,
        Scan scanner0 treeTwoCategories rotatedOrder 1 with
  | inl r1, inl r2 =>
      Issues r1
      = issuesInOrder scanner0 treeTwoCategories (categoryOrder writtenOrder)
      /\ Issues r2
         = issuesInOrder scanner0 treeTwoCategories (categoryOrder rotatedOrder)
      /\ BuildSystems r1
         = buildSystemsInOrder scanner0 (globAround writtenOrder)
             treeTwoCategories (buildPatternOrder writtenOrder)
      /\ BuildSystems r2
         = buildSystemsInOrder scanner0 (globAround rotatedOrder)
             treeTwoCategories (buildPatternOrder rotatedOrder)
      /\ sameUpToMapOrder r1 r2
  | inr e1, inr e2 => e1 = e2
  | _, _ => False
  end.
Proof.
  exact (Scan_twice_same_up_to_map_order scanner0 treeTwoCategories
           writtenOrder rotatedOrder 0 1
           writtenOrder_validOrders rotatedOrder_validOrders
           (fun _ => eq_refl)).
Defined.

(** ** What a match is *)

Section Matching.

Lemma matchHere_cons k q r :
  Regexp.matchHere ((k, q) :: r) = matchStep k q (Regexp.matchHere r).
Proof. destruct q; reflexivity. Qed.

Lemma starFrom_prefix k rest : prefixOnly rest -> prefixOnly (starFrom k rest).
Proof.
  intros Hrest s. induction s as [|a s IH]; intros m H; simpl in H.
  - apply Hrest, H.
  - destruct (Regexp.accepts k a); [|apply Hrest, H].
    destruct (starFrom k rest s) as [m0|] eqn:E; [|apply Hrest, H].
    injection H as <-. rewrite prefix_cons, Ascii.eqb_refl. apply IH.
    reflexivity.
Qed.

Lemma matchStep_prefix k q rest :
  prefixOnly rest -> prefixOnly (matchStep k q rest).
Proof.
  intros Hrest. destruct q; simpl.
  - intros [|a s] m H; [discriminate|].
    destruct (Regexp.accepts k a); [|discriminate].
    destruct (rest s) as [m0|] eqn:E; [|discriminate].
    injection H as <-. rewrite prefix_cons, Ascii.eqb_refl.
    apply Hrest, E.
  - apply starFrom_prefix, Hrest.
  - intros [|a s] m H; [discriminate|].
    destruct (Regexp.accepts k a); [|discriminate].
    destruct (starFrom k rest s) as [m0|] eqn:E; [|discriminate].
    injection H as <-. rewrite prefix_cons, Ascii.eqb_refl.
    apply (starFrom_prefix k rest Hrest), E.
Qed.

Lemma matchHere_prefix r : prefixOnly (Regexp.matchHere r).
Proof.
  induction r as [|[k q] r IH].
  - intros s m H. injection H as <-. apply prefix_empty.
  - rewrite matchHere_cons. apply matchStep_prefix, IH.
Qed.

Lemma Contains_prefix s m : String.prefix m s = true -> Strings.Contains s m = true.
Proof.
  intros H. destruct s as [|a s].
  - change (Strings.Contains EmptyString m)
      with (String.prefix m EmptyString || false).
    rewrite H. reflexivity.
  - rewrite Contains_cons, H. reflexivity.
Qed.

Lemma FindString_eq r s :
  Regexp.FindString r s
  = match Regexp.matchHere r s with
    | Some m => m
    | None =>
        match s with
        | EmptyString => EmptyString
        | String _ s' => Regexp.FindString r s'
        end
    end.
Proof. destruct s; reflexivity. Qed.

(** The text [FindString] returns occurs in the text searched. *)
Lemma FindString_Contains r s :
  Strings.Contains s (Regexp.FindString r s) = true.
Proof.
  induction s as [|a s IH]; rewrite FindString_eq;
    destruct (Regexp.matchHere r _) as [m|] eqn:E;
    try (apply Contains_prefix, (matchHere_prefix r _ _ E)).
  - reflexivity.
  - rewrite Contains_cons, IH. apply orb_true_r.
Qed.

End Matching.

(** ** The issues of a file *)

Section IssuesOfFile.

Variable s : Scanner.

Lemma scanPattern_issue file n line category pats pattern :
  mapGet (patterns s) category = Some pats -> In pattern pats ->
  Forall (fun i => issueOfTable s file i
                   /\ Line i = n
                   /\ matchesLine line (Pattern i) = true
                   /\ Strings.Contains line (MatchedText i) = true)
         (scanPattern file n line category pattern).
Proof.
  intros Hget Hin. unfold scanPattern.
  destruct (Regexp.Compile pattern) as [regex|] eqn:Ec; [|constructor].
  destruct (String.eqb (Regexp.FindString regex line) EmptyString) eqn:Em;
    constructor; [|constructor].
  unfold issueOfTable, matchesLine. simpl. rewrite Ec, Em.
  apply String.eqb_neq in Em.
  repeat split; try assumption.
  - exists pats. split; assumption.
  - apply FindString_Contains.
Qed.

Lemma scanLine_issues keys file n line :
  Forall (fun i => issueOfTable s file i
                   /\ Line i = n
                   /\ matchesLine line (Pattern i) = true
                   /\ Strings.Contains line (MatchedText i) = true)
         (scanLine s keys file n line).
Proof.
  unfold scanLine.
  induction keys as [|k keys IH]; simpl; [constructor|].
  apply Forall_app. split; [|exact IH].
  destruct (mapGet (patterns s) k) as [pats|] eqn:Hget; [|constructor].
  unfold scanCategory.
  assert (H : forall ps, incl ps pats ->
                Forall (fun i => issueOfTable s file i
                                 /\ Line i = n
                                 /\ matchesLine line (Pattern i) = true
                                 /\ Strings.Contains line (MatchedText i) = true)
                       (flat_map (scanPattern file n line k) ps)).
  { induction ps as [|p ps IHps]; intros Hincl; simpl; [constructor|].
    apply Forall_app. split.
    - apply (scanPattern_issue file n line k pats p Hget).
      apply Hincl. left. reflexivity.
    - apply IHps. intros x Hx. apply Hincl. right. exact Hx. }
  apply H, incl_refl.
Qed.

Lemma scanLines_issues ord file lines :
  forall start,
    Forall (fun i => issueOfTable s file i /\ issueOfLine lines start i)
           (scanLines s ord file start lines).
Proof.
  induction lines as [|l lines IH]; intros start; simpl; [constructor|].
  apply Forall_app. split.
  - eapply Forall_impl; [|apply scanLine_issues].
    simpl. intros i (Ht & Hl & Hm & Hc). split; [exact Ht|].
    exists l. rewrite Hl.
    replace (start + 1 - start - 1)%Z with 0%Z by lia.
    repeat split; try assumption. lia.
  - eapply Forall_impl; [|apply (IH (start + 1)%Z)].
    simpl. intros i (Ht & line & Hlt & Hnth & Hm & Hc). split; [exact Ht|].
    exists line. repeat split; try assumption; [lia|].
    replace (Z.to_nat (Line i - start - 1))
      with (S (Z.to_nat (Line i - (start + 1) - 1))) by lia.
    exact Hnth.
Qed.

Lemma constant_sorted (n : Z) (l : list Z) :
  Forall (fun x => x = n) l -> StronglySorted Z.le l.
Proof.
  induction 1 as [|x l Hx Hl IH]; constructor; [exact IH|].
  subst x. eapply Forall_impl; [|exact Hl]. simpl. intros y ->. lia.
Qed.

Lemma sorted_app (l1 l2 : list Z) (n : Z) :
  StronglySorted Z.le l1 -> StronglySorted Z.le l2 ->
  Forall (fun x => (x <= n)%Z) l1 -> Forall (fun y => (n <= y)%Z) l2 ->
  StronglySorted Z.le (l1 ++ l2).
Proof.
  intros H1 H2 Hle Hge. induction H1 as [|x l1 Hs IH Hx]; simpl; [exact H2|].
  inversion Hle as [|? ? Hxn Hle']; subst.
  constructor; [apply IH, Hle'|].
  apply Forall_app. split; [exact Hx|].
  eapply Forall_impl; [|exact Hge]. simpl. intros y Hy. lia.
Qed.

Lemma scanLines_sorted ord file lines :
  forall start,
    StronglySorted Z.le (map Line (scanLines s ord file start lines)).
Proof.
  induction lines as [|l lines IH]; intros start; simpl; [constructor|].
  rewrite map_app.
  apply (sorted_app _ _ (start + 1)%Z).
  - apply (constant_sorted (start + 1)%Z). apply Forall_map.
    eapply Forall_impl; [|apply scanLine_fields]. simpl. tauto.
  - apply IH.
  - apply Forall_map.
    eapply Forall_impl; [|apply scanLine_fields]. simpl. intros i [-> _]. lia.
  - apply Forall_map.
    eapply Forall_impl; [|apply scanLines_after]. simpl. intros i. lia.
Qed.

Lemma scanFile_issues_of_file root ord file :
  Forall (issueOfTable s file) (fst (scanFile s root ord file)).
Proof.
  unfold scanFile. destruct (Open root file) as [e|lines readErr]; simpl.
  - constructor.
  - eapply Forall_impl; [|apply scanLines_issues]. simpl. tauto.
Qed.

End IssuesOfFile.

(** X6.  Every issue [scanFile] returns for a file carries the relative path
    of that file, a non-empty matched text, an expression listed in the
    table under the issue's category, and the severity and suggestion that
    [getSeverity] and [getSuggestion] give for that category. *)
Theorem scanFile_issues_of_table
    (s : Scanner) (root : option node) (ord : lineOrder) (file : path) :
  Forall (issueOfTable s file) (fst (scanFile s root ord file)).
Proof.
  unfold scanFile. destruct (Open root file) as [e|lines readErr]; simpl.
  - constructor.
  - eapply Forall_impl; [|apply scanLines_issues]. simpl. tauto.
Qed.

(** X7.  The line numbers of the issues of a file lie between 1 and the
    number of lines read, and the issues come in the order of the lines. *)
Theorem scanFile_line_numbers
    (s : Scanner) (root : option node) (ord : lineOrder) (file : path) :
  match Open root file with
  | Lines lines _ =>
      Forall (fun i => (1 <= Line i <= len lines)%Z)
             (fst (scanFile s root ord file))
      /\ StronglySorted Z.le (map Line (fst (scanFile s root ord file)))
  | OpenErr _ => fst (scanFile s root ord file) = []
  end.
Proof.
  unfold scanFile. destruct (Open root file) as [e|lines readErr]; simpl.
  - reflexivity.
  - split; [|apply scanLines_sorted].
    eapply Forall_impl; [|apply scanLines_issues].
    simpl. intros i (_ & line & Hlt & Hnth & _).
    assert (Hlen : (Z.to_nat (Line i - 0 - 1) < List.length lines)%nat).
    { apply nth_error_Some. rewrite Hnth. discriminate. }
    unfold len. lia.
Qed.

(** X8.  Every issue of a file is reported on a line that exists: the
    issue's expression compiles and matches the line it numbers, and the
    matched text occurs in that line. *)
Theorem scanFile_issue_on_its_line
    (s : Scanner) (root : option node) (ord : lineOrder) (file : path) :
  match Open root file with
  | Lines lines _ =>
      Forall (issueOfLine lines 0) (fst (scanFile s root ord file))
  | OpenErr _ => fst (scanFile s root ord file) = []
  end.
Proof.
  unfold scanFile. destruct (Open root file) as [e|lines readErr]; simpl.
  - reflexivity.
  - eapply Forall_impl; [|apply scanLines_issues]. simpl. tauto.
Qed.

(** X9.  Every issue of a report was found in a file that the enumeration
    returned and whose scan succeeded, and carries that file's relative
    path. *)
Theorem Scan_issues_of_enumerated_files
    (s : Scanner) (root : option node) (ord : mapOrders) (now : Z) :
  match Scan s root ord now with
  | inl r =>
      Forall (fun i =>
                exists f,
                  In f (fst (getSourceFiles s root))
                  /\ scanned s root (categoryOrder ord) f = true
                  /\ issueOfTable s f i)
             (Issues r)
  | inr _ => True
  end.
Proof.
  destruct (Scan s root ord now) as [r|e] eqn:E; [|exact I].
  destruct (Scan_inl _ _ _ _ _ E) as (_ & _ & _ & His & _).
  rewrite His. apply Forall_forall. intros i Hi.
  apply in_flat_map in Hi. destruct Hi as (f & Hf & Hi).
  apply filter_In in Hf. destruct Hf as [Hf Hs].
  exists f. split; [exact Hf|]. split; [exact Hs|].
  pose proof (scanFile_issues_of_file s root (categoryOrder ord) f) as H.
  rewrite Forall_forall in H. apply H, Hi.
Qed.

(** X10.  With the built-in table, every issue has one of the four
    categories and severity high or medium, never low: high exactly for
    inline assembly and x86 intrinsics. *)
Theorem New_issue_severity
    (projectPath : string) (config : list (string * bool))
    (root : option node) (ord : lineOrder) (file : path) :
  Forall (fun i =>
            (Severity i = "high"
             /\ (Category i = "inline_assembly" \/ Category i = "x86_intrinsics"))
            \/ (Severity i = "medium"
                /\ (Category i = "architecture_checks"
                    \/ Category i = "platform_specific")))
         (fst (scanFile (New projectPath config) root ord file)).
Proof.
  eapply Forall_impl;
    [|apply (scanFile_issues_of_file (New projectPath config) root ord file)].
  simpl. intros i (_ & _ & Hsev & _ & pats & Hget & _).
  apply mapGet_In in Hget. simpl in Hget. rewrite Hsev.
  destruct Hget as [<-|[<-|[<-|[<-|[]]]]]; simpl; auto.
Qed.

(** ** The dependencies of the four ecosystems *)

Section Ecosystems.

Lemma pythonLine_ecosystem text :
  Forall (ofEcosystem "python") (pythonLine [] text).
Proof.
  unfold pythonLine.
  destruct (_ || _); [constructor|].
  destruct (Strings.Contains _ "==");
    [repeat constructor|].
  destruct (Strings.Contains _ ">="); repeat constructor.
Qed.

Lemma scanPython_ecosystem root :
  Forall (ofEcosystem "python") (fst (scanPythonDependencies root)).
Proof.
  unfold scanPythonDependencies.
  destruct (Open root _) as [e|lines readErr]; simpl; [constructor|].
  rewrite fold_pythonLine. simpl.
  induction lines as [|l lines IH]; simpl; [constructor|].
  apply Forall_app. split; [apply pythonLine_ecosystem|exact IH].
Qed.

Lemma goLine_ecosystem st text :
  Forall (ofEcosystem "go") (snd st) ->
  Forall (ofEcosystem "go") (snd (goLine st text)).
Proof.
  destruct st as [b deps]. intros H. simpl in H. unfold goLine.
  repeat match goal with
         | |- context [if ?c then _ else _] => destruct c
         end; simpl; try exact H.
  apply Forall_app. split; [exact H|]. repeat constructor.
Qed.

Lemma fold_goLine_ecosystem lines :
  forall st,
    Forall (ofEcosystem "go") (snd st) ->
    Forall (ofEcosystem "go") (snd (fold_left goLine lines st)).
Proof.
  induction lines as [|l lines IH]; intros st H; simpl; [exact H|].
  apply IH, goLine_ecosystem, H.
Qed.

Lemma scanGo_ecosystem root :
  Forall (ofEcosystem "go") (fst (scanGoDependencies root)).
Proof.
  unfold scanGoDependencies.
  destruct (Open root _) as [e|lines readErr]; simpl; [constructor|].
  apply fold_goLine_ecosystem. constructor.
Qed.

Lemma scanNpm_ecosystem root :
  Forall (ofEcosystem "npm") (fst (scanNpmDependencies root))
  /\ (List.length (fst (scanNpmDependencies root)) <= 1)%nat.
Proof.
  unfold scanNpmDependencies. destruct (IsNotExist _); simpl.
  - split; [constructor|lia].
  - split; [repeat constructor|lia].
Qed.

Lemma scanCargo_ecosystem root :
  Forall (ofEcosystem "cargo") (fst (scanCargoDependencies root))
  /\ (List.length (fst (scanCargoDependencies root)) <= 1)%nat.
Proof.
  unfold scanCargoDependencies. destruct (IsNotExist _); simpl.
  - split; [constructor|lia].
  - split; [repeat constructor|lia].
Qed.

(** What [appendIfOk] keeps of a result. *)
Lemma appendIfOk_eq deps r :
  appendIfOk deps r
  = deps ++ kept r.
Proof.
  destruct r as [ds [e|]]; unfold kept; simpl; [rewrite app_nil_r|]; reflexivity.
Qed.

Lemma kept_Forall (Q : Dependency -> Prop) (r : list Dependency * option error) :
  Forall Q (fst r) ->
  Forall Q (kept r).
Proof. destruct r as [ds [e|]]; unfold kept; simpl; [constructor|auto]. Qed.

Lemma kept_length (r : list Dependency * option error) :
  (List.length (kept r)
   <= List.length (fst r))%nat.
Proof. destruct r as [ds [e|]]; unfold kept; simpl; lia. Qed.

End Ecosystems.

Section Parts.

Variable root : option node.

Lemma kept_npm :
  kept (scanNpmDependencies root)
  = if present root "package.json" then [sentinel "npm"] else [].
Proof.
  unfold kept, scanNpmDependencies, present. cbv zeta.
  destruct (Stat root (Join [] "package.json")) as [[]|]; reflexivity.
Qed.

Lemma kept_cargo :
  kept (scanCargoDependencies root)
  = if present root "Cargo.toml" then [sentinel "cargo"] else [].
Proof.
  unfold kept, scanCargoDependencies, present. cbv zeta.
  destruct (Stat root (Join [] "Cargo.toml")) as [[]|]; reflexivity.
Qed.

Lemma kept_python :
  kept (scanPythonDependencies root)
  = flat_map (pythonLine []) (linesOf root "requirements.txt").
Proof.
  unfold kept, scanPythonDependencies, linesOf.
  destruct (Open root (Join [] "requirements.txt")) as [e|lines [|]];
    try reflexivity.
  simpl. apply fold_pythonLine.
Qed.

Lemma kept_go :
  kept (scanGoDependencies root)
  = snd (fold_left goLine (linesOf root "go.mod") (false, [])).
Proof.
  unfold kept, scanGoDependencies, linesOf.
  destruct (Open root (Join [] "go.mod")) as [e|lines [|]]; reflexivity.
Qed.

End Parts.

(** X11.  The dependencies of a project are, in this order: the npm
    sentinel when [package.json] is present; what the lines of
    [requirements.txt] declare, line by line, when the file reads cleanly;
    the Cargo sentinel when [Cargo.toml] is present; what the line loop of
    [go.mod] collects when the file reads cleanly.  No error is returned.
    Every dependency has one of the four ecosystems as type, the one of its
    part, and compatibility unknown. *)
Theorem scanDependencies_ecosystems (root : option node) :
  scanDependencies root
  = ((if present root "package.json" then [sentinel "npm"] else [])
     ++ flat_map (pythonLine []) (linesOf root "requirements.txt")
     ++ (if present root "Cargo.toml" then [sentinel "cargo"] else [])
     ++ snd (fold_left goLine (linesOf root "go.mod") (false, [])),
     None)
  /\ ofEcosystem "npm" (sentinel "npm")
  /\ Forall (ofEcosystem "python")
            (flat_map (pythonLine []) (linesOf root "requirements.txt"))
  /\ ofEcosystem "cargo" (sentinel "cargo")
  /\ Forall (ofEcosystem "go")
            (snd (fold_left goLine (linesOf root "go.mod") (false, [])))
  /\ Forall (fun d => In (Type_ d) ["npm"; "python"; "cargo"; "go"]
                      /\ ARMCompatible d = "unknown")
            (fst (scanDependencies root)).
Proof.
  assert (Heq : scanDependencies root
    = ((if present root "package.json" then [sentinel "npm"] else [])
       ++ flat_map (pythonLine []) (linesOf root "requirements.txt")
       ++ (if present root "Cargo.toml" then [sentinel "cargo"] else [])
       ++ snd (fold_left goLine (linesOf root "go.mod") (false, [])),
       None)).
  { unfold scanDependencies. cbv zeta. rewrite !appendIfOk_eq.
    rewrite kept_npm, kept_python, kept_cargo, kept_go.
    rewrite ?app_nil_l, <- ?app_assoc. reflexivity. }
  assert (Hp : Forall (ofEcosystem "python")
                 (flat_map (pythonLine []) (linesOf root "requirements.txt"))).
  { rewrite <- kept_python. apply kept_Forall, scanPython_ecosystem. }
  assert (Hg : Forall (ofEcosystem "go")
                 (snd (fold_left goLine (linesOf root "go.mod") (false, [])))).
  { apply fold_goLine_ecosystem. constructor. }
  split; [exact Heq|].
  split; [split; reflexivity|].
  split; [exact Hp|].
  split; [split; reflexivity|].
  split; [exact Hg|].
  rewrite Heq. cbn [fst].
  repeat (apply Forall_app; split).
  - destruct (present root "package.json"); [|constructor].
    constructor; [|constructor]. split; [simpl; auto|reflexivity].
  - eapply Forall_impl; [|exact Hp].
    intros d [Ht Hc]. rewrite Ht. simpl. auto.
  - destruct (present root "Cargo.toml"); [|constructor].
    constructor; [|constructor]. split; [simpl; auto|reflexivity].
  - eapply Forall_impl; [|exact Hg].
    intros d [Ht Hc]. rewrite Ht. simpl. auto 6.
Qed.

(** X12.  A [requirements.txt] whose read fails contributes no Python
    dependency, and a [go.mod] whose read fails no Go dependency, whatever
    was parsed before the failure. *)
Theorem scanDependencies_drops_broken_manifest (root : option node) :
  (forall lines,
      Open root (Join [] "requirements.txt") = Lines lines true ->
      Forall (fun d => Type_ d <> "python") (fst (scanDependencies root)))
  /\ (forall lines,
         Open root (Join [] "go.mod") = Lines lines true ->
         Forall (fun d => Type_ d <> "go") (fst (scanDependencies root))).
Proof.
  destruct (scanNpm_ecosystem root) as [Hn _].
  destruct (scanCargo_ecosystem root) as [Hc _].
  pose proof (scanPython_ecosystem root) as Hp.
  pose proof (scanGo_ecosystem root) as Hg.
  split; intros lines Hopen;
    unfold scanDependencies; cbv zeta; rewrite !appendIfOk_eq; simpl fst;
    rewrite ?app_nil_l; repeat (apply Forall_app; split).
  - eapply Forall_impl; [|apply kept_Forall, Hn].
    intros d [Ht _]. rewrite Ht. discriminate.
  - unfold kept, scanPythonDependencies. rewrite Hopen. constructor.
  - eapply Forall_impl; [|apply kept_Forall, Hc].
    intros d [Ht _]. rewrite Ht. discriminate.
  - eapply Forall_impl; [|apply kept_Forall, Hg].
    intros d [Ht _]. rewrite Ht. discriminate.
  - eapply Forall_impl; [|apply kept_Forall, Hn].
    intros d [Ht _]. rewrite Ht. discriminate.
  - eapply Forall_impl; [|apply kept_Forall, Hp].
    intros d [Ht _]. rewrite Ht. discriminate.
  - eapply Forall_impl; [|apply kept_Forall, Hc].
    intros d [Ht _]. rewrite Ht. discriminate.
  - unfold kept, scanGoDependencies. rewrite Hopen. constructor.
Qed.

Lemma scanDependencies_drops_broken_manifest_witness :
  fst (scanPythonDependencies treeBrokenManifests) <> []
  /\ fst (scanGoDependencies treeBrokenManifests) <> []
  /\ Forall (fun d => Type_ d <> "python")
            (fst (scanDependencies treeBrokenManifests))
  /\ Forall (fun d => Type_ d <> "go")
            (fst (scanDependencies treeBrokenManifests)).
Proof.
  destruct (scanDependencies_drops_broken_manifest treeBrokenManifests)
    as [Hp Hg].
  split; [discriminate|]. split; [discriminate|]. split.
  - apply (Hp ["numpy==1.21.0"]). reflexivity.
  - apply (Hg ["require ("; "example.com/m v1.0.0"]). reflexivity.
Defined.

(** ** The require block of [go.mod] *)

Section GoMod.

Lemma goLine_outside deps text :
  Strings.HasPrefix (Strings.TrimSpace text) "require (" = false ->
  goLine (false, deps) text = (false, deps).
Proof. intros H. unfold goLine. rewrite H. reflexivity. Qed.

Lemma fold_goLine_outside lines :
  (forall text, In text lines ->
     Strings.HasPrefix (Strings.TrimSpace text) "require (" = false) ->
  forall deps, fold_left goLine lines (false, deps) = (false, deps).
Proof.
  induction lines as [|l lines IH]; intros H deps; cbn [fold_left];
    [reflexivity|].
  rewrite goLine_outside by (apply H; left; reflexivity).
  apply IH. intros text Ht. apply H. right. exact Ht.
Qed.

(** The test of the line loop for the start of a block holds exactly of
    the lines that open a block. *)
Lemma opensBlock_HasPrefix text :
  opensBlock text
  <-> Strings.HasPrefix (Strings.TrimSpace text) "require (" = true.
Proof.
  split; [|apply HasPrefix_TrimSpace].
  intros (w & rest & Hw & ->).
  unfold Strings.TrimSpace, Strings.TrimLeft.
  rewrite TrimLeftFrom_white by exact Hw.
  change ("require (" ++ rest)%string
    with (String "r"%char ("equire" ++ " " ++ "(" ++ rest)).
  rewrite TrimLeft_graphic by reflexivity.
  change (String "r"%char ("equire" ++ " " ++ "(" ++ rest))
    with ("require" ++ " " ++ String "("%char rest)%string.
  rewrite TrimRight_word by reflexivity.
  rewrite TrimRight_rune by (vm_compute; tauto).
  rewrite allSpaceFrom_graphic by reflexivity.
  rewrite TrimRight_startsNoSpace by reflexivity.
  unfold Strings.HasPrefix.
  apply (prefix_app "require (" (Strings.TrimRight rest)).
Qed.

Lemma white_nonempty w :
  white w -> w <> EmptyString ->
  exists r w', In r spaceRunes /\ white w' /\ w = (r ++ w')%string.
Proof.
  intros [|r w' Hr Hw'] Hne; [congruence|].
  exists r, w'. auto.
Qed.

Lemma white_boundary w z :
  white w -> w <> EmptyString -> boundary (w ++ z) = true.
Proof.
  intros Hw Hne. apply white_bytes in Hw.
  destruct w as [|c w]; [congruence|].
  simpl in Hw. apply andb_prop in Hw. tauto.
Qed.

(** A word followed by something that is no printable character starts
    with a word and a byte that is no printable character only when it is
    that word. *)
Lemma prefix_word_boundary p : forall name z c q,
  word name = true -> boundary z = true ->
  word p = true -> graphic c = false ->
  String.prefix (p ++ String c q) (name ++ z) = true -> name = p.
Proof.
  induction p as [|a p IH]; intros name z c q Hname Hz Hp Hc H.
  - destruct name as [|d n]; [reflexivity|].
    change (EmptyString ++ String c q)%string with (String c q) in H.
    change (String d n ++ z)%string with (String d (n ++ z)) in H.
    rewrite prefix_cons in H. apply andb_prop in H. destruct H as [H _].
    apply Ascii.eqb_eq in H. subst d.
    apply word_cons in Hname. destruct Hname as [Hd _]. congruence.
  - apply word_cons in Hp. destruct Hp as [Ha Hp].
    change (String a p ++ String c q)%string
      with (String a (p ++ String c q)) in H.
    destruct name as [|d n].
    + change (EmptyString ++ z)%string with z in H.
      destruct z as [|x z]; [discriminate H|].
      rewrite prefix_cons in H. apply andb_prop in H. destruct H as [H _].
      apply Ascii.eqb_eq in H. subst x.
      simpl in Hz. rewrite Ha in Hz. discriminate Hz.
    + change (String d n ++ z)%string with (String d (n ++ z)) in H.
      rewrite prefix_cons in H. apply andb_prop in H. destruct H as [H1 H2].
      apply Ascii.eqb_eq in H1. subst d.
      apply word_cons in Hname. destruct Hname as [_ Hn].
      rewrite (IH n z c q Hn Hz Hp Hc H2). reflexivity.
Qed.

Variables name version w1 w2 tail : string.
Hypothesis Hname : word name = true.
Hypothesis Hnonempty : name <> EmptyString.
Hypothesis Hversion : word version = true.
Hypothesis Hvnonempty : version <> EmptyString.
Hypothesis Hw1 : white w1.
Hypothesis Hw2 : white w2.
Hypothesis Hw2nonempty : w2 <> EmptyString.
Hypothesis Htail : tail = EmptyString \/ runeLed tail.

Local Abbreviation trimmed :=
  (name ++ w2 ++ version ++ Strings.TrimRight tail)%string.

Lemma version_not_space z :
  Strings.allSpaceFrom 0 (version ++ z) = false.
Proof.
  destruct version as [|c v] eqn:E; [congruence|].
  apply allSpaceFrom_graphic.
  apply word_cons in Hversion. tauto.
Qed.

Lemma go_line_trimmed :
  Strings.TrimSpace (w1 ++ name ++ w2 ++ version ++ tail) = trimmed.
Proof.
  unfold Strings.TrimSpace, Strings.TrimLeft.
  rewrite TrimLeftFrom_white by exact Hw1.
  replace (Strings.TrimLeftFrom 0 (name ++ w2 ++ version ++ tail))
    with (name ++ w2 ++ version ++ tail)%string.
  2:{ destruct name as [|c nm] eqn:E; [congruence|].
      change (String c nm ++ ?z)%string with (String c (nm ++ z)).
      symmetry. apply TrimLeft_graphic.
      apply word_cons in Hname. tauto. }
  rewrite TrimRight_word by exact Hname.
  rewrite TrimRight_white; [|exact Hw2|apply version_not_space].
  rewrite TrimRight_word by exact Hversion.
  reflexivity.
Qed.

Lemma go_line_fields :
  exists fields, Strings.Fields trimmed = name :: version :: fields.
Proof.
  unfold Strings.Fields.
  rewrite FieldsFrom_word by exact Hname. cbn [append].
  destruct (white_nonempty w2 Hw2 Hw2nonempty) as (r & w' & Hr & Hw' & ->).
  rewrite append_assoc, FieldsFrom_rune by exact Hr.
  rewrite FieldsFrom_white by exact Hw'.
  rewrite FieldsFrom_word by exact Hversion. cbn [append].
  assert (Hend : exists fields,
    Strings.FieldsFrom 0 version (Strings.TrimRight tail)
    = version :: fields).
  { destruct Htail as [->|(r' & z & Hr' & ->)].
    - simpl. destruct version; [congruence|]. eexists. reflexivity.
    - rewrite TrimRight_rune by exact Hr'.
      destruct (Strings.allSpaceFrom 0 z).
      + simpl. destruct version; [congruence|]. eexists. reflexivity.
      + rewrite FieldsFrom_rune by exact Hr'.
        destruct version; [congruence|]. eexists. reflexivity. }
  destruct Hend as [fields ->].
  destruct name; [congruence|]. exists fields. reflexivity.
Qed.

Lemma go_line_not_close : String.eqb trimmed ")" = false.
Proof.
  apply String.eqb_neq. intros H.
  apply (f_equal String.length) in H. rewrite !length_app in H.
  destruct name; [congruence|]. destruct w2; [congruence|].
  simpl in H. lia.
Qed.

Lemma go_line_not_empty : String.eqb trimmed EmptyString = false.
Proof.
  apply String.eqb_neq. destruct name; [congruence|]. discriminate.
Qed.

Lemma go_line_not_comment :
  Strings.HasPrefix name "//" = false ->
  Strings.HasPrefix trimmed "//" = false.
Proof.
  unfold Strings.HasPrefix. intros H.
  pose proof (white_boundary w2 (version ++ Strings.TrimRight tail)
                Hw2 Hw2nonempty) as Hb.
  destruct name as [|d [|e n]]; [congruence| |].
  - change (String d EmptyString ++ ?z)%string with (String d z).
    rewrite prefix_cons.
    destruct (w2 ++ version ++ Strings.TrimRight tail)%string as [|x z];
      [apply andb_false_r|].
    rewrite prefix_cons.
    destruct (Ascii.eqb_spec "/"%char x) as [<-|_];
      [discriminate Hb|apply andb_false_r].
  - change (String d (String e n) ++ ?z)%string
      with (String d (String e (n ++ z))).
    rewrite !prefix_cons, prefix_empty in *. exact H.
Qed.

Lemma go_line_not_open :
  name <> "require" -> Strings.HasPrefix trimmed "require (" = false.
Proof.
  intros Hne. unfold Strings.HasPrefix.
  destruct (String.prefix "require (" trimmed) eqn:E; [|reflexivity].
  exfalso. apply Hne.
  apply (prefix_word_boundary "require" name
           (w2 ++ version ++ Strings.TrimRight tail) " "%char "(");
    try reflexivity; try assumption.
  apply white_boundary; assumption.
Qed.

End GoMod.

(** X13.  Lines of [go.mod] outside a [require (] block declare nothing: a
    file in which no line opens a block (white space, then [require (],
    then anything), single-line [require] directives included, yields no Go
    dependency. *)
Theorem scanGoDependencies_needs_block
    (root : option node) (lines : list string) (readErr : bool) :
  Open root (Join [] "go.mod") = Lines lines readErr ->
  (forall text, In text lines -> ~ opensBlock text) ->
  fst (scanGoDependencies root) = [].
Proof.
  intros Hopen Hlines. unfold scanGoDependencies. rewrite Hopen. simpl.
  rewrite (fold_goLine_outside lines); [reflexivity|].
  intros text Hin.
  destruct (Strings.HasPrefix (Strings.TrimSpace text) "require (") eqn:E;
    [|reflexivity].
  exfalso. apply (Hlines text Hin), opensBlock_HasPrefix, E.
Qed.

Lemma scanGoDependencies_needs_block_witness :
  fst (scanGoDependencies treeGoSingleLine) = [].
Proof.
  apply (scanGoDependencies_needs_block treeGoSingleLine
           ["module example.com/app"; ""; "require example.com/m v1.0.0"] false).
  - reflexivity.
  - intros text Ht H. apply opensBlock_HasPrefix in H. simpl in Ht.
    destruct Ht as [<-|[<-|[<-|[]]]]; vm_compute in H; discriminate H.
Defined.



(** ** What the renderers show *)

Section Rendering.

Lemma string_length_app s t :
  String.length (s ++ t) = (String.length s + String.length t)%nat.
Proof. induction s as [|c s IH]; simpl; congruence. Qed.

Lemma substring_length s :
  forall n m,
    (n + m <= String.length s)%nat -> String.length (substring n m s) = m.
Proof.
  induction s as [|c s IH]; intros n m H; simpl in H.
  - destruct n, m; simpl; lia.
  - destruct n as [|n].
    + destruct m as [|m]; simpl; [reflexivity|].
      rewrite (IH 0%nat m); lia.
    + simpl. apply IH. lia.
Qed.

Lemma substring_split s :
  forall n,
    (n <= String.length s)%nat ->
    s = (substring 0 n s ++ substring n (String.length s - n) s)%string.
Proof.
  induction s as [|c s IH]; intros n H; simpl in H.
  - destruct n; reflexivity.
  - destruct n as [|n].
    + simpl. f_equal.
      clear. induction s as [|d s IHs]; simpl; congruence.
    + simpl. f_equal. apply IH. lia.
Qed.

Lemma mapCount_mapSet m k c v :
  Cmd.mapCount (mapSet m k v) c
  = if String.eqb k c then v else Cmd.mapCount m c.
Proof.
  unfold Cmd.mapCount. rewrite mapGet_mapSet.
  destruct (String.eqb k c); reflexivity.
Qed.

Lemma mapGet_mapCount (m : list (string * Z)) c :
  mapGet m c = None -> Cmd.mapCount m c = 0%Z.
Proof. unfold Cmd.mapCount. intros ->. reflexivity. Qed.

End Rendering.

(** X15.  In the table of issues a file path is shown in at most 40 bytes:
    unchanged up to that length, otherwise as three dots and its last 37
    bytes.  A matched text is shown in at most 30 bytes: unchanged up to
    that length, otherwise as its first 27 bytes and three dots. *)
Theorem display_truncation (file matchedText : string) :
  (String.length (Cmd.displayFile file) <= 40)%nat
  /\ (if (40 <? String.length file)%nat
      then exists pre suf,
          file = (pre ++ suf)%string
          /\ String.length suf = 37%nat
          /\ Cmd.displayFile file = ("..." ++ suf)%string
      else Cmd.displayFile file = file)
  /\ (String.length (Cmd.displayMatchedText matchedText) <= 30)%nat
  /\ (if (30 <? String.length matchedText)%nat
      then exists pre rest,
          matchedText = (pre ++ rest)%string
          /\ String.length pre = 27%nat
          /\ Cmd.displayMatchedText matchedText = (pre ++ "...")%string
      else Cmd.displayMatchedText matchedText = matchedText).
Proof.
  assert (HF :
    (String.length (Cmd.displayFile file) <= 40)%nat
    /\ (if (40 <? String.length file)%nat
        then exists pre suf,
            file = (pre ++ suf)%string
            /\ String.length suf = 37%nat
            /\ Cmd.displayFile file = ("..." ++ suf)%string
        else Cmd.displayFile file = file)).
  { unfold Cmd.displayFile.
    destruct (40 <? String.length file)%nat eqn:Ef.
    - apply Nat.ltb_lt in Ef. split.
      + rewrite string_length_app, substring_length by lia. simpl. lia.
      + exists (substring 0 (String.length file - 37) file),
          (substring (String.length file - 37) 37 file).
        split; [|split; [apply substring_length; lia|reflexivity]].
        pose proof (substring_split file (String.length file - 37)) as H.
        replace (String.length file - (String.length file - 37))%nat
          with 37%nat in H by lia.
        apply H. lia.
    - apply Nat.ltb_ge in Ef. split; [exact Ef|reflexivity]. }
  assert (HM :
    (String.length (Cmd.displayMatchedText matchedText) <= 30)%nat
    /\ (if (30 <? String.length matchedText)%nat
        then exists pre rest,
            matchedText = (pre ++ rest)%string
            /\ String.length pre = 27%nat
            /\ Cmd.displayMatchedText matchedText = (pre ++ "...")%string
        else Cmd.displayMatchedText matchedText = matchedText)).
  { unfold Cmd.displayMatchedText.
    destruct (30 <? String.length matchedText)%nat eqn:Em.
    - apply Nat.ltb_lt in Em. split.
      + rewrite string_length_app, substring_length by lia. simpl. lia.
      + exists (substring 0 27 matchedText),
          (substring 27 (String.length matchedText - 27) matchedText).
        split; [apply substring_split; lia|].
        split; [apply substring_length; lia|reflexivity].
    - apply Nat.ltb_ge in Em. split; [exact Em|reflexivity]. }
  destruct HF as [HF1 HF2]. destruct HM as [HM1 HM2].
  repeat split; assumption.
Qed.

(** X16.  The summary counts, for each category, the issues of that
    category: a category without issue has no entry, and every other
    category is counted exactly. *)
Theorem countCategories_counts (issues : list Issue) (c : string) :
  mapGet (Cmd.countCategories issues) c
  = if (issuesOfCategory c issues =? 0)%Z then None
    else Some (issuesOfCategory c issues).
Proof.
  unfold Cmd.countCategories.
  enough (H : forall m,
             mapGet
               (fold_left
                  (fun categories issue =>
                     mapSet categories (Category issue)
                            (Cmd.mapCount categories (Category issue) + 1)%Z)
                  issues m) c
             = match mapGet m c with
               | Some v => Some (v + issuesOfCategory c issues)%Z
               | None =>
                   if (issuesOfCategory c issues =? 0)%Z then None
                   else Some (issuesOfCategory c issues)
               end)
    by apply (H []).
  unfold issuesOfCategory.
  induction issues as [|i issues IH]; intros m; cbn [fold_left filter].
  - unfold len. simpl. destruct (mapGet m c); [f_equal; lia|reflexivity].
  - rewrite IH, mapGet_mapSet.
    destruct (String.eqb (Category i) c) eqn:E.
    + apply String.eqb_eq in E. rewrite E.
      unfold Cmd.mapCount, len. cbn [List.length].
      destruct (mapGet m c) as [v|].
      * f_equal. lia.
      * replace (Z.of_nat (S _) =? 0)%Z with false
          by (symmetry; apply Z.eqb_neq; lia).
        f_equal. lia.
    + reflexivity.
Qed.

(** X17.  A report always gets between one and five recommendations, and
    the first one is the clean-scan message or the message with the number
    of issues. *)
Theorem generateRecommendations_bounds (r : ScanResults) :
  (1 <= List.length (generateRecommendations r) <= 5)%nat
  /\ exists rest,
       generateRecommendations r
       = (match Issues r with
          | [] => msgClean
          | _ :: _ => msgFound (len (Issues r))
          end) :: rest.
Proof.
  unfold generateRecommendations.
  destruct (Issues r) as [|i issues] eqn:Ei.
  - change (len [] =? 0)%Z with true. cbv iota.
    split.
    + repeat match goal with
             | |- context [if ?c then _ else _] => destruct c
             end; rewrite ?length_app; cbn [List.length app]; lia.
    + repeat match goal with
             | |- context [if ?c then _ else _] => destruct c
             end; cbn [app]; eexists; reflexivity.
  - replace (len (i :: issues) =? 0)%Z with false
      by (symmetry; apply Z.eqb_neq; unfold len; cbn [List.length]; lia).
    split.
    + repeat match goal with
             | |- context [if ?c then _ else _] => destruct c
             end; rewrite ?length_app; cbn [List.length app]; lia.
    + repeat match goal with
             | |- context [if ?c then _ else _] => destruct c
             end; cbn [app]; eexists; reflexivity.
Qed.

(** ** Expressions that are plain words *)

Section Words.

Lemma word_not a c :
  Regexp.isWord a = false -> Regexp.isWord c = true -> Ascii.eqb c a = false.
Proof.
  intros Ha Hc. apply Ascii.eqb_neq. intros ->. congruence.
Qed.

Lemma word_is_literal c s' :
  Regexp.isWord c = true ->
  Ascii.eqb c "\"%char = false
  /\ (Ascii.eqb c "*"%char || Ascii.eqb c "+"%char) = false
  /\ Regexp.isMeta c = false
  /\ (Ascii.eqb c "{"%char && Regexp.startsWithDigit s') = false
  /\ Ascii.eqb c "."%char = false.
Proof.
  intros Hc. unfold Regexp.isMeta. simpl existsb.
  rewrite !(fun a H => word_not a c H Hc) by reflexivity.
  repeat split.
Qed.

Lemma parse_word s :
  allChars Regexp.isWord s = true ->
  forall quantified acc,
    Regexp.parse s false quantified acc = Some (rev acc ++ literal s).
Proof.
  induction s as [|c s IH]; intros Hs quantified acc.
  - simpl. rewrite app_nil_r. reflexivity.
  - simpl in Hs. apply andb_prop in Hs. destruct Hs as [Hc Hs].
    destruct (word_is_literal c s Hc) as (H1 & H2 & H3 & H4 & H5).
    cbn [Regexp.parse]. rewrite H1, H2, H3, H4, H5.
    rewrite (IH Hs). simpl. rewrite <- app_assoc. reflexivity.
Qed.

Lemma matchHere_literal p :
  forall s,
    Regexp.matchHere (literal p) s
    = if String.prefix p s then Some p else None.
Proof.
  induction p as [|c p IH]; intros s.
  - simpl. rewrite prefix_empty. reflexivity.
  - cbn [literal]. rewrite matchHere_cons. cbn [matchStep].
    destruct s as [|a s]; [reflexivity|].
    rewrite prefix_cons. cbn [Regexp.accepts].
    destruct (Ascii.eqb c a) eqn:E; [|reflexivity].
    apply Ascii.eqb_eq in E. subst a. rewrite IH. simpl.
    destruct (String.prefix p s); reflexivity.
Qed.

(** Searching for a literal finds it exactly when the text contains it. *)
Lemma FindString_literal p s :
  Regexp.FindString (literal p) s
  = if Strings.Contains s p then p else EmptyString.
Proof.
  induction s as [|a s IH]; rewrite FindString_eq, matchHere_literal.
  - change (Strings.Contains EmptyString p)
      with (String.prefix p EmptyString || false).
    destruct (String.prefix p EmptyString); reflexivity.
  - rewrite Contains_cons.
    destruct (String.prefix p (String a s)); [reflexivity|].
    rewrite IH. reflexivity.
Qed.

End Words.

(** X18.  An expression made of letters, digits and underscores only is a
    substring test: on a line it yields one issue, whose matched text is the
    expression itself, exactly when the line contains the expression, and
    nothing otherwise. *)
Theorem scanPattern_word
    (file : path) (n : Z) (line category pattern : string) :
  allChars Regexp.isWord pattern = true ->
  pattern <> EmptyString ->
  scanPattern file n line category pattern
  = if Strings.Contains line pattern
    then [issueFor file n category pattern pattern]
    else [].
Proof.
  intros Hw Hne. unfold scanPattern, Regexp.Compile.
  rewrite (parse_word pattern Hw false []). cbn [rev app].
  rewrite FindString_literal.
  destruct (Strings.Contains line pattern).
  - apply String.eqb_neq in Hne. rewrite Hne. reflexivity.
  - reflexivity.
Qed.

Lemma scanPattern_word_witness :
  scanPattern ["win.c"] 7 "  GetSystemInfo(&si);" "platform_specific"
              "GetSystemInfo"
  = [issueFor ["win.c"] 7 "platform_specific" "GetSystemInfo" "GetSystemInfo"].
Proof.
  rewrite (scanPattern_word ["win.c"] 7 "  GetSystemInfo(&si);"
             "platform_specific" "GetSystemInfo" eq_refl);
    [reflexivity|discriminate].
Defined.

(** ** Roots that are not an ordinary directory *)

Section Roots.

Variable s : Scanner.

Lemma getSourceFiles_Dir name es :
  snd (getSourceFiles s (Some (Dir name es))) = None ->
  fst (getSourceFiles s (Some (Dir name es))) = sourceFilesOf s [] (Dir name es).
Proof.
  intros Hok. unfold getSourceFiles, Walk in *.
  destruct (walkable (Dir name es)) eqn:Hw.
  - rewrite (walk_walkable s _ [] Hw). reflexivity.
  - exfalso.
    pose proof (walk_unwalkable s (Dir name es) [] [] Hw) as He.
    destruct (walk (sourceFileFn s) [] (Dir name es) []) as [st r].
    simpl in He. subst r. discriminate.
Qed.

Lemma getSourceFiles_Regular name data :
  getSourceFiles s (Some (Regular name data))
  = (if mapTest (extensions s) (Strings.ToLower (Ext name)) then [[]] else [],
     None).
Proof.
  unfold getSourceFiles, Walk. simpl. unfold sourceFileFn. simpl.
  destruct (mapTest _ _); reflexivity.
Qed.

Lemma getSourceFiles_skipped_root name es :
  skippedDir name = true ->
  getSourceFiles s (Some (Dir name es)) = ([], None).
Proof.
  intros Hs. unfold getSourceFiles, Walk.
  rewrite walk_Dir, sourceFileFn_dir, Hs. reflexivity.
Qed.

End Roots.

(** X19.  In the report of a scan of a directory, every issue carries the
    path of a file that the enumeration of the source files returned and
    that reads cleanly: a file with a supported extension that lies below
    no directory with a skipped name. *)
Theorem Scan_issue_paths
    (s : Scanner) (name : string) (es : list node) (ord : mapOrders) (now : Z) :
  match Scan s (Some (Dir name es)) ord now with
  | inl r =>
      Forall (fun i =>
                exists f,
                  In f (fst (getSourceFiles s (Some (Dir name es))))
                  /\ readsCleanly (Some (Dir name es)) f = true
                  /\ File i = Rel f
                  /\ sourcePath s f)
             (Issues r)
  | inr _ => True
  end.
Proof.
  destruct (Scan s (Some (Dir name es)) ord now) as [r|e] eqn:E; [|exact I].
  destruct (Scan_inl _ _ _ _ _ E) as (Hok & _ & _ & His & _).
  cbv zeta in His. rewrite His.
  apply Forall_forall. intros i Hi.
  apply in_flat_map in Hi. destruct Hi as (f & Hf & Hi).
  apply filter_In in Hf. destruct Hf as [Hf Hsc].
  exists f. split; [exact Hf|].
  split; [rewrite <- (scanned_readsCleanly s _ (categoryOrder ord)); exact Hsc|].
  split.
  - pose proof (scanFile_issues_of_file s (Some (Dir name es))
                  (categoryOrder ord) f) as H.
    rewrite Forall_forall in H. apply (H i Hi).
  - rewrite (getSourceFiles_Dir s name es Hok) in Hf.
    pose proof (sourceFilesOf_root_paths s name es) as H.
    rewrite Forall_forall in H. apply (H f Hf).
Qed.

(** X20.  When the path to scan is a regular file with a supported
    extension, the scan counts one file; when the file reads cleanly it is
    the one file scanned and the issues reported are those of its lines,
    each under the path [.], the file's path relative to itself; when it
    does not, no file is scanned and no issue reported. *)
Theorem Scan_single_file
    (s : Scanner) (name : string) (data : content) (ord : mapOrders) (now : Z) :
  mapTest (extensions s) (Strings.ToLower (Ext name)) = true ->
  exists r,
    Scan s (Some (Regular name data)) ord now = inl r
    /\ TotalFiles r = 1%Z
    /\ ScannedFiles r
       = match data with Text _ false => 1%Z | _ => 0%Z end
    /\ Issues r
       = match data with
         | Text lines false => scanLines s (categoryOrder ord) [] 0 lines
         | _ => []
         end
    /\ Forall (fun i => File i = ".") (Issues r).
Proof.
  intros Hext.
  pose proof (getSourceFiles_Regular s name data) as Hg. rewrite Hext in Hg.
  destruct (Scan s (Some (Regular name data)) ord now) as [r|e] eqn:E.
  - exists r. split; [reflexivity|].
    destruct (Scan_inl _ _ _ _ _ E) as (_ & Ht & Hsc & His & _).
    rewrite Hg in Ht, Hsc, His. cbv zeta in Hsc, His. cbn [fst filter] in Hsc, His.
    split; [exact Ht|].
    assert (Hscan : scanFile s (Some (Regular name data)) (categoryOrder ord) []
                    = match data with
                      | Unopenable => ([], Some ErrPermission)
                      | Text lines readErr =>
                          (scanLines s (categoryOrder ord) [] 0 lines,
                           errOfRead readErr)
                      end).
    { unfold scanFile. destruct data; reflexivity. }
    unfold scanned in Hsc, His. rewrite Hscan in Hsc, His.
    split; [|split].
    + rewrite Hsc. destruct data as [|lines [|]]; reflexivity.
    + rewrite His. destruct data as [|lines [|]]; try reflexivity.
      simpl. apply app_nil_r.
    + rewrite His. apply Forall_forall. intros i Hi.
      apply in_flat_map in Hi. destruct Hi as (f & Hf & Hi).
      assert (f = []).
      { destruct data as [|lines [|]]; simpl in Hf; try contradiction.
        destruct Hf as [<-|[]]. reflexivity. }
      subst f.
      pose proof (scanFile_issues_of_file s (Some (Regular name data))
                    (categoryOrder ord) []) as H.
      rewrite Forall_forall in H. apply (H i Hi).
  - destruct (Scan_inr _ _ _ _ _ E) as (err & Herr & _).
    rewrite Hg in Herr. discriminate.
Qed.

(** The file [main.c] given as the path to scan: its line 2 is reported
    under the path [.]. *)
Lemma Scan_single_file_witness :
  exists r,
    Scan scanner0 (Some treeSingleFile) writtenOrder 0 = inl r
    /\ TotalFiles r = 1%Z
    /\ ScannedFiles r = 1%Z
    /\ map (fun i => (File i, Line i, Category i)) (Issues r)
       = [(".", 2%Z, "inline_assembly")].
Proof.
  destruct (Scan_single_file scanner0 "main.c"
              (Text ["int x;"; "asm(x);"] false) writtenOrder 0 eq_refl)
    as (r & Hr & Ht & Hsc & His & _).
  exists r. split; [exact Hr|]. split; [exact Ht|]. split; [exact Hsc|].
  rewrite His. reflexivity.
Defined.

(** X21.  When the directory to scan itself has a skipped name, such as
    [build], [dist] or [venv], the enumeration prunes it at once: the scan
    succeeds with no file counted or scanned and no issue, whatever the
    directory holds. *)
Theorem Scan_skipped_root
    (s : Scanner) (name : string) (es : list node) (ord : mapOrders) (now : Z) :
  skippedDir name = true ->
  exists r,
    Scan s (Some (Dir name es)) ord now = inl r
    /\ TotalFiles r = 0%Z
    /\ ScannedFiles r = 0%Z
    /\ Issues r = [].
Proof.
  intros Hs.
  pose proof (getSourceFiles_skipped_root s name es Hs) as Hg.
  destruct (Scan s (Some (Dir name es)) ord now) as [r|e] eqn:E.
  - exists r. split; [reflexivity|].
    destruct (Scan_inl _ _ _ _ _ E) as (_ & Ht & Hsc & His & _).
    rewrite Hg in Ht, Hsc, His. auto.
  - destruct (Scan_inr _ _ _ _ _ E) as (err & Herr & _).
    rewrite Hg in Herr. discriminate.
Qed.

Lemma Scan_skipped_root_witness :
  exists r,
    Scan scanner0 (Some treeBuildRoot) writtenOrder 0 = inl r
    /\ TotalFiles r = 0%Z
    /\ ScannedFiles r = 0%Z
    /\ Issues r = [].
Proof.
  apply (Scan_skipped_root scanner0 "build"). reflexivity.
Defined.
